(** * agent-orange: session core, token codec, project registry and
    worktree reconciler.

    A shallow embedding of the server-side TypeScript sources
    ([cli-session-manager], [ws-auth], [project-manager], [cli-routes],
    the WebSocket upgrade of the server entry point, and the project,
    worktree and git-status slices of [integrated-project-routes])
    together with the properties that the system specification states
    about them and further properties of the code.

    Layout: the models come first (one module per source file or
    slice), then the definitions that the statements use, then the
    facts, module by module.

    Conventions.
    - The terminal output buffer is a JavaScript string, i.e. a sequence
      of UTF-16 code units; it is modelled as [list N].
    - Identifiers, titles, paths and tokens are modelled as [string]
      (one [ascii] per code unit, the Latin-1 range).
    - A JavaScript [Map] keyed by strings is a [gmap string _]; an
      optional array field that every reader defaults to [[]] is a list;
      the [Set] of sockets of a session is the list of its members in
      insertion order.
    - An [async] function that suspends while other code may run is
      given by its halves around the [await] where a statement depends
      on it ([createSession], [saveProjects]); a call that nothing
      overtakes is their composition.
    - Operating-system services (file system, git, the pty, hashing,
      [path.resolve]) are fields of an environment record; a call that
      can throw returns an [option] or a [result].
    - The JSON configuration file is a store cell of the registry state. *)

From Stdlib Require Import ZArith NArith List Ascii String Bool Lia.
From stdpp Require Import base option list gmap strings pretty.

(** * Part I: the model *)

(** ** JavaScript string primitives over code units *)

Module Js.
Local Open Scope Z_scope.

(** [String.prototype.length]. *)
Definition jslength (s : list N) : Z := Z.of_nat (length s).

(** Scan for the code unit [c]; [i] is the index of the head of [s]. *)
Fixpoint scan (c : N) (s : list N) (i : Z) : Z :=
  match s with
  | [] => -1
  | x :: r => if N.eqb x c then i else scan c r (i + 1)
  end.

(** [s.indexOf(c, position)] for a search string of one code unit: the
    position is clamped to [0, length]; the result is [-1] when absent. *)
Definition indexOf (s : list N) (c : N) (position : Z) : Z :=
  let k := Z.min (Z.max position 0) (jslength s) in
  scan c (drop (Z.to_nat k) s) k.

(** [s.slice(start)]: a negative start counts from the end. *)
Definition slice (s : list N) (start : Z) : list N :=
  let len := jslength s in
  let from := if start <? 0 then Z.max (len + start) 0 else Z.min start len in
  drop (Z.to_nat from) s.

End Js.

(** ** String helpers used by the registry, the routes and the codec *)

Module Str.

Definition chars (s : string) : list ascii := list_ascii_of_string s.
Definition str (l : list ascii) : string := string_of_list_ascii l.

Definition code (c : ascii) : nat := nat_of_ascii c.

Definition slash : ascii := ascii_of_nat 47.
Definition backslash : ascii := ascii_of_nat 92.
Definition dash : ascii := ascii_of_nat 45.
Definition underscore : ascii := ascii_of_nat 95.
Definition dot : ascii := ascii_of_nat 46.
Definition newline : ascii := ascii_of_nat 10.
Definition carriage : ascii := ascii_of_nat 13.

Fixpoint dropWhile {A} (p : A -> bool) (l : list A) : list A :=
  match l with
  | [] => []
  | x :: r => if p x then dropWhile p r else l
  end.

Fixpoint takeWhile {A} (p : A -> bool) (l : list A) : list A :=
  match l with
  | [] => []
  | x :: r => if p x then x :: takeWhile p r else []
  end.

Definition dropWhileEnd {A} (p : A -> bool) (l : list A) : list A :=
  rev (dropWhile p (rev l)).

Definition isChar (c : ascii) : ascii -> bool := fun x => Ascii.eqb x c.

(** [s.startsWith(p)]. *)
Definition startsWith (s p : string) : bool := String.prefix p s.

(** [s.substring(n)] for [0 <= n]. *)
Definition substringFrom (n : nat) (s : string) : string := str (drop n (chars s)).

(** [s.substring(0, n)], which is also [s.slice(0, n)]. *)
Definition substringTo (n : nat) (s : string) : string := str (take n (chars s)).

(** White space and line terminators of ECMAScript within Latin-1. *)
Definition isSpace (c : ascii) : bool :=
  let n := code c in
  ((9 <=? n) && (n <=? 13)) || (n =? 32) || (n =? 160).

(** [s.trim()]. *)
Definition trim (s : string) : string :=
  str (dropWhileEnd isSpace (dropWhile isSpace (chars s))).

(** [s.toLowerCase()] on Latin-1. *)
Definition lowerChar (c : ascii) : ascii :=
  let n := code c in
  if ((65 <=? n) && (n <=? 90)) ||
     ((192 <=? n) && (n <=? 222) && negb (n =? 215))
  then ascii_of_nat (n + 32) else c.

Definition toLowerCase (s : string) : string := str (map lowerChar (chars s)).

Definition contains (c : ascii) (s : string) : bool := existsb (isChar c) (chars s).

(** The class [[a-z0-9]]. *)
Definition isLowerAlnum (c : ascii) : bool :=
  let n := code c in
  ((97 <=? n) && (n <=? 122)) || ((48 <=? n) && (n <=? 57)).

(** The class [\w]. *)
Definition isWord (c : ascii) : bool :=
  let n := code c in
  ((97 <=? n) && (n <=? 122)) || ((65 <=? n) && (n <=? 90)) ||
  ((48 <=? n) && (n <=? 57)) || (n =? 95).

(** [s.replace(/[^a-z0-9]+/g, "-")]: every maximal run of characters
    outside the class becomes one dash. *)
Fixpoint dashRuns (inRun : bool) (l : list ascii) : list ascii :=
  match l with
  | [] => []
  | c :: r =>
      if isLowerAlnum c then c :: dashRuns false r
      else if inRun then dashRuns true r
      else dash :: dashRuns true r
  end.

(** [s.replace(/^-+|-+$/g, "")]. *)
Definition stripDashes (l : list ascii) : list ascii :=
  dropWhileEnd (isChar dash) (dropWhile (isChar dash) l).

(** [s.replace(/\\/g, "/")]. *)
Definition slashify (l : list ascii) : list ascii :=
  map (fun c => if isChar backslash c then slash else c) l.

(** [s.replace(/\/+$/, "")]. *)
Definition stripTrailingSlashes (l : list ascii) : list ascii :=
  dropWhileEnd (isChar slash) l.

(** [s.split(sep)] for a separator of one character. *)
Fixpoint splitOn_go (sep : ascii) (cur : list ascii) (l : list ascii)
  : list string :=
  match l with
  | [] => [str (rev cur)]
  | c :: r =>
      if isChar sep c then str (rev cur) :: splitOn_go sep [] r
      else splitOn_go sep (c :: cur) r
  end.

Definition splitOn (sep : ascii) (s : string) : list string :=
  splitOn_go sep [] (chars s).

(** [s.split(/\r?\n/)]: [cur] is the current line, reversed. *)
Fixpoint splitLines_go (cur : list ascii) (l : list ascii) : list string :=
  match l with
  | [] => [str (rev cur)]
  | c :: r =>
      if isChar newline c then
        let line := match cur with
                    | x :: cur' => if isChar carriage x then cur' else cur
                    | [] => cur
                    end in
        str (rev line) :: splitLines_go [] r
      else splitLines_go (c :: cur) r
  end.

Definition splitLines (s : string) : list string := splitLines_go [] (chars s).

(** Case folding of [/.../i] without the unicode flag, on ASCII. *)
Definition lowerAscii (c : ascii) : ascii :=
  let n := code c in
  if (65 <=? n) && (n <=? 90) then ascii_of_nat (n + 32) else c.

(** Match the lower-case word [w] at the head of [l], ignoring case;
    the result is what follows the match. *)
Fixpoint wordAt (w : list ascii) (l : list ascii) : option (list ascii) :=
  match w, l with
  | [], rest => Some rest
  | x :: w', c :: l' =>
      if Ascii.eqb (lowerAscii c) x then wordAt w' l' else None
  | _ :: _, [] => None
  end.

(** [/\bWORD\b/i.test(s)] for a lower-case ASCII word: [prevWord] tells
    whether the character before the current position is a word
    character. *)
Fixpoint testWord_go (w : list ascii) (prevWord : bool) (l : list ascii)
  : bool :=
  match l with
  | [] => false
  | c :: r =>
      (negb prevWord &&
       match wordAt w l with
       | Some [] => true
       | Some (d :: _) => negb (isWord d)
       | None => false
       end)
      || testWord_go w (isWord c) r
  end.

Definition testWord (w s : string) : bool := testWord_go (chars w) false (chars s).

(** [path.isAbsolute] of POSIX. *)
Definition isAbsolute (p : string) : bool := startsWith p "/".

(** [path.basename] of POSIX: the last segment, trailing slashes
    ignored. *)
Definition basename (p : string) : string :=
  str (rev (takeWhile (fun c => negb (isChar slash c))
              (dropWhile (isChar slash) (rev (chars p))))).

(** A string in a boolean position: the empty string is falsy. *)
Definition truthy (s : string) : bool := negb (String.eqb s "").

(** [a || b] on strings. *)
Definition orElse (a b : string) : string := if truthy a then a else b.

End Str.

(** ** Outcomes and the operating-system environment *)

Module Os.

(** The outcome of a call that may throw. *)
Inductive result (E A : Type) : Type :=
| Ok (value : A)
| Throw (error : E).
Arguments Ok {E A} value.
Arguments Throw {E A} error.

(** What the process can ask of its host. [fs_stat p] is [None] when
    [stat] throws and [Some d] otherwise, [d] telling whether [p] is a
    directory; [fs_realpath p] is [None] when [realpath] throws. The git
    fields are the three commands the worktree listing runs in a project
    directory. *)
Record Env : Type := {
  path_resolve : string -> string;
  path_relative : string -> string -> string;
  fs_stat : string -> option bool;
  fs_realpath : string -> option string;
  os_homedir : string;
  os_tmpdir : string;
  process_cwd : string;
  sha256_hex : string -> string;
  pty_spawn : string -> list string -> string -> option nat;
  git_worktree_list : string -> option string;
  git_worktree_prune : string -> bool;
  git_worktree_relist : string -> option string;
  git_worktree_remove : string -> list string -> bool
}.

End Os.

(** ** cli-session-manager: the snapshot buffer *)

Module Buffer.
Import Js.
Local Open Scope Z_scope.

Definition BUFFER_LIMIT : Z := 64 * 1024.
Definition ESC : N := 27%N.
Definition LF : N := 10%N.
Definition CR : N := 13%N.

Definition trimToSafeStart (buf : list N) : list N :=
  if jslength buf <=? BUFFER_LIMIT then buf
  else
    let start := jslength buf - BUFFER_LIMIT in
    let nextEsc := indexOf buf ESC start in
    if negb (nextEsc =? -1) then slice buf nextEsc
    else
      let nextNl := indexOf buf LF start in
      if negb (nextNl =? -1) then slice buf (nextNl + 1)
      else
        let nextCr := indexOf buf CR start in
        if negb (nextCr =? -1) then slice buf (nextCr + 1)
        else slice buf (jslength buf - BUFFER_LIMIT).

End Buffer.

(** ** cli-session-manager: the session table *)

Module Cli.
Import Js Str Os Buffer.
Local Open Scope string_scope.
Local Open Scope Z_scope.

Inductive Status : Type := starting | running | exited | error.

Record CliToolConfig : Type := {
  tool_id : string;
  tool_name : string;
  command : string;
  args : list string;
  description : string;
  tool_env : list (string * string);
  available : option bool;
  version : option string
}.

Record CreateCliSessionInput : Type := {
  in_projectId : string;
  in_worktreeId : string;
  in_cwd : string;
  in_tool : string;
  in_title : option string;
  in_commandArgs : option (list string)
}.

Record CliSessionInfo : Type := {
  info_id : string;
  info_title : string;
  info_projectId : string;
  info_worktreeId : string;
  info_cwd : string;
  info_tool : string;
  info_status : Status;
  info_createdAt : Z;
  info_updatedAt : Z
}.

(** The pty is a handle of the host; sockets are handles too. The
    socket set is the list of its members in the order in which they
    were added, which is the order in which a [Set] is iterated. The
    record's event emitter is never used by the source and is left out. *)
Record CliSessionRecord : Type := {
  id : string;
  title : string;
  projectId : string;
  worktreeId : string;
  cwd : string;
  tool : string;
  status : Status;
  createdAt : Z;
  updatedAt : Z;
  pty : nat;
  buffer : list N;
  sockets : list nat;
  lastActivity : Z
}.

Definition SESSION_IDLE_TIMEOUT : Z := 48 * 60 * 60 * 1000.
Definition MAX_SESSIONS_PER_PROJECT : Z := 10.
Definition MAX_TOTAL_SESSIONS : Z := 50.
Definition PTY_KILL_TIMEOUT : Z := 5000.

Record Manager : Type := {
  sessions : gmap string CliSessionRecord;
  tools : gmap string CliToolConfig
}.

(** The tool table of a fresh manager, before availability is probed;
    [tools[input.tool]] is a lookup among its own entries. *)
Definition initialTools : gmap string CliToolConfig :=
  <["codex" := {| tool_id := "codex"; tool_name := "Codex CLI";
                  command := "codex"; args := [];
                  description := "OpenAI Codex assistant CLI";
                  tool_env := []; available := None; version := None |}]>
  (<["claude" := {| tool_id := "claude"; tool_name := "Claude Code";
                    command := "claude"; args := [];
                    description := "Anthropic Claude Code interactive CLI";
                    tool_env := []; available := None; version := None |}]>
  (<["opencode" := {| tool_id := "opencode"; tool_name := "OpenCode";
                      command := "opencode"; args := [];
                      description := "OpenCode terminal UI";
                      tool_env := []; available := None; version := None |}]>
   ∅)).

Inductive Error : Type :=
| MaxTotalSessions
| MaxSessionsPerProject
| UnsupportedTool (tool : string)
| ToolUnavailable (name : string)
| CwdRequired
| StatFailed (path : string)
| CwdNotDirectory
| RealpathFailed (path : string)
| CwdOutsideSandbox
| SpawnFailed (command : string)
| SessionNotFound.

(** The text of the thrown [Error], where the source fixes it. *)
Definition message (e : Error) : string :=
  match e with
  | MaxTotalSessions => "Maximum total sessions (50) reached"
  | MaxSessionsPerProject => "Maximum sessions per project (10) reached"
  | UnsupportedTool t => "Unsupported CLI tool: " +:+ t
  | ToolUnavailable n => n +:+ " is not available on this system"
  | CwdRequired => "cwd is required"
  | StatFailed p => "stat " +:+ p
  | CwdNotDirectory => "cwd must be a directory"
  | RealpathFailed p => "realpath " +:+ p
  | CwdOutsideSandbox => "cwd must be within the home or temp directory"
  | SpawnFailed c => "spawn " +:+ c
  | SessionNotFound => "Session not found"
  end.

(** Messages sent to an attached socket. *)
Inductive ServerMsg : Type :=
| MsgSnapshot (data : list N)
| MsgData (data : list N)
| MsgStatus (status : Status)
| MsgExit (code : Z).

(** What an operation does to the outside world, in order. *)
Inductive Effect : Type :=
| Spawn (command : string) (args : list string) (cwd : string)
| Send (socket : nat) (msg : ServerMsg)
| CloseSocket (socket : nat) (code : Z) (reason : string).

Definition toInfo (s : CliSessionRecord) : CliSessionInfo :=
  {| info_id := id s; info_title := title s; info_projectId := projectId s;
     info_worktreeId := worktreeId s; info_cwd := cwd s; info_tool := tool s;
     info_status := status s; info_createdAt := createdAt s;
     info_updatedAt := updatedAt s |}.

Definition listSessions (m : Manager) : list CliSessionInfo :=
  map (fun kv => toInfo kv.2) (map_to_list (sessions m)).

(** [p === root || p.startsWith(root + path.sep)]. *)
Definition under (root p : string) : bool :=
  String.eqb p root || startsWith p (root +:+ "/").

Definition resolveCwd (env : Env) (inputPath : string) : result Error string :=
  if negb (truthy inputPath) then Throw CwdRequired
  else
    let normalized := path_resolve env inputPath in
    match fs_stat env normalized with
    | None => Throw (StatFailed normalized)
    | Some false => Throw CwdNotDirectory
    | Some true =>
        match fs_realpath env normalized with
        | None => Throw (RealpathFailed normalized)
        | Some real =>
            let realCwd := path_resolve env real in
            let realHome :=
              path_resolve env
                (default (os_homedir env) (fs_realpath env (os_homedir env))) in
            let realTmp :=
              path_resolve env
                (default (os_tmpdir env) (fs_realpath env (os_tmpdir env))) in
            let within := under realHome realCwd || under realTmp realCwd in
            if negb within then Throw CwdOutsideSandbox else Ok realCwd
        end
    end.

(** The number of sessions of a project:
    [Array.from(sessions.values()).filter(...).length]. *)
Definition projectSessions (m : Manager) (pid : string) : Z :=
  Z.of_nat (length (filter (fun kv => projectId kv.2 = pid)
                      (map_to_list (sessions m)))).

(** The separator of the default title, [U+00B7] between two spaces. *)
Definition middot : string := String (ascii_of_nat 183) EmptyString.

(** [createSession]: [now] is the clock and [uuid] the fresh identifier
    that [randomUUID] returns. The handlers registered on the pty are
    [onData] and [onExit] below; [markRunning] is the deferred status
    change. This is a call during whose [await] on [resolveCwd] nothing
    else touches the manager; its two halves are [createChecks] and
    [createResume] further down. *)
Definition createSession (env : Env) (m : Manager)
    (input : CreateCliSessionInput) (now : Z) (uuid : string)
  : result Error CliSessionInfo * Manager * list Effect :=
  let totalSessions := Z.of_nat (size (sessions m)) in
  if MAX_TOTAL_SESSIONS <=? totalSessions then (Throw MaxTotalSessions, m, [])
  else if MAX_SESSIONS_PER_PROJECT <=? projectSessions m (in_projectId input)
  then (Throw MaxSessionsPerProject, m, [])
  else
    match tools m !! in_tool input with
    | None => (Throw (UnsupportedTool (in_tool input)), m, [])
    | Some toolConfig =>
        match available toolConfig with
        | Some false => (Throw (ToolUnavailable (tool_name toolConfig)), m, [])
        | _ =>
            match resolveCwd env (in_cwd input) with
            | Throw e => (Throw e, m, [])
            | Ok resolvedCwd =>
                let commandArgs :=
                  (args toolConfig ++ default [] (in_commandArgs input))%list in
                let fx := [Spawn (command toolConfig) commandArgs resolvedCwd] in
                match pty_spawn env (command toolConfig) commandArgs resolvedCwd with
                | None => (Throw (SpawnFailed (command toolConfig)), m, fx)
                | Some handle =>
                    let record :=
                      {| id := uuid;
                         title := orElse (default "" (in_title input))
                                    (tool_name toolConfig +:+ " " +:+ middot
                                       +:+ " " +:+ in_worktreeId input);
                         projectId := in_projectId input;
                         worktreeId := in_worktreeId input;
                         cwd := resolvedCwd;
                         tool := tool_id toolConfig;
                         status := starting;
                         createdAt := now;
                         updatedAt := now;
                         pty := handle;
                         buffer := [];
                         sockets := [];
                         lastActivity := now |} in
                    (Ok (toInfo record),
                     {| sessions := <[uuid := record]> (sessions m);
                        tools := tools m |},
                     fx)
                end
            end
        end
    end.

Definition setBuffer (s : CliSessionRecord) (b : list N) : CliSessionRecord :=
  {| id := id s; title := title s; projectId := projectId s;
     worktreeId := worktreeId s; cwd := cwd s; tool := tool s;
     status := status s; createdAt := createdAt s; updatedAt := updatedAt s;
     pty := pty s; buffer := b; sockets := sockets s;
     lastActivity := lastActivity s |}.

Definition setActivity (s : CliSessionRecord) (t : Z) : CliSessionRecord :=
  {| id := id s; title := title s; projectId := projectId s;
     worktreeId := worktreeId s; cwd := cwd s; tool := tool s;
     status := status s; createdAt := createdAt s; updatedAt := updatedAt s;
     pty := pty s; buffer := buffer s; sockets := sockets s;
     lastActivity := t |}.

Definition setSockets (s : CliSessionRecord) (k : list nat) : CliSessionRecord :=
  {| id := id s; title := title s; projectId := projectId s;
     worktreeId := worktreeId s; cwd := cwd s; tool := tool s;
     status := status s; createdAt := createdAt s; updatedAt := updatedAt s;
     pty := pty s; buffer := buffer s; sockets := k;
     lastActivity := lastActivity s |}.

Definition appendBuffer (session : CliSessionRecord) (chunk : list N)
  : CliSessionRecord :=
  let grown := (buffer session ++ chunk)%list in
  if BUFFER_LIMIT <? jslength grown
  then setBuffer session (trimToSafeStart grown)
  else setBuffer session grown.

Definition broadcast (session : CliSessionRecord) (payload : ServerMsg)
  : list Effect :=
  map (fun socket => Send socket payload) (sockets session).

(** The [pty.onData] handler of a session. *)
Definition onData (record : CliSessionRecord) (data : list N) (now : Z)
  : CliSessionRecord * list Effect :=
  let r := appendBuffer (setActivity record now) data in
  (r, broadcast r (MsgData data)).

(** The handler as it acts on the table: the record of a live session
    is replaced by the updated one. *)
Definition deliver (m : Manager) (sessionId : string) (data : list N) (now : Z)
  : Manager * list Effect :=
  match sessions m !! sessionId with
  | None => (m, [])
  | Some record =>
      let '(r, fx) := onData record data now in
      ({| sessions := <[sessionId := r]> (sessions m); tools := tools m |}, fx)
  end.

(** [sockets.add(socket)]: a member stays where it is, a new one goes
    to the end. *)
Definition addSocket (socket : nat) (k : list nat) : list nat :=
  if bool_decide (socket ∈ k) then k else (k ++ [socket])%list.

(** [sockets.delete(socket)]. *)
Definition deleteSocket (socket : nat) (k : list nat) : list nat :=
  filter (fun x => x <> socket) k.

Definition attachWebSocket (m : Manager) (sessionId : string) (socket : nat)
  : Manager * list Effect :=
  match sessions m !! sessionId with
  | None => (m, [CloseSocket socket 4004 "Session not found"])
  | Some session =>
      let session' := setSockets session (addSocket socket (sockets session)) in
      let snapshot := trimToSafeStart (buffer session') in
      let fx :=
        ((if 0 <? jslength snapshot then [Send socket (MsgSnapshot snapshot)]
          else [])
         ++ [Send socket (MsgStatus (status session'))])%list in
      ({| sessions := <[sessionId := session']> (sessions m);
          tools := tools m |}, fx)
  end.

End Cli.

(** ** ws-auth: the token codec *)

Module WsAuth.
Import Str Os.
Local Open Scope string_scope.
Local Open Scope Z_scope.

(** JSON values; the numbers that occur are integral timestamps. *)
#[warnings="-register-all"]
Inductive json : Type :=
| JNull
| JBool (b : bool)
| JNum (n : Z)
| JStr (s : string)
| JArr (items : list json)
| JObj (fields : list (string * json)).

(** The primitives of the runtime that the codec calls: the HMAC-SHA256
    digest in base64url, [Buffer] conversions between a UTF-8 string and
    base64url, [JSON.stringify], [JSON.parse] ([None] when it throws a
    [SyntaxError]), and the numeric coercion that [<] applies to a value
    that is not a number ([None] for [NaN]). *)
Record Codec : Type := {
  WS_SECRET : string;
  hmac_base64url : string -> string -> string;
  base64url_of_utf8 : string -> string;
  utf8_of_base64url : string -> string;
  JSON_stringify : json -> string;
  JSON_parse : string -> option json;
  ToNumber : json -> option Z
}.

Inductive Exn : Type := SyntaxError | TypeError.

(** The object [{ sessionId, exp }]. *)
Definition SessionToken (sessionId : string) (exp : Z) : json :=
  JObj [("sessionId", JStr sessionId); ("exp", JNum exp)].

(** [generateSessionToken]; [now] is [Date.now()]. *)
Definition generateSessionToken (c : Codec) (sessionId : string) (now : Z)
  : string :=
  let exp := now + 60 * 60 * 1000 in
  let payload := SessionToken sessionId exp in
  let payloadStr := JSON_stringify c payload in
  let payloadB64 := base64url_of_utf8 c payloadStr in
  let signature := hmac_base64url c (WS_SECRET c) payloadB64 in
  payloadB64 +:+ "." +:+ signature.

Fixpoint assoc (k : string) (fields : list (string * json)) : option json :=
  match fields with
  | [] => None
  | (k', v) :: r => if String.eqb k' k then Some v else assoc k r
  end.

(** [value.name]: reading a property of [null] throws; a value that is
    not an object has no such property, and neither has an object that
    lacks the field ([None] is [undefined]). *)
Definition getProp (value : json) (name : string) : result Exn (option json) :=
  match value with
  | JNull => Throw TypeError
  | JObj fields => Ok (assoc name fields)
  | _ => Ok None
  end.

(** [v < now] for a number [now]. *)
Definition lessThan (c : Codec) (v : option json) (now : Z) : bool :=
  match v with
  | None => false
  | Some (JNum e) => e <? now
  | Some other =>
      match ToNumber c other with
      | Some e => e <? now
      | None => false
      end
  end.

(** The body of the [try] block of [verifySessionToken]. *)
Definition verifyBody (c : Codec) (token : string) (now : Z)
  : result Exn (option json) :=
  let parts := splitOn dot token in
  let payloadB64 := default "" (parts !! 0%nat) in
  let signature := default "" (parts !! 1%nat) in
  if negb (truthy payloadB64) || negb (truthy signature) then Ok None
  else
    let expectedSignature := hmac_base64url c (WS_SECRET c) payloadB64 in
    if negb (String.eqb signature expectedSignature) then Ok None
    else
      let payloadStr := utf8_of_base64url c payloadB64 in
      match JSON_parse c payloadStr with
      | None => Throw SyntaxError
      | Some payload =>
          match getProp payload "exp" with
          | Throw e => Throw e
          | Ok exp => if lessThan c exp now then Ok None else Ok (Some payload)
          end
      end.

(** [verifySessionToken]: whatever the body throws is caught. *)
Definition verifySessionToken (c : Codec) (token : string) (now : Z)
  : option json :=
  match verifyBody c token now with
  | Ok r => r
  | Throw _ => None
  end.

End WsAuth.
(** ** cli-session-manager: input, exit, idle sweep and shutdown *)

Module CliOps.
Import Js Str Os Buffer Cli WsAuth.
Local Open Scope string_scope.
Local Open Scope Z_scope.

(** What an operation asks of the host, in order: an effect of the
    session table as before ([Fx]), a call on a pty, or a plain
    [socket.close()]. *)
Inductive Call : Type :=
| Fx (e : Effect)
| PtyWrite (pty : nat) (data : string)
| PtyResize (pty : nat) (cols rows : Z)
| PtyKill (pty : nat)
| SocketClose (socket : nat).

Definition setStatus (s : CliSessionRecord) (st : Status) (now : Z)
  : CliSessionRecord :=
  {| id := id s; title := title s; projectId := projectId s;
     worktreeId := worktreeId s; cwd := cwd s; tool := tool s;
     status := st; createdAt := createdAt s; updatedAt := now;
     pty := pty s; buffer := buffer s; sockets := sockets s;
     lastActivity := lastActivity s |}.

(** The table with the record of [sessionId] replaced: the source
    mutates the record that the table holds. *)
Definition put (m : Manager) (sessionId : string) (r : CliSessionRecord)
  : Manager :=
  {| sessions := <[sessionId := r]> (sessions m); tools := tools m |}.

Definition getSession (m : Manager) (sessionId : string)
  : option CliSessionRecord := sessions m !! sessionId.

(** [createSession] up to its [await]: the two capacity checks and the
    look-up of the tool, which yields the tool's configuration. *)
Definition createChecks (m : Manager) (input : CreateCliSessionInput)
  : result Error CliToolConfig :=
  let totalSessions := Z.of_nat (size (sessions m)) in
  if MAX_TOTAL_SESSIONS <=? totalSessions then Throw MaxTotalSessions
  else if MAX_SESSIONS_PER_PROJECT <=? projectSessions m (in_projectId input)
  then Throw MaxSessionsPerProject
  else
    match tools m !! in_tool input with
    | None => Throw (UnsupportedTool (in_tool input))
    | Some toolConfig =>
        match available toolConfig with
        | Some false => Throw (ToolUnavailable (tool_name toolConfig))
        | _ => Ok toolConfig
        end
    end.

(** [createSession] from its [await] on: the working directory is
    resolved, the process is spawned and the record is put into the
    table. [m] is the manager as it is by then; it is the manager that
    was checked only if nothing else ran while the call was suspended,
    and the capacity is not checked again. *)
Definition createResume (env : Env) (m : Manager) (toolConfig : CliToolConfig)
    (input : CreateCliSessionInput) (now : Z) (uuid : string)
  : result Error CliSessionInfo * Manager * list Effect :=
  match resolveCwd env (in_cwd input) with
  | Throw e => (Throw e, m, [])
  | Ok resolvedCwd =>
      let commandArgs :=
        (args toolConfig ++ default [] (in_commandArgs input))%list in
      let fx := [Spawn (command toolConfig) commandArgs resolvedCwd] in
      match pty_spawn env (command toolConfig) commandArgs resolvedCwd with
      | None => (Throw (SpawnFailed (command toolConfig)), m, fx)
      | Some handle =>
          let record :=
            {| id := uuid;
               title := orElse (default "" (in_title input))
                          (tool_name toolConfig +:+ " " +:+ middot
                             +:+ " " +:+ in_worktreeId input);
               projectId := in_projectId input;
               worktreeId := in_worktreeId input;
               cwd := resolvedCwd;
               tool := tool_id toolConfig;
               status := starting;
               createdAt := now;
               updatedAt := now;
               pty := handle;
               buffer := [];
               sockets := [];
               lastActivity := now |} in
          (Ok (toInfo record),
           {| sessions := <[uuid := record]> (sessions m); tools := tools m |},
           fx)
      end
  end.

(** [write]; [now] is the clock. *)
Definition write (m : Manager) (sessionId data : string) (now : Z)
  : result Error unit * Manager * list Call :=
  match sessions m !! sessionId with
  | None => (Throw SessionNotFound, m, [])
  | Some session =>
      (Ok tt, put m sessionId (setActivity session now),
       [PtyWrite (pty session) data])
  end.

(** [resize]: the terminal is never made smaller than 20 by 4. *)
Definition resize (m : Manager) (sessionId : string) (cols rows : Z)
  : result Error unit * Manager * list Call :=
  match sessions m !! sessionId with
  | None => (Throw SessionNotFound, m, [])
  | Some session =>
      (Ok tt, m, [PtyResize (pty session) (Z.max 20 cols) (Z.max 4 rows)])
  end.

(** [v === s] for a property value [v] and a string [s]. *)
Definition isStr (v : option json) (s : string) : bool :=
  match v with
  | Some (JStr t) => String.eqb t s
  | _ => false
  end.

(** The string [v] when [typeof v === "string"]. *)
Definition asString (v : option json) : option string :=
  match v with
  | Some (JStr t) => Some t
  | _ => None
  end.

(** The number [v] when [typeof v === "number"]. *)
Definition asNumber (v : option json) : option Z :=
  match v with
  | Some (JNum n) => Some n
  | _ => None
  end.

(** The [message] handler that [attachWebSocket] registers on a socket
    of the session [sessionId]; [payload] is the text of the message.
    Whatever the body throws (a syntax error, a property read on
    [null], a session that is gone) is caught and logged. Sizes are
    integral, as the terminal emulator reports them. *)
Definition onMessage (c : Codec) (m : Manager) (sessionId payload : string)
    (now : Z) : Manager * list Call :=
  match JSON_parse c payload with
  | None => (m, [])
  | Some parsed =>
      match getProp parsed "type", getProp parsed "data",
            getProp parsed "cols", getProp parsed "rows" with
      | Ok type, Ok data, Ok cols, Ok rows =>
          match isStr type "input", asString data with
          | true, Some text =>
              ((write m sessionId text now).1.2, (write m sessionId text now).2)
          | _, _ =>
              match isStr type "resize", asNumber cols, asNumber rows with
              | true, Some cs, Some rs =>
                  ((resize m sessionId cs rs).1.2, (resize m sessionId cs rs).2)
              | _, _, _ => (m, [])
              end
          end
      | _, _, _, _ => (m, [])
      end
  end.

(** The [close] and [error] handler of a socket of the session. *)
Definition onClose (m : Manager) (sessionId : string) (socket : nat) : Manager :=
  match sessions m !! sessionId with
  | None => m
  | Some session =>
      put m sessionId (setSockets session (deleteSocket socket (sockets session)))
  end.

(** [cleanup]: close every socket of the session and forget it. *)
Definition cleanup (m : Manager) (sessionId : string) : Manager * list Call :=
  match sessions m !! sessionId with
  | None => (m, [])
  | Some session =>
      ({| sessions := delete sessionId (sessions m); tools := tools m |},
       map SocketClose (sockets session))
  end.

(** The [pty.onExit] handler that [createSession] registers. Once the
    record has left the table its socket set has been cleared, so the
    broadcast reaches nobody and the cleanup finds nothing. *)
Definition onExit (m : Manager) (sessionId : string) (exitCode now : Z)
  : Manager * list Call :=
  match sessions m !! sessionId with
  | None => (m, [])
  | Some record =>
      let r := setStatus record exited now in
      let told := map Fx (broadcast r (MsgExit exitCode)) in
      let '(m', closed) := cleanup (put m sessionId r) sessionId in
      (m', (told ++ closed)%list)
  end.

(** The deferred step of [createSession] that marks the session
    running. *)
Definition markRunning (m : Manager) (sessionId : string) (now : Z)
  : Manager * list Call :=
  match sessions m !! sessionId with
  | None => (m, [])
  | Some record =>
      let r := setStatus record running now in
      (put m sessionId r, map Fx (broadcast r (MsgStatus running)))
  end.

(** What follows the kill that [close] sends: either the pty exits
    within [PTY_KILL_TIMEOUT] with some code, the exit handler of the
    session runs and the cleanup of [close] then finds nothing, or the
    timeout fires and the cleanup is forced. *)
Definition closeSettle (m : Manager) (sessionId : string) (exit : option Z)
    (now : Z) : Manager * list Call :=
  match exit with
  | Some code =>
      let '(m1, fx1) := onExit m sessionId code now in
      let '(m2, fx2) := cleanup m1 sessionId in
      (m2, (fx1 ++ fx2)%list)
  | None => cleanup m sessionId
  end.

(** [close], awaited: [exit] tells what the pty does after the kill. *)
Definition close (m : Manager) (sessionId : string) (exit : option Z) (now : Z)
  : Manager * list Call :=
  match sessions m !! sessionId with
  | None => (m, [])
  | Some session =>
      let '(m', fx) := closeSettle m sessionId exit now in
      (m', PtyKill (pty session) :: fx)
  end.

(** The test of the idle sweep. *)
Definition idle (now : Z) (session : CliSessionRecord) : bool :=
  match status session with
  | running =>
      (length (sockets session) =? 0)%nat
      && (SESSION_IDLE_TIMEOUT <? now - lastActivity session)
  | _ => false
  end.

(** Several [close] calls started in one loop and not awaited: every
    kill is sent while the loop runs, and the closes settle
    afterwards. *)
Definition closeAll (m : Manager) (ids : list string)
    (exits : string -> option Z) (now : Z) : Manager * list Call :=
  let kills :=
    flat_map (fun sid => match sessions m !! sid with
                         | Some session => [PtyKill (pty session)]
                         | None => []
                         end) ids in
  let '(m', fx) :=
    foldl (fun '(acc, fx) sid =>
             let '(a, f) := closeSettle acc sid (exits sid) now in
             (a, (fx ++ f)%list))
      (m, []) ids in
  (m', (kills ++ fx)%list).

(** [cleanupIdleSessions]: the sessions that are running, have no
    socket and have been idle for more than [SESSION_IDLE_TIMEOUT] are
    closed. *)
Definition cleanupIdleSessions (m : Manager) (now : Z)
    (exits : string -> option Z) : Manager * list Call :=
  closeAll m
    (map fst (filter (fun kv => idle now kv.2 = true) (map_to_list (sessions m))))
    exits now.

(** [shutdown]: every session is closed. *)
Definition shutdown (m : Manager) (exits : string -> option Z) (now : Z)
  : Manager * list Call :=
  closeAll m (map fst (map_to_list (sessions m))) exits now.

(** One probe of [detectToolAvailability]: [probe command] is the
    standard output of [command --version], [None] when the call
    fails. *)
Definition probeTool (probe : string -> option string) (tc : CliToolConfig)
  : CliToolConfig :=
  match probe (command tc) with
  | Some stdout =>
      {| tool_id := tool_id tc; tool_name := tool_name tc;
         command := command tc; args := args tc;
         description := description tc; tool_env := tool_env tc;
         available := Some true;
         version := head (splitOn newline (trim stdout)) |}
  | None =>
      {| tool_id := tool_id tc; tool_name := tool_name tc;
         command := command tc; args := args tc;
         description := description tc; tool_env := tool_env tc;
         available := Some false;
         version := version tc |}
  end.

Definition detectToolAvailability (probe : string -> option string)
    (m : Manager) : Manager :=
  {| sessions := sessions m; tools := probeTool probe <$> tools m |}.

End CliOps.

(** ** project-manager: the project registry *)

Module Registry.
Import Str Os.
Local Open Scope string_scope.
Local Open Scope Z_scope.

Record WorktreeMetadata : Type := {
  wt_id : string;
  wt_path : string;
  wt_title : string
}.

(** The [codex] settings; a field read from the configuration file may
    be missing. *)
Record ProjectSettings : Type := {
  autoPrompt : option bool;
  promptCharLimit : option Z
}.

Inductive ProjectStatus : Type := stopped | running.

(** A missing [worktrees] array is read as the empty one everywhere, so
    the field is a list. *)
Record ProjectInfo : Type := {
  id : string;
  name : string;
  path : string;
  status : ProjectStatus;
  lastAccessed : Z;
  gitRoot : option string;
  commitHash : option string;
  port : option Z;
  worktrees : list WorktreeMetadata;
  settings : option ProjectSettings
}.

(** The registry: the project table, the [loaded] and [dirty] flags and
    the contents of the configuration file ([None] before it exists). *)
Record ProjectManager : Type := {
  projects : gmap string ProjectInfo;
  loaded : bool;
  dirty : bool;
  configFile : option (list ProjectInfo)
}.

Inductive Error : Type :=
| PathNotAbsolute (received : string)
| PathNotDirectory (path : string)
| PathUnverifiable (path : string)
| ProjectNotFound (projectId : string)
| WorktreeNotFound (worktreeId projectId : string)
| CannotRemoveDefault.

(** The double quote character, as a string. *)
Definition quote : string := String (ascii_of_nat 34) EmptyString.

(** The text of the thrown [Error], where the source fixes it. *)
Definition message (e : Error) : string :=
  match e with
  | PathNotAbsolute p =>
      "Project path must be absolute: received " +:+ quote +:+ p +:+ quote
  | PathNotDirectory p => "Project path is not a directory: " +:+ p
  | PathUnverifiable p => "Project path does not exist: " +:+ p
  | ProjectNotFound p => "Project " +:+ p +:+ " not found"
  | WorktreeNotFound w p =>
      "Worktree " +:+ w +:+ " not found for project " +:+ p
  | CannotRemoveDefault => "Cannot remove default worktree"
  end.

Definition withPath (i : ProjectInfo) (p : string) : ProjectInfo :=
  {| id := id i; name := name i; path := p; status := status i;
     lastAccessed := lastAccessed i; gitRoot := gitRoot i;
     commitHash := commitHash i; port := port i; worktrees := worktrees i;
     settings := settings i |}.

Definition withName (i : ProjectInfo) (n : string) : ProjectInfo :=
  {| id := id i; name := n; path := path i; status := status i;
     lastAccessed := lastAccessed i; gitRoot := gitRoot i;
     commitHash := commitHash i; port := port i; worktrees := worktrees i;
     settings := settings i |}.

Definition withStatus (i : ProjectInfo) (s : ProjectStatus) : ProjectInfo :=
  {| id := id i; name := name i; path := path i; status := s;
     lastAccessed := lastAccessed i; gitRoot := gitRoot i;
     commitHash := commitHash i; port := port i; worktrees := worktrees i;
     settings := settings i |}.

Definition withLastAccessed (i : ProjectInfo) (t : Z) : ProjectInfo :=
  {| id := id i; name := name i; path := path i; status := status i;
     lastAccessed := t; gitRoot := gitRoot i;
     commitHash := commitHash i; port := port i; worktrees := worktrees i;
     settings := settings i |}.

Definition withWorktrees (i : ProjectInfo) (w : list WorktreeMetadata)
  : ProjectInfo :=
  {| id := id i; name := name i; path := path i; status := status i;
     lastAccessed := lastAccessed i; gitRoot := gitRoot i;
     commitHash := commitHash i; port := port i; worktrees := w;
     settings := settings i |}.

Definition withSettings (i : ProjectInfo) (s : option ProjectSettings)
  : ProjectInfo :=
  {| id := id i; name := name i; path := path i; status := status i;
     lastAccessed := lastAccessed i; gitRoot := gitRoot i;
     commitHash := commitHash i; port := port i; worktrees := worktrees i;
     settings := s |}.

Definition withProjects (pm : ProjectManager) (t : gmap string ProjectInfo)
  : ProjectManager :=
  {| projects := t; loaded := loaded pm; dirty := dirty pm;
     configFile := configFile pm |}.

Definition markDirty (pm : ProjectManager) : ProjectManager :=
  {| projects := projects pm; loaded := loaded pm; dirty := true;
     configFile := configFile pm |}.

Definition markDirtyIf (b : bool) (pm : ProjectManager) : ProjectManager :=
  if b then markDirty pm else pm.

(** Store [info] as the record of [projectId]: the source mutates the
    record held by the table in place. *)
Definition store (pm : ProjectManager) (projectId : string) (info : ProjectInfo)
  : ProjectManager :=
  withProjects pm (<[projectId := info]> (projects pm)).

Definition normalizePath (env : Env) (value : string) : string :=
  str (stripTrailingSlashes (slashify (chars (path_resolve env value)))).

Definition canonicalizePath (env : Env) (value : string) : string :=
  let normalized := normalizePath env value in
  match fs_realpath env normalized with
  | Some real => normalizePath env real
  | None => normalized
  end.

Definition slugify (value : string) : string :=
  orElse
    (substringTo 64
       (str (stripDashes (dashRuns false (chars (toLowerCase value))))))
    "worktree".

Definition DEFAULT_PROMPT_LIMIT : Z := 8000.
Definition MIN_PROMPT_LIMIT : Z := 1000.
Definition MAX_PROMPT_LIMIT : Z := 20000.

Definition applyDefaultSettings (s : option ProjectSettings) : ProjectSettings :=
  let currentLimit := default DEFAULT_PROMPT_LIMIT (s ≫= promptCharLimit) in
  let normalizedLimit :=
    Z.min MAX_PROMPT_LIMIT (Z.max MIN_PROMPT_LIMIT currentLimit) in
  {| autoPrompt := Some (default true (s ≫= autoPrompt));
     promptCharLimit := Some normalizedLimit |}.

Definition isDefault (w : WorktreeMetadata) : bool :=
  String.eqb (wt_id w) "default".

Definition defaultEntry (p : string) : WorktreeMetadata :=
  {| wt_id := "default"; wt_path := p; wt_title := "default" |}.

(** Apply [f] to the first element that satisfies [p]: what
    [const x = xs.find(p); if (x) { mutate x }] does to the array. *)
Fixpoint updateFirst {A} (p : A -> bool) (f : A -> A) (l : list A) : list A :=
  match l with
  | [] => []
  | x :: r => if p x then f x :: r else x :: updateFirst p f r
  end.

(** The first half of [ensureDefaultWorktree]: reset the existing
    default entry or push one. *)
Definition seedDefault (projectPath : string) (wts : list WorktreeMetadata)
  : list WorktreeMetadata :=
  if existsb isDefault wts
  then updateFirst isDefault
         (fun w => {| wt_id := wt_id w; wt_path := projectPath;
                      wt_title := "default" |}) wts
  else (wts ++ [defaultEntry projectPath])%list.

(** The second half: the [map] over all entries. *)
Definition normalizeEntry (env : Env) (projectPath : string)
    (w : WorktreeMetadata) : WorktreeMetadata :=
  {| wt_id := wt_id w;
     wt_path := canonicalizePath env (orElse (wt_path w) projectPath);
     wt_title := if isDefault w then "default"
                 else orElse (wt_title w) (wt_id w) |}.

Definition ensureDefaultWorktree (env : Env) (info : ProjectInfo) : ProjectInfo :=
  let normalizedProjectPath := canonicalizePath env (path info) in
  {| id := id info; name := name info; path := normalizedProjectPath;
     status := status info; lastAccessed := lastAccessed info;
     gitRoot := gitRoot info; commitHash := commitHash info;
     port := port info;
     worktrees :=
       map (normalizeEntry env normalizedProjectPath)
         (seedDefault normalizedProjectPath (worktrees info));
     settings := Some (applyDefaultSettings (settings info)) |}.

Definition candidateId (base : string) (counter : nat) : string :=
  base +:+ "-" +:+ pretty counter.

Definition taken (reserved : list string) (candidate : string) : bool :=
  bool_decide (candidate ∈ reserved) || String.eqb candidate "default".

(** The [while] loop of [generateWorktreeId], run for at most [fuel]
    rounds. *)
Fixpoint nextFree (fuel : nat) (reserved : list string) (base : string)
    (counter : nat) : option string :=
  match fuel with
  | O => None
  | S fuel' =>
      if taken reserved (candidateId base counter)
      then nextFree fuel' reserved base (S counter)
      else Some (candidateId base counter)
  end.

(** [generateWorktreeId]; the fuel given to the loop always suffices
    (lemma [generateWorktreeId_total]). *)
Definition generateWorktreeId (info : ProjectInfo) (title : string)
  : option string :=
  let base := slugify title in
  let reserved := map wt_id (worktrees info) in
  if negb (bool_decide (base ∈ reserved)) && negb (String.eqb base "default")
  then Some base
  else nextFree (2 + length reserved) reserved base 2.

Definition saveProjects (pm : ProjectManager) : ProjectManager :=
  if negb (loaded pm) then pm
  else if negb (dirty pm) then pm
  else
    let data :=
      map (fun kv =>
             withSettings (withStatus kv.2 stopped)
               (Some (applyDefaultSettings (settings kv.2))))
        (map_to_list (projects pm)) in
    {| projects := projects pm; loaded := loaded pm; dirty := false;
       configFile := Some data |}.

(** The two halves of [saveProjects] around its [await]. Before it
    suspends the call either returns at a guard ([None]) or starts the
    write of the records it has just collected; when the write has been
    done the file holds them and the flag is cleared, whatever the
    table is by then. *)
Definition saveStarted (pm : ProjectManager) : option (list ProjectInfo) :=
  if negb (loaded pm) then None
  else if negb (dirty pm) then None
  else
    Some (map (fun kv =>
                 withSettings (withStatus kv.2 stopped)
                   (Some (applyDefaultSettings (settings kv.2))))
            (map_to_list (projects pm))).

Definition saveFinished (pm : ProjectManager) (data : list ProjectInfo)
  : ProjectManager :=
  {| projects := projects pm; loaded := loaded pm; dirty := false;
     configFile := Some data |}.

Definition getGitProjectId (env : Env) (projectPath : string) : string :=
  let resolvedPath :=
    if startsWith projectPath "/" then projectPath
    else process_cwd env +:+ "/" +:+ projectPath in
  substringTo 16 (sha256_hex env resolvedPath).

(** The last piece of [s.split("/")]. *)
Definition lastSegment (s : string) : string :=
  default "" (last (splitOn slash s)).

(** [addProject]; [now] is [Date.now()]. *)
Definition addProject (env : Env) (pm : ProjectManager) (projectPath : string)
    (name_ : option string) (now : Z)
  : result Error ProjectInfo * ProjectManager :=
  if negb (isAbsolute projectPath) then (Throw (PathNotAbsolute projectPath), pm)
  else
    let normalizedPath := normalizePath env projectPath in
    match fs_stat env normalizedPath with
    | None => (Throw (PathUnverifiable normalizedPath), pm)
    | Some false => (Throw (PathNotDirectory normalizedPath), pm)
    | Some true =>
        let canonicalPath :=
          match fs_realpath env normalizedPath with
          | Some real => normalizePath env real
          | None => normalizedPath
          end in
        let projectId := getGitProjectId env canonicalPath in
        match projects pm !! projectId with
        | Some existing =>
            let incomingName := trim (default "" name_) in
            let pathChanged := negb (String.eqb (path existing) canonicalPath) in
            let e1 := if pathChanged then withPath existing canonicalPath
                      else existing in
            let nameChanged :=
              truthy incomingName && negb (String.eqb (name e1) incomingName) in
            let e2 := if nameChanged then withName e1 incomingName else e1 in
            let updated := pathChanged || nameChanged in
            let e3 := if updated then ensureDefaultWorktree env e2 else e2 in
            let e4 := withLastAccessed e3 now in
            (Ok e4, saveProjects (markDirtyIf updated (store pm projectId e4)))
        | None =>
            let fallbackName := orElse (lastSegment canonicalPath) "Unknown Project" in
            let projectInfo :=
              {| id := projectId;
                 name := orElse (default "" name_) fallbackName;
                 path := canonicalPath;
                 status := running;
                 lastAccessed := now;
                 gitRoot := None;
                 commitHash := None;
                 port := None;
                 worktrees := [defaultEntry canonicalPath];
                 settings := Some (applyDefaultSettings None) |} in
            let projectInfo' := ensureDefaultWorktree env projectInfo in
            (Ok projectInfo',
             saveProjects (markDirty (store pm projectId projectInfo')))
        end
    end.

Definition loadOne (env : Env) (table : gmap string ProjectInfo)
    (projectInfo : ProjectInfo) : gmap string ProjectInfo :=
  match fs_stat env (path projectInfo) with
  | Some true =>
      <[id projectInfo := ensureDefaultWorktree env (withStatus projectInfo running)]>
        table
  | _ => table
  end.

(** [loadProjects]: read the configuration file, keep the projects
    whose directory still exists, and seed a project for the working
    directory when none is left. *)
Definition loadProjects (env : Env) (pm : ProjectManager) (now : Z)
  : ProjectManager :=
  let table :=
    match configFile pm with
    | Some data => foldl (loadOne env) (projects pm) data
    | None => projects pm
    end in
  let pm1 :=
    {| projects := table; loaded := true; dirty := dirty pm;
       configFile := configFile pm |} in
  if (size table =? 0)%nat then
    let cwd := process_cwd env in
    (addProject env pm1 cwd (Some (orElse (lastSegment cwd) "Project")) now).2
  else pm1.

Definition getProjectSettings (pm : ProjectManager) (projectId : string)
  : option ProjectSettings * ProjectManager :=
  match projects pm !! projectId with
  | None => (None, pm)
  | Some info =>
      let s := applyDefaultSettings (settings info) in
      (Some s, store pm projectId (withSettings info (Some s)))
  end.

(** [updateProjectSettings]: a field of [partial] that is present
    replaces the current one. The save it starts ([void
    this.saveProjects()]) is not awaited: the call returns with the
    dirty flag set and the file as it was. What that save is about to
    write is [saveStarted] of the registry returned, and
    [saveFinished] is the registry once the write has been done. *)
Definition updateProjectSettings (pm : ProjectManager) (projectId : string)
    (partial : ProjectSettings) : option ProjectSettings * ProjectManager :=
  match projects pm !! projectId with
  | None => (None, pm)
  | Some info =>
      let current := applyDefaultSettings (settings info) in
      let merged :=
        {| autoPrompt := match autoPrompt partial with
                         | Some b => Some b
                         | None => autoPrompt current
                         end;
           promptCharLimit := match promptCharLimit partial with
                              | Some n => Some n
                              | None => promptCharLimit current
                              end |} in
      let s := applyDefaultSettings (Some merged) in
      (Some s, markDirty (store pm projectId (withSettings info (Some s))))
  end.

Definition removeProject (pm : ProjectManager) (projectId : string)
  : bool * ProjectManager :=
  match projects pm !! projectId with
  | None => (false, pm)
  | Some _ =>
      (true, saveProjects (markDirty (withProjects pm (delete projectId (projects pm)))))
  end.

Definition getProjectPath (pm : ProjectManager) (projectId : string)
  : option string := path <$> projects pm !! projectId.

Definition getProject (pm : ProjectManager) (projectId : string)
  : option ProjectInfo := projects pm !! projectId.

Definition getWorktrees (env : Env) (pm : ProjectManager) (projectId : string)
  : list WorktreeMetadata * ProjectManager :=
  match projects pm !! projectId with
  | None => ([], pm)
  | Some info0 =>
      let info := ensureDefaultWorktree env info0 in
      (worktrees info, store pm projectId info)
  end.

Definition findWorktreeById (env : Env) (pm : ProjectManager)
    (projectId worktreeId : string) : option WorktreeMetadata * ProjectManager :=
  match projects pm !! projectId with
  | None => (None, pm)
  | Some info0 =>
      let info := ensureDefaultWorktree env info0 in
      (find (fun w => String.eqb (wt_id w) worktreeId) (worktrees info),
       store pm projectId info)
  end.

(** The test [/[\/_]/] of the title policy. *)
Definition hasSeparator (s : string) : bool :=
  contains slash s || contains underscore s.

Definition incomingLooksSluggy (normalizedIncoming : string) : bool :=
  negb (truthy normalizedIncoming)
  || String.eqb normalizedIncoming (slugify normalizedIncoming)
  || hasSeparator normalizedIncoming.

Definition currentLooksSluggy (existing : WorktreeMetadata) (current : string)
  : bool :=
  let currentSlug := if truthy current then slugify current else "" in
  negb (truthy current)
  || String.eqb current (wt_id existing)
  || String.eqb current (wt_path existing)
  || String.eqb current (basename (wt_path existing))
  || String.eqb current currentSlug
  || hasSeparator current.

(** The title branch of [ensureWorktreeMetadata] for a found entry
    [existing] (its path already corrected): the entry afterwards and
    whether it was changed. *)
Definition retitle (existing : WorktreeMetadata) (title : option string)
  : WorktreeMetadata * bool :=
  match title with
  | None => (existing, false)
  | Some t =>
      if truthy t && negb (String.eqb (wt_title existing) t) then
        let normalizedIncoming := trim t in
        let current := trim (wt_title existing) in
        let shouldOverwrite :=
          negb (truthy current)
          || (currentLooksSluggy existing current
              && negb (incomingLooksSluggy normalizedIncoming)) in
        if shouldOverwrite
        then ({| wt_id := wt_id existing; wt_path := wt_path existing;
                 wt_title := normalizedIncoming |}, true)
        else (existing, false)
      else (existing, false)
  end.

Definition ensureWorktreeMetadata (env : Env) (pm : ProjectManager)
    (projectId worktreePath : string) (title : option string)
  : option WorktreeMetadata * ProjectManager :=
  match projects pm !! projectId with
  | None => (None, pm)
  | Some info0 =>
      let info := ensureDefaultWorktree env info0 in
      let normalizedPath := canonicalizePath env worktreePath in
      match list_find
              (fun w => canonicalizePath env (wt_path w) = normalizedPath)
              (worktrees info) with
      | Some (i, existing) =>
          let moved := negb (String.eqb (wt_path existing) normalizedPath) in
          let e1 := if moved
                    then {| wt_id := wt_id existing; wt_path := normalizedPath;
                            wt_title := wt_title existing |}
                    else existing in
          let '(e2, renamed) := retitle e1 title in
          (Some e2,
           markDirtyIf (moved || renamed)
             (store pm projectId
                (withWorktrees info (<[i := e2]> (worktrees info)))))
      | None =>
          let worktreeTitle :=
            orElse (orElse (default "" title) (basename normalizedPath))
              "worktree" in
          match generateWorktreeId info worktreeTitle with
          | None => (None, store pm projectId info)
          | Some newId =>
              let metadata :=
                {| wt_id := newId; wt_path := normalizedPath;
                   wt_title := worktreeTitle |} in
              (Some metadata,
               markDirty
                 (store pm projectId
                    (withWorktrees info (worktrees info ++ [metadata])%list)))
          end
      end
  end.

Definition updateWorktreeTitle (env : Env) (pm : ProjectManager)
    (projectId worktreeId title : string)
  : result Error WorktreeMetadata * ProjectManager :=
  match projects pm !! projectId with
  | None => (Throw (ProjectNotFound projectId), pm)
  | Some info0 =>
      let info := ensureDefaultWorktree env info0 in
      match list_find (fun w => wt_id w = worktreeId) (worktrees info) with
      | None =>
          (Throw (WorktreeNotFound worktreeId projectId), store pm projectId info)
      | Some (i, metadata) =>
          let metadata' :=
            {| wt_id := wt_id metadata; wt_path := wt_path metadata;
               wt_title := title |} in
          (Ok metadata',
           markDirty
             (store pm projectId
                (withWorktrees info (<[i := metadata']> (worktrees info)))))
      end
  end.

Definition removeWorktreeMetadata (env : Env) (pm : ProjectManager)
    (projectId worktreeId : string) : result Error unit * ProjectManager :=
  match projects pm !! projectId with
  | None => (Throw (ProjectNotFound projectId), pm)
  | Some info0 =>
      let info := ensureDefaultWorktree env info0 in
      if String.eqb worktreeId "default"
      then (Throw CannotRemoveDefault, store pm projectId info)
      else
        let before := length (worktrees info) in
        let kept :=
          filter (fun w => wt_id w <> worktreeId) (worktrees info) in
        (Ok tt,
         markDirtyIf (negb (length kept =? before)%nat)
           (store pm projectId (withWorktrees info kept)))
  end.

Definition shutdown (pm : ProjectManager) : ProjectManager := saveProjects pm.

End Registry.

(** ** integrated-project-routes: the worktree reconciler *)

Module Routes.
Import Str Os Registry.
Local Open Scope string_scope.
Local Open Scope Z_scope.

Record ParsedWorktree : Type := {
  pw_path : string;
  pw_branch : option string;
  pw_head : option string;
  isPrimary : bool;
  isDetached : bool;
  isLocked : bool;
  lockReason : option string;
  relativePath : string
}.

(** The block of porcelain lines being read; an empty [b_path] stands
    for a block that has no path yet (both are falsy). *)
Record Block : Type := {
  b_path : string;
  b_branch : option string;
  b_head : option string;
  b_detached : bool;
  b_locked : bool;
  b_lockReason : option string;
  b_prunable : bool
}.

Definition emptyBlock (p : string) : Block :=
  {| b_path := p; b_branch := None; b_head := None; b_detached := false;
     b_locked := false; b_lockReason := None; b_prunable := false |}.

(** [s.replace(/^refs\/heads\//, "")]. *)
Definition stripHeads (s : string) : string :=
  if startsWith s "refs/heads/" then substringFrom 11 s else s.

(** Keep a finished block unless it has no path or is prunable. *)
Definition flush (result : list Block) (current : Block) : list Block :=
  if truthy (b_path current) && negb (b_prunable current)
  then (result ++ [current])%list else result.

(** One round of the loop over the lines of the porcelain output. *)
Definition parseLine (env : Env) (st : list Block * Block) (rawLine : string)
  : list Block * Block :=
  let '(result, current) := st in
  let line := trim rawLine in
  if negb (truthy line) then st
  else if startsWith line "worktree " then
    (flush result current,
     emptyBlock (normalizePath env (trim (substringFrom 9 line))))
  else if negb (truthy (b_path current)) then st
  else if startsWith line "branch " then
    (result,
     {| b_path := b_path current;
        b_branch := Some (stripHeads (substringFrom 7 line));
        b_head := b_head current; b_detached := b_detached current;
        b_locked := b_locked current; b_lockReason := b_lockReason current;
        b_prunable := b_prunable current |})
  else if startsWith line "HEAD " then
    (result,
     {| b_path := b_path current; b_branch := b_branch current;
        b_head := Some (substringFrom 5 line);
        b_detached := b_detached current;
        b_locked := b_locked current; b_lockReason := b_lockReason current;
        b_prunable := b_prunable current |})
  else if String.eqb line "detached" then
    (result,
     {| b_path := b_path current; b_branch := b_branch current;
        b_head := b_head current; b_detached := true;
        b_locked := b_locked current; b_lockReason := b_lockReason current;
        b_prunable := b_prunable current |})
  else if startsWith line "locked" then
    let reason := trim (substringFrom 6 line) in
    (result,
     {| b_path := b_path current; b_branch := b_branch current;
        b_head := b_head current; b_detached := b_detached current;
        b_locked := true;
        b_lockReason := if truthy reason then Some reason
                        else b_lockReason current;
        b_prunable := b_prunable current |})
  else if startsWith line "prunable" then
    (result,
     {| b_path := b_path current; b_branch := b_branch current;
        b_head := b_head current; b_detached := b_detached current;
        b_locked := b_locked current; b_lockReason := b_lockReason current;
        b_prunable := true |})
  else st.

Definition parseWorktreeOutput (env : Env) (output projectPath : string)
  : list ParsedWorktree :=
  if negb (truthy (trim output)) then []
  else
    let normalizedProject := normalizePath env projectPath in
    let '(result, current) :=
      foldl (parseLine env) ([], emptyBlock "") (splitLines output) in
    map (fun item =>
           {| pw_path := b_path item;
              pw_branch := b_branch item;
              pw_head := b_head item;
              isPrimary := String.eqb (b_path item) normalizedProject;
              isDetached := b_detached item;
              isLocked := b_locked item;
              lockReason := b_lockReason item;
              relativePath :=
                if String.eqb (normalizePath env (b_path item)) normalizedProject
                then ""
                else path_relative env normalizedProject (b_path item) |})
      (flush result current).

Record WorktreeResponse : Type := {
  r_id : string;
  r_title : string;
  r_path : string;
  r_relativePath : string;
  r_branch : option string;
  r_head : option string;
  r_isPrimary : bool;
  r_isDetached : bool;
  r_isLocked : bool;
  r_lockReason : option string
}.

(** An element of [metadataCandidates]. *)
Record Candidate : Type := {
  meta : WorktreeMetadata;
  normalizedPath : string;
  realPath : option string
}.

Definition realOf (env : Env) (p : string) : option string :=
  normalizePath env <$> fs_realpath env p.

Definition candidateOf (env : Env) (m : WorktreeMetadata) : Candidate :=
  {| meta := m; normalizedPath := normalizePath env (wt_path m);
     realPath := realOf env (wt_path m) |}.

(** [findMetadataForEntry]: the candidate found, with its index. *)
Definition findMetadataForEntry (env : Env) (candidates : list Candidate)
    (entryPath : string) : option (nat * Candidate) :=
  let normalizedEntry := normalizePath env entryPath in
  match list_find (fun item => normalizedPath item = normalizedEntry)
          candidates with
  | Some found => Some found
  | None =>
      let byReal :=
        match realOf env entryPath with
        | Some entryReal =>
            if truthy entryReal
            then list_find
                   (fun item => normalizedPath item = entryReal \/
                                realPath item = Some entryReal) candidates
            else None
        | None => None
        end in
      match byReal with
      | Some found => Some found
      | None =>
          list_find
            (fun item => realPath item = Some normalizedEntry /\
                         normalizedEntry <> "") candidates
      end
  end.

(** [registerMetadata]: a metadata object that is already a candidate
    ([at_] is its index) is refreshed in place, another one is pushed. *)
Definition registerMetadata (env : Env) (candidates : list Candidate)
    (at_ : option nat) (metadata : WorktreeMetadata) : list Candidate :=
  match at_ with
  | Some i => <[i := candidateOf env metadata]> candidates
  | None => (candidates ++ [candidateOf env metadata])%list
  end.

Inductive Error : Type :=
| ProjectMissing (projectId : string)
| GitFailed
| MetadataUnresolved (path : string)
| RegistryError (e : Registry.Error).

Definition message (e : Error) : string :=
  match e with
  | ProjectMissing p => "Project " +:+ p +:+ " not found"
  | GitFailed => "Command failed: git"
  | MetadataUnresolved p => "Unable to resolve metadata for worktree " +:+ p
  | RegistryError e => Registry.message e
  end.

(** The state of the loop over the live entries. *)
Record Loop : Type := {
  l_pm : ProjectManager;
  l_candidates : list Candidate;
  l_responses : list WorktreeResponse;
  l_failed : option Error
}.

Definition effectiveIsPrimary (env : Env) (projectPath : string)
    (entry : ParsedWorktree) : bool :=
  match realOf env (pw_path entry) with
  | Some realEntry =>
      let realProject :=
        default (normalizePath env projectPath) (realOf env projectPath) in
      if String.eqb realEntry realProject then true else isPrimary entry
  | None => isPrimary entry
  end.

Definition respond (env : Env) (projectPath : string) (entry : ParsedWorktree)
    (metadata : WorktreeMetadata) : WorktreeResponse :=
  {| r_id := wt_id metadata; r_title := wt_title metadata;
     r_path := wt_path metadata; r_relativePath := relativePath entry;
     r_branch := pw_branch entry; r_head := pw_head entry;
     r_isPrimary := effectiveIsPrimary env projectPath entry;
     r_isDetached := isDetached entry; r_isLocked := isLocked entry;
     r_lockReason := lockReason entry |}.

(** One round of [for (const entry of parsed)]. *)
Definition reconcileEntry (env : Env) (projectId : string) (st : Loop)
    (entry : ParsedWorktree) : Loop :=
  match l_failed st with
  | Some _ => st
  | None =>
      let projectPath :=
        default "" (path <$> projects (l_pm st) !! projectId) in
      match findMetadataForEntry env (l_candidates st) (pw_path entry) with
      | Some (i, found) =>
          let metadata := meta found in
          {| l_pm := l_pm st;
             l_candidates :=
               registerMetadata env (l_candidates st) (Some i) metadata;
             l_responses :=
               (l_responses st ++ [respond env projectPath entry metadata])%list;
             l_failed := None |}
      | None =>
          let suggested :=
            orElse (orElse (default "" (pw_branch entry)) (relativePath entry))
              (pw_path entry) in
          match ensureWorktreeMetadata env (l_pm st) projectId (pw_path entry)
                  (Some suggested) with
          | (None, pm') =>
              {| l_pm := pm'; l_candidates := l_candidates st;
                 l_responses := l_responses st;
                 l_failed := Some (MetadataUnresolved (pw_path entry)) |}
          | (Some metadata, pm') =>
              let pushed := registerMetadata env (l_candidates st) None metadata in
              let projectPath' :=
                default "" (path <$> projects pm' !! projectId) in
              {| l_pm := pm';
                 l_candidates :=
                   registerMetadata env pushed
                     (Some (length (l_candidates st))) metadata;
                 l_responses :=
                   (l_responses st
                    ++ [respond env projectPath' entry metadata])%list;
                 l_failed := None |}
          end
      end
  end.

(** One round of the orphan clean-up; a failing removal is logged and
    skipped. *)
Definition cleanupOne (env : Env) (projectId : string)
    (presentPaths : list string) (pm : ProjectManager) (m : WorktreeMetadata)
  : ProjectManager :=
  if String.eqb (wt_id m) "default" then pm
  else if bool_decide (normalizePath env (wt_path m) ∈ presentPaths) then pm
  else (removeWorktreeMetadata env pm projectId (wt_id m)).2.

(** The porcelain listing that is parsed: when the first listing
    mentions a prunable entry, git is asked to prune and to list again,
    and a failure of either keeps the first listing. *)
Definition listing (env : Env) (cwd : string) : option string :=
  match git_worktree_list env cwd with
  | None => None
  | Some stdout =>
      if testWord "prunable" stdout then
        if git_worktree_prune env cwd then
          match git_worktree_relist env cwd with
          | Some again => Some again
          | None => Some stdout
          end
        else Some stdout
      else Some stdout
  end.

(** The live entries of a run: parsed, and present on disk as
    directories. *)
Definition liveEntries (env : Env) (stdout projectPath : string)
  : list ParsedWorktree :=
  filter (fun entry => fs_stat env (pw_path entry) = Some true)
    (parseWorktreeOutput env stdout projectPath).

(** [buildWorktreeResponses], run from its first statement to its
    last with no other registry operation in between (the function
    suspends at its git and file-system calls) and with a save that
    does not throw. A round of its loop is [reconcileEntry], which
    takes the registry as it is when the round runs. *)
Definition buildWorktreeResponses (env : Env) (pm : ProjectManager)
    (projectId : string)
  : result Error (list WorktreeResponse) * ProjectManager :=
  match getProject pm projectId with
  | None => (Throw (ProjectMissing projectId), pm)
  | Some project =>
      match listing env (path project) with
      | None => (Throw GitFailed, pm)
      | Some stdout =>
          let parsed := liveEntries env stdout (path project) in
          let '(metadataList, pm1) := getWorktrees env pm projectId in
          let metadataCandidates := map (candidateOf env) metadataList in
          let after :=
            foldl (reconcileEntry env projectId)
              {| l_pm := pm1; l_candidates := metadataCandidates;
                 l_responses := []; l_failed := None |} parsed in
          match l_failed after with
          | Some e => (Throw e, l_pm after)
          | None =>
              let presentPaths := map pw_path parsed in
              let pm2 :=
                foldl (cleanupOne env projectId presentPaths) (l_pm after)
                  metadataList in
              (Ok (l_responses after), saveProjects pm2)
          end
      end
  end.

Inductive HttpResponse : Type :=
| Json (status : Z) (success : bool)
| JsonError (status : Z) (error : string).

(** [DELETE /api/projects/:id/worktrees/:worktreeId]; [env'] is the host
    as it is once [git worktree remove] has succeeded. *)
Definition deleteWorktree (env env' : Env) (pm : ProjectManager)
    (projectId worktreeId : string) (force : option bool)
  : HttpResponse * ProjectManager :=
  match getProject pm projectId with
  | None => (JsonError 404 "Project not found", pm)
  | Some _ =>
      match findWorktreeById env pm projectId worktreeId with
      | (None, pm1) => (JsonError 404 "Worktree not found", pm1)
      | (Some metadata, pm1) =>
          if String.eqb (wt_id metadata) "default"
          then (JsonError 400 "Cannot remove default worktree", pm1)
          else
            let args :=
              (["worktree"; "remove"]
               ++ (if default false force then ["--force"] else [])
               ++ [wt_path metadata])%list in
            let cwd := default "" (getProjectPath pm1 projectId) in
            if negb (git_worktree_remove env cwd args)
            then (JsonError 400 (message GitFailed), pm1)
            else
              match removeWorktreeMetadata env' pm1 projectId (wt_id metadata) with
              | (Throw e, pm2) => (JsonError 400 (Registry.message e), pm2)
              | (Ok _, pm2) =>
                  match buildWorktreeResponses env' (saveProjects pm2) projectId with
                  | (Throw e, pm3) => (JsonError 400 (message e), pm3)
                  | (Ok _, pm3) => (Json 200 true, pm3)
                  end
              end
      end
  end.

End Routes.
(** ** integrated-project-routes: the reader of [git status] *)

Module GitStatus.
Import Str.
Local Open Scope string_scope.
Local Open Scope Z_scope.

Record GitFileInfo : Type := {
  f_path : string;
  f_status : string;
  f_staged : bool
}.

(** What [parseGitStatusOutput] returns. *)
Record Parsed : Type := {
  branch : string;
  ahead : Z;
  behind : Z;
  staged : list GitFileInfo;
  modified : list GitFileInfo;
  untracked : list GitFileInfo;
  changedFiles : Z
}.

Definition space : ascii := ascii_of_nat 32.
Definition question : ascii := ascii_of_nat 63.

(** The class [\d]. *)
Definition isDigit (c : ascii) : bool :=
  let n := code c in ((48 <=? n) && (n <=? 57))%nat.

(** What follows [w] when [l] begins with it. *)
Fixpoint after (w : list ascii) (l : list ascii) : option (list ascii) :=
  match w, l with
  | [], rest => Some rest
  | x :: w', c :: l' => if Ascii.eqb c x then after w' l' else None
  | _ :: _, [] => None
  end.

(** [s.match(/WORD(\d+)/)]: the digits captured by the leftmost match, [w]
    being the literal text in front of the group. *)
Fixpoint matchCount (w : list ascii) (l : list ascii) : option (list ascii) :=
  match l with
  | [] => None
  | _ :: r =>
      match after w l with
      | Some rest =>
          match takeWhile isDigit rest with
          | [] => matchCount w r
          | ds => Some ds
          end
      | None => matchCount w r
      end
  end.

(** [Number.parseInt(ds, 10)] of a run of digits, as an integer (the
    source's number is a double, which is that integer below 2^53). *)
Definition parseInt (ds : list ascii) : Z :=
  foldl (fun acc d => 10 * acc + (Z.of_nat (code d) - 48)) 0 ds.

(** [s.slice(0, s.indexOf(mark))], or [s] when the mark is absent. *)
Definition cutAt (mark s : string) : string :=
  match String.index 0 mark s with
  | Some i => substringTo i s
  | None => s
  end.

(** [line.trimEnd()]. *)
Definition trimEnd (s : string) : string :=
  str (dropWhileEnd isSpace (chars s)).

(** The lines that the loop reads: split, trimmed at the end, the empty
    ones dropped. *)
Definition cleanLines (output : string) : list string :=
  List.filter truthy (map trimEnd (splitLines output)).

(** The variables of the loop. *)
Record Acc : Type := {
  a_branch : string;
  a_ahead : Z;
  a_behind : Z;
  a_staged : list GitFileInfo;
  a_modified : list GitFileInfo;
  a_untracked : list GitFileInfo
}.

(** The branch that a header line names, [current] when it names none. *)
Definition branchOf (branchInfo current : string) : string :=
  let branchSection := trim (cutAt "..." (cutAt " [" branchInfo)) in
  if startsWith branchSection "No commits yet on "
  then orElse (trim (substringFrom 18 branchSection)) "unknown"
  else if startsWith branchSection "HEAD" then "HEAD"
  else if truthy branchSection then branchSection
  else current.

(** One round of [for (const line of lines)]. *)
Definition readLine (acc : Acc) (line : string) : Acc :=
  if startsWith line "##" then
    let branchInfo := trim (substringFrom 2 line) in
    {| a_branch := branchOf branchInfo (a_branch acc);
       a_ahead := match matchCount (chars "ahead ") (chars branchInfo) with
                  | Some ds => parseInt ds
                  | None => a_ahead acc
                  end;
       a_behind := match matchCount (chars "behind ") (chars branchInfo) with
                   | Some ds => parseInt ds
                   | None => a_behind acc
                   end;
       a_staged := a_staged acc; a_modified := a_modified acc;
       a_untracked := a_untracked acc |}
  else if startsWith line "??" then
    let filePath := trim (substringFrom 3 line) in
    if truthy filePath then
      {| a_branch := a_branch acc; a_ahead := a_ahead acc;
         a_behind := a_behind acc; a_staged := a_staged acc;
         a_modified := a_modified acc;
         a_untracked :=
           (a_untracked acc
            ++ [{| f_path := filePath; f_status := "??"; f_staged := false |}])%list |}
    else acc
  else if (3 <=? String.length line)%nat then
    let statusCode := substringTo 2 line in
    let filePath := trim (substringFrom 3 line) in
    if negb (truthy filePath) then acc
    else
      let trimmedStatus := orElse (trim statusCode) statusCode in
      let isStaged :=
        match chars statusCode with
        | c :: _ => negb (isChar space c) && negb (isChar question c)
        | [] => true
        end in
      let file := {| f_path := filePath; f_status := trimmedStatus;
                     f_staged := isStaged |} in
      if isStaged then
        {| a_branch := a_branch acc; a_ahead := a_ahead acc;
           a_behind := a_behind acc;
           a_staged := (a_staged acc ++ [file])%list;
           a_modified := a_modified acc; a_untracked := a_untracked acc |}
      else
        {| a_branch := a_branch acc; a_ahead := a_ahead acc;
           a_behind := a_behind acc; a_staged := a_staged acc;
           a_modified := (a_modified acc ++ [file])%list;
           a_untracked := a_untracked acc |}
  else acc.

Definition start : Acc :=
  {| a_branch := "unknown"; a_ahead := 0; a_behind := 0; a_staged := [];
     a_modified := []; a_untracked := [] |}.

Definition parseGitStatusOutput (output : string) : Parsed :=
  let acc := foldl readLine start (cleanLines output) in
  {| branch := a_branch acc; ahead := a_ahead acc; behind := a_behind acc;
     staged := a_staged acc; modified := a_modified acc;
     untracked := a_untracked acc;
     changedFiles :=
       Z.of_nat (length (a_staged acc)) + Z.of_nat (length (a_modified acc))
       + Z.of_nat (length (a_untracked acc)) |}.

End GitStatus.
(** ** integrated-project-routes: the project endpoints *)

Module ProjectRoutes.
Import Str Os Registry.
Local Open Scope string_scope.
Local Open Scope Z_scope.

(** What an endpoint answers: the project, an error with its status,
    or the refusal of the body by the schema. *)
Inductive ProjectReply : Type :=
| ProjectJson (project : ProjectInfo)
| ProjectError (status : Z) (error : string)
| Invalid.

Definition colon : ascii := ascii_of_nat 58.

(** The class [[A-Za-z]]. *)
Definition isLetter (c : ascii) : bool :=
  let n := code c in
  (((65 <=? n) && (n <=? 90)) || ((97 <=? n) && (n <=? 122)))%nat.

(** [absolutePathRegex.test(s)]: a drive letter with a colon and a
    slash or backslash, two backslashes, or a slash, at the start. *)
Definition absolutePathRegex (s : string) : bool :=
  match chars s with
  | c1 :: rest =>
      isChar slash c1
      || match rest with
         | c2 :: rest' =>
             (isChar backslash c1 && isChar backslash c2)
             || (isLetter c1 && isChar colon c2
                 && match rest' with
                    | c3 :: _ => isChar backslash c3 || isChar slash c3
                    | [] => false
                    end)
         | [] => false
         end
  | [] => false
  end.

(** What [ProjectCreateSchema] accepts: a path that is not empty and
    whose trimmed text looks absolute, and a name that, if given, is
    not empty. *)
Definition ProjectCreateSchema (path_ : string) (name_ : option string) : bool :=
  truthy path_ && absolutePathRegex (trim path_)
  && match name_ with
     | Some n => truthy n
     | None => true
     end.

(** [POST /api/projects]: the path is handed to [addProject] as it was
    sent, not trimmed. *)
Definition postProject (env : Env) (pm : ProjectManager) (path_ : string)
    (name_ : option string) (now : Z) : ProjectReply * ProjectManager :=
  if negb (ProjectCreateSchema path_ name_)
  then (Invalid, pm)
  else
    match addProject env pm path_ name_ now with
    | (Ok project, pm') => (ProjectJson project, pm')
    | (Throw e, pm') => (ProjectError 400 (Registry.message e), pm')
    end.


End ProjectRoutes.
(** ** cli-routes and the WebSocket upgrade *)

Module CliRoutes.
Import Js Str Os Buffer Cli WsAuth CliOps Registry.
Local Open Scope string_scope.
Local Open Scope Z_scope.

(** The body of [POST /api/cli/sessions] once the validator has
    accepted it. *)
Record CreateSessionBody : Type := {
  b_projectId : string;
  b_worktreeId : string;
  b_tool : string;
  b_title : option string;
  b_commandArgs : option (list string);
  b_initialInput : option string
}.

(** What the validator accepts: non-empty ids, one of the three tools,
    an initial input of at most 4000 characters. *)
Definition accepted (body : CreateSessionBody) : bool :=
  truthy (b_projectId body) && truthy (b_worktreeId body)
  && bool_decide (b_tool body ∈ ["codex"; "claude"; "opencode"])
  && match b_initialInput body with
     | Some text => (String.length text <=? 4000)%nat
     | None => true
     end.

Inductive Reply : Type :=
| Created (session : CliSessionInfo) (wsToken : string)
| Failed (status : Z) (error : string).

(** [POST /api/cli/sessions]: [now] is the clock when the session is
    created, [issued] when the token is. The working directory is the
    path of the worktree record, never a path of the request. *)
Definition postSession (env : Env) (c : Codec) (pm : ProjectManager)
    (m : Manager) (body : CreateSessionBody) (now issued : Z) (uuid : string)
  : Reply * ProjectManager * Manager * list Effect :=
  match getProject pm (b_projectId body) with
  | None => (Failed 404 "Project not found", pm, m, [])
  | Some _ =>
      match findWorktreeById env pm (b_projectId body) (b_worktreeId body) with
      | (None, pm1) => (Failed 404 "Worktree not found", pm1, m, [])
      | (Some worktree, pm1) =>
          match createSession env m
                  {| in_projectId := b_projectId body;
                     in_worktreeId := b_worktreeId body;
                     in_cwd := wt_path worktree;
                     in_tool := b_tool body;
                     in_title := b_title body;
                     in_commandArgs := b_commandArgs body |} now uuid with
          | (Throw e, m1, fx) => (Failed 400 (Cli.message e), pm1, m1, fx)
          | (Ok session, m1, fx) =>
              (Created session (generateSessionToken c (info_id session) issued),
               pm1, m1, fx)
          end
      end
  end.

(** [GET /api/cli/sessions]: every session with a fresh token. *)
Definition getSessions (c : Codec) (m : Manager) (issued : Z)
  : list (CliSessionInfo * string) :=
  map (fun session =>
         (session, generateSessionToken c (info_id session) issued))
    (listSessions m).

(** [DELETE /api/cli/sessions/:id]: the reply is a success whether or
    not the session existed. *)
Definition deleteSession (m : Manager) (sessionId : string) (exit : option Z)
    (now : Z) : bool * Manager * list Call :=
  let '(m', fx) := close m sessionId exit now in (true, m', fx).

(** The URL of an upgrade request as the handler reads it: the path
    and the [token] parameter of the query. *)
Record Url : Type := {
  pathname : string;
  token : option string
}.

Inductive Upgrade : Type :=
| Destroyed
| Upgraded (sessionId : string).

(** A JSON value in a boolean position. *)
Definition jsTruthy (v : json) : bool :=
  match v with
  | JNull => false
  | JBool b => b
  | JNum n => negb (n =? 0)
  | JStr s => truthy s
  | JArr _ => true
  | JObj _ => true
  end.

(** The [upgrade] handler of the server; [url] is [None] when the
    request URL does not parse (the handler catches what that throws),
    and [ws] is the socket the upgrade yields. A session id that is
    not a string is the key of no session. *)
Definition onUpgrade (c : Codec) (m : Manager) (url : option Url) (ws : nat)
    (now : Z) : Upgrade * Manager * list Effect :=
  match url with
  | None => (Destroyed, m, [])
  | Some u =>
      if negb (String.eqb (pathname u) "/ws/cli") then (Destroyed, m, [])
      else
        match token u with
        | None => (Destroyed, m, [])
        | Some t =>
            if negb (truthy t) then (Destroyed, m, [])
            else
              match verifySessionToken c t now with
              | None => (Destroyed, m, [])
              | Some tokenData =>
                  if negb (jsTruthy tokenData) then (Destroyed, m, [])
                  else
                    match getProp tokenData "sessionId" with
                    | Ok (Some (JStr sessionId)) =>
                        match getSession m sessionId with
                        | None => (Destroyed, m, [])
                        | Some _ =>
                            let '(m', fx) := attachWebSocket m sessionId ws in
                            (Upgraded sessionId, m', fx)
                        end
                    | _ => (Destroyed, m, [])
                    end
              end
        end
  end.

End CliRoutes.

(** ** Specification vocabulary and sample data *)

(** *** The snapshot buffer *)

Module BufferSpec.
Import Js Buffer.
Local Open Scope Z_scope.

(** [first_at s c cut i]: [i] is the first index at or after [cut] that
    holds the code unit [c]. *)
Definition first_at (s : list N) (c : N) (cut i : nat) : Prop :=
  (cut <= i)%nat /\ s !! i = Some c /\
  forall j : nat, (cut <= j < i)%nat -> s !! j <> Some c.

(** [absent_from s c cut]: no index at or after [cut] holds [c]. *)
Definition absent_from (s : list N) (c : N) (cut : nat) : Prop :=
  forall j : nat, (cut <= j)%nat -> s !! j <> Some c.

(** The naive cutoff of an over-long buffer, as an index. *)
Definition cutoff (buf : list N) : nat := Z.to_nat (jslength buf - BUFFER_LIMIT).

(** The first code unit of the snapshot is an escape introducer, or the
    snapshot starts just after a line feed or a carriage return of the
    untrimmed buffer. *)
Definition starts_safely (buf out : list N) : Prop :=
  head out = Some ESC \/
  (exists p : nat, out = drop (S p) buf /\ buf !! p = Some LF) \/
  (exists p : nat, out = drop (S p) buf /\ buf !! p = Some CR).

(** The four ways out of [trimToSafeStart] on an over-long buffer, each
    with the condition under which the code takes it. *)
Inductive trim_case (buf : list N) : list N -> Prop :=
| at_escape i :
    first_at buf ESC (cutoff buf) i -> trim_case buf (drop i buf)
| after_newline i :
    absent_from buf ESC (cutoff buf) ->
    first_at buf LF (cutoff buf) i -> trim_case buf (drop (S i) buf)
| after_return i :
    absent_from buf ESC (cutoff buf) -> absent_from buf LF (cutoff buf) ->
    first_at buf CR (cutoff buf) i -> trim_case buf (drop (S i) buf)
| hard_cut :
    absent_from buf ESC (cutoff buf) -> absent_from buf LF (cutoff buf) ->
    absent_from buf CR (cutoff buf) -> trim_case buf (drop (cutoff buf) buf).

(** A buffer of 65537 code units: a letter, an escape introducer at
    the cutoff (index 1), then 65535 letters. *)
Definition sample_buffer : list N :=
  65%N :: ESC :: repeat 66%N (Z.to_nat 65535).

End BufferSpec.

(** *** The session table *)

Module CliSpec.
Import Js Str Os Buffer Cli.
Local Open Scope string_scope.
Local Open Scope Z_scope.

(** The sandbox roots as [resolveCwd] computes them. *)
Definition realHome (env : Env) : string :=
  path_resolve env (default (os_homedir env) (fs_realpath env (os_homedir env))).

Definition realTmp (env : Env) : string :=
  path_resolve env (default (os_tmpdir env) (fs_realpath env (os_tmpdir env))).

(** The working directory [cwd] resolves, symlinks followed, to a real
    path that lies neither in the home tree nor in the temp tree. *)
Definition resolves_outside (env : Env) (cwd : string) : Prop :=
  exists real : string,
    fs_realpath env (path_resolve env cwd) = Some real /\
    under (realHome env) (path_resolve env real) = false /\
    under (realTmp env) (path_resolve env real) = false.

(** The checks of [createSession] that come before the sandbox check
    all pass. *)
Definition reaches_sandbox_check (env : Env) (m : Manager)
    (input : CreateCliSessionInput) : Prop :=
  Z.of_nat (size (sessions m)) < MAX_TOTAL_SESSIONS /\
  projectSessions m (in_projectId input) < MAX_SESSIONS_PER_PROJECT /\
  (exists tc, tools m !! in_tool input = Some tc /\ available tc <> Some false) /\
  in_cwd input <> "" /\
  fs_stat env (path_resolve env (in_cwd input)) = Some true.

(** A host with home [/home/u] and temp [/tmp], no symlinks, where
    [/etc], the home and the temp directory exist, and every spawn
    succeeds. *)
Definition sample_env : Env :=
  {| path_resolve := fun p => p;
     path_relative := fun _ p => p;
     fs_stat := fun p =>
       if bool_decide (p ∈ ["/etc"; "/home/u"; "/home/u/proj"; "/tmp"])
       then Some true else None;
     fs_realpath := fun p => Some p;
     os_homedir := "/home/u";
     os_tmpdir := "/tmp";
     process_cwd := "/home/u";
     sha256_hex := fun p => p;
     pty_spawn := fun _ _ _ => Some 1%nat;
     git_worktree_list := fun _ => None;
     git_worktree_prune := fun _ => true;
     git_worktree_relist := fun _ => None;
     git_worktree_remove := fun _ _ => false |}.

Definition fresh_manager : Manager :=
  {| sessions := ∅; tools := initialTools |}.

(** The manager after the availability probe found no [codex] binary. *)
Definition probed_manager : Manager :=
  {| sessions := ∅;
     tools := alter (fun tc =>
                {| tool_id := tool_id tc; tool_name := tool_name tc;
                   command := command tc; args := args tc;
                   description := description tc; tool_env := tool_env tc;
                   available := Some false; version := version tc |})
                "codex" initialTools |}.

Definition sample_record (sid pid : string) : CliSessionRecord :=
  {| id := sid; title := "Codex CLI"; projectId := pid; worktreeId := "default";
     cwd := "/home/u/proj"; tool := "codex"; status := running;
     createdAt := 0; updatedAt := 0; pty := 1%nat; buffer := [];
     sockets := []; lastActivity := 0 |}.

(** A table of [n] sessions [s0 .. s(n-1)], all of project [pid]. *)
Definition table_of (n : nat) (pid : string) : gmap string CliSessionRecord :=
  list_to_map
    (map (fun k => let sid := "s" +:+ pretty k in (sid, sample_record sid pid))
       (seq 0 n)).

Definition full_manager : Manager :=
  {| sessions := table_of 50 "p1"; tools := initialTools |}.

(** Ten sessions, all of project [p2]. *)
Definition crowded_manager : Manager :=
  {| sessions := table_of 10 "p2"; tools := initialTools |}.

Definition etc_input : CreateCliSessionInput :=
  {| in_projectId := "p2"; in_worktreeId := "default"; in_cwd := "/etc";
     in_tool := "codex"; in_title := None; in_commandArgs := None |}.

End CliSpec.

(** *** The token codec *)

Module WsAuthSpec.
Import Str Os WsAuth.
Local Open Scope string_scope.
Local Open Scope Z_scope.

(** No dot occurs in [s], as in every base64url string. *)
Definition dotfree (s : string) : Prop := contains dot s = false.

(** A token in the format in which the codec issues it: a payload
    segment and a signature segment, neither empty nor containing a
    dot, joined by one dot. *)
Definition issued_format (token : string) : Prop :=
  exists p s, dotfree p /\ dotfree s /\ p <> "" /\ s <> "" /\
              token = p +:+ "." +:+ s.

(** What the guard of the code asks of a token: the first two pieces
    between dots, the payload segment and the signature segment, are
    there and are not empty. Further pieces may follow. *)
Definition two_segments (token : string) : Prop :=
  exists p s rest, splitOn dot token = p :: s :: rest /\ p <> "" /\ s <> "".

(** The number of dots in a string. *)
Definition dots (s : string) : nat :=
  length (List.filter (isChar dot) (chars s)).

(** The payload segment and the signature segment of a token. *)
Definition segments (token p s : string) : Prop :=
  exists rest, splitOn dot token = p :: s :: rest.

(** The token lifetime, one hour in milliseconds. *)
Definition TTL : Z := 60 * 60 * 1000.

(** A codec that signs with a checksum, leaves dot-free strings as they
    are, and knows one document. *)
Definition sample_codec : Codec :=
  {| WS_SECRET := "secret";
     hmac_base64url := fun key data =>
       "mac" +:+ pretty (foldr (fun ch acc => (Z.of_nat (code ch) + 31 * acc) mod 65521)
                          7 (chars (key +:+ data)));
     base64url_of_utf8 := fun s => s;
     utf8_of_base64url := fun s => s;
     JSON_stringify := fun v =>
       match v with
       | JObj [(_, JStr sid); (_, JNum e)] => "sid-" +:+ sid +:+ "-exp-" +:+ pretty e
       | _ => "null"
       end;
     JSON_parse := fun s =>
       if String.eqb s "sid-A-exp-3601000" then Some (SessionToken "A" 3601000)
       else if String.eqb s "null" then Some JNull
       else None;
     ToNumber := fun _ => None |}.

(** The same codec, which also knows a document without an expiry. *)
Definition lax_codec : Codec :=
  {| WS_SECRET := WS_SECRET sample_codec;
     hmac_base64url := hmac_base64url sample_codec;
     base64url_of_utf8 := base64url_of_utf8 sample_codec;
     utf8_of_base64url := utf8_of_base64url sample_codec;
     JSON_stringify := JSON_stringify sample_codec;
     JSON_parse := fun s =>
       if String.eqb s "sid-A" then Some (JObj [("sessionId", JStr "A")])
       else JSON_parse sample_codec s;
     ToNumber := ToNumber sample_codec |}.

End WsAuthSpec.
(** *** Sessions over time *)

Module CliOpsSpec.
Import Js Str Os Buffer Cli WsAuth CliOps CliSpec WsAuthSpec.
Local Open Scope string_scope.
Local Open Scope Z_scope.

(** What can happen to the session manager. [EvCreate] is a
    [createSession] call during whose suspension nothing else happens;
    [EvCreateLate] is the second half of a call whose checks were made
    before the events that precede it. *)
Inductive Event : Type :=
| EvCreate (input : CreateCliSessionInput) (now : Z) (uuid : string)
| EvCreateLate (toolConfig : CliToolConfig) (input : CreateCliSessionInput)
    (now : Z) (uuid : string)
| EvData (sessionId : string) (data : list N) (now : Z)
| EvAttach (sessionId : string) (socket : nat)
| EvMessage (sessionId payload : string) (now : Z)
| EvDetach (sessionId : string) (socket : nat)
| EvRunning (sessionId : string) (now : Z)
| EvExit (sessionId : string) (exitCode now : Z)
| EvClose (sessionId : string) (exit : option Z) (now : Z)
| EvSweep (now : Z) (exits : string -> option Z)
| EvShutdown (exits : string -> option Z) (now : Z)
| EvProbe (probe : string -> option string).

(** The manager after an event. *)
Definition step (env : Env) (c : Codec) (m : Manager) (ev : Event) : Manager :=
  match ev with
  | EvCreate input now uuid => (createSession env m input now uuid).1.2
  | EvCreateLate toolConfig input now uuid =>
      (createResume env m toolConfig input now uuid).1.2
  | EvData sid data now => (deliver m sid data now).1
  | EvAttach sid socket => (attachWebSocket m sid socket).1
  | EvMessage sid payload now => (onMessage c m sid payload now).1
  | EvDetach sid socket => onClose m sid socket
  | EvRunning sid now => (markRunning m sid now).1
  | EvExit sid code now => (onExit m sid code now).1
  | EvClose sid exit now => (close m sid exit now).1
  | EvSweep now exits => (cleanupIdleSessions m now exits).1
  | EvShutdown exits now => (shutdown m exits now).1
  | EvProbe probe => detectToolAvailability probe m
  end.

Definition history (env : Env) (c : Codec) (m : Manager) (evs : list Event)
  : Manager :=
  foldl (step env c) m evs.

(** The table holds at most [MAX_TOTAL_SESSIONS] sessions, at most
    [MAX_SESSIONS_PER_PROJECT] of any one project, every session is
    filed under its own id, and no buffer exceeds [BUFFER_LIMIT]. *)
Definition table_ok (m : Manager) : Prop :=
  Z.of_nat (size (sessions m)) <= MAX_TOTAL_SESSIONS /\
  (forall pid, projectSessions m pid <= MAX_SESSIONS_PER_PROJECT) /\
  (forall sid s, sessions m !! sid = Some s ->
     id s = sid /\ jslength (buffer s) <= BUFFER_LIMIT).

(** Every session is filed under its own id, and no buffer exceeds
    [BUFFER_LIMIT]. *)
Definition records_ok (m : Manager) : Prop :=
  forall sid s, sessions m !! sid = Some s ->
    id s = sid /\ jslength (buffer s) <= BUFFER_LIMIT.

(** No [createSession] call of the history is overtaken: each runs
    from its checks to the insertion of its record with nothing in
    between. *)
Definition serial (evs : list Event) : Prop :=
  Forall (fun ev => match ev with
                    | EvCreateLate _ _ _ _ => False
                    | _ => True
                    end) evs.

(** A request for a [codex] session in the project directory. *)
Definition proj_input : CreateCliSessionInput :=
  {| in_projectId := "p1"; in_worktreeId := "default";
     in_cwd := "/home/u/proj"; in_tool := "codex"; in_title := None;
     in_commandArgs := Some ["--full-auto"] |}.

(** A pty that exits with code 0 when killed. *)
Definition exits_cleanly : string -> option Z := fun _ => Some 0.

(** A pty that ignores the kill. *)
Definition hangs : string -> option Z := fun _ => None.

(** A day at the terminal: a session is created, marked running, a
    socket attaches, output arrives, the socket leaves, two days pass,
    the idle sweep runs and the server shuts down. *)
Definition a_day : list Event :=
  [EvCreate proj_input 0 "u1"; EvRunning "u1" 1; EvAttach "u1" 7%nat;
   EvData "u1" [104; 105]%N 2; EvDetach "u1" 7%nat;
   EvSweep (3 + SESSION_IDLE_TIMEOUT) exits_cleanly;
   EvShutdown hangs (4 + SESSION_IDLE_TIMEOUT)].

(** A running session with two sockets and some output. *)
Definition watched : CliSessionRecord :=
  {| id := "s1"; title := "Codex CLI"; projectId := "p1";
     worktreeId := "default"; cwd := "/home/u/proj"; tool := "codex";
     status := running; createdAt := 0; updatedAt := 0; pty := 4%nat;
     buffer := [111; 107]%N; sockets := [7%nat; 8%nat];
     lastActivity := 10 |}.

(** A running session without sockets, last active at time 10. *)
Definition unwatched : CliSessionRecord :=
  {| id := "s2"; title := "Codex CLI"; projectId := "p1";
     worktreeId := "default"; cwd := "/home/u/proj"; tool := "codex";
     status := running; createdAt := 0; updatedAt := 0; pty := 5%nat;
     buffer := []; sockets := []; lastActivity := 10 |}.

Definition two_sessions : Manager :=
  {| sessions := <["s1" := watched]> (<["s2" := unwatched]> ∅);
     tools := initialTools |}.

(** Nine sessions, all of project [p1]. *)
Definition nine_sessions : Manager :=
  {| sessions := table_of 9 "p1"; tools := initialTools |}.

(** The [codex] entry of the tool table. *)
Definition codex_tool : CliToolConfig :=
  {| tool_id := "codex"; tool_name := "Codex CLI"; command := "codex";
     args := []; description := "OpenAI Codex assistant CLI";
     tool_env := []; available := None; version := None |}.

(** Two [createSession] calls for project [p1] that overlap: both
    were checked against the same table, and their second halves run
    one after the other. *)
Definition two_late : list Event :=
  [EvCreateLate codex_tool proj_input 0 "u1";
   EvCreateLate codex_tool proj_input 0 "u2"].

(** A codec that reads two client messages, an input and a resize. *)
Definition terminal_codec : Codec :=
  {| WS_SECRET := WS_SECRET sample_codec;
     hmac_base64url := hmac_base64url sample_codec;
     base64url_of_utf8 := base64url_of_utf8 sample_codec;
     utf8_of_base64url := utf8_of_base64url sample_codec;
     JSON_stringify := JSON_stringify sample_codec;
     JSON_parse := fun s =>
       if String.eqb s "input ls" then
         Some (JObj [("type", JStr "input"); ("data", JStr "ls")])
       else if String.eqb s "resize 10 2" then
         Some (JObj [("type", JStr "resize"); ("cols", JNum 10);
                     ("rows", JNum 2)])
       else JSON_parse sample_codec s;
     ToNumber := ToNumber sample_codec |}.

(** A probe that finds [claude] only. *)
Definition only_claude (command : string) : option string :=
  if String.eqb command "claude" then Some "1.0.3 (Claude Code)
" else None.

End CliOpsSpec.

(** *** The project registry *)

Module RegistrySpec.
Import Str Os Registry.
Local Open Scope string_scope.
Local Open Scope Z_scope.

(** The entries of a project that carry the reserved id. *)
Definition defaults (info : ProjectInfo) : list WorktreeMetadata :=
  filter (fun w => wt_id w = "default") (worktrees info).

(** Exactly one entry has id ["default"]; its path is the project's
    path and its title is ["default"]. *)
Definition default_ok (info : ProjectInfo) : Prop :=
  defaults info = [defaultEntry (path info)].

(** Every project of the table satisfies [default_ok], and no record of
    the configuration file has two default entries. *)
Definition registry_ok (pm : ProjectManager) : Prop :=
  (forall pid info, projects pm !! pid = Some info -> default_ok info) /\
  (forall data info, configFile pm = Some data -> info ∈ data ->
     (length (defaults info) <= 1)%nat).

(** The operations of the registry. *)
Inductive Op : Type :=
| OpLoad (now : Z)
| OpSave
| OpShutdown
| OpAdd (projectPath : string) (name_ : option string) (now : Z)
| OpGetSettings (projectId : string)
| OpUpdateSettings (projectId : string) (partial : ProjectSettings)
| OpRemoveProject (projectId : string)
| OpGetWorktrees (projectId : string)
| OpFindWorktree (projectId worktreeId : string)
| OpEnsureMetadata (projectId worktreePath : string) (title : option string)
| OpUpdateTitle (projectId worktreeId title : string)
| OpRemoveMetadata (projectId worktreeId : string).

(** The registry after an operation. *)
Definition run (env : Env) (op : Op) (pm : ProjectManager) : ProjectManager :=
  match op with
  | OpLoad now => loadProjects env pm now
  | OpSave => saveProjects pm
  | OpShutdown => shutdown pm
  | OpAdd p n now => (addProject env pm p n now).2
  | OpGetSettings pid => (getProjectSettings pm pid).2
  | OpUpdateSettings pid partial => (updateProjectSettings pm pid partial).2
  | OpRemoveProject pid => (removeProject pm pid).2
  | OpGetWorktrees pid => (getWorktrees env pm pid).2
  | OpFindWorktree pid wid => (findWorktreeById env pm pid wid).2
  | OpEnsureMetadata pid wp t => (ensureWorktreeMetadata env pm pid wp t).2
  | OpUpdateTitle pid wid t => (updateWorktreeTitle env pm pid wid t).2
  | OpRemoveMetadata pid wid => (removeWorktreeMetadata env pm pid wid).2
  end.

(** The stored title [t] (trimmed) looks like a generated slug for the
    entry [e]. *)
Definition looks_generated (e : WorktreeMetadata) (t : string) : Prop :=
  t = wt_id e \/ t = wt_path e \/ t = basename (wt_path e) \/
  t = slugify t \/ contains slash t = true \/ contains underscore t = true.

(** The incoming title [t] (trimmed) looks like a generated slug. *)
Definition incoming_looks_generated (t : string) : Prop :=
  t = "" \/ t = slugify t \/ contains slash t = true \/
  contains underscore t = true.

(** The entry as [ensureWorktreeMetadata] sees it when it decides on
    the title: its path has been corrected to the canonical one. *)
Definition corrected (env : Env) (worktreePath : string)
    (e : WorktreeMetadata) : WorktreeMetadata :=
  {| wt_id := wt_id e; wt_path := canonicalizePath env worktreePath;
     wt_title := wt_title e |}.

(** The key under which [addProject] files a path. *)
Definition keyOf (env : Env) (projectPath : string) : string :=
  getGitProjectId env (canonicalizePath env projectPath).

(** What the second branch of [addProject] makes of a record. *)
Definition refreshed (env : Env) (existing : ProjectInfo) (cp : string)
    (name_ : option string) (now : Z) : ProjectInfo :=
  let incomingName := trim (default "" name_) in
  let pathChanged := negb (String.eqb (path existing) cp) in
  let e1 := if pathChanged then withPath existing cp else existing in
  let nameChanged :=
    truthy incomingName && negb (String.eqb (name e1) incomingName) in
  let e2 := if nameChanged then withName e1 incomingName else e1 in
  withLastAccessed
    (if pathChanged || nameChanged then ensureDefaultWorktree env e2 else e2) now.

(** What the first branch of [addProject] creates. *)
Definition created (env : Env) (cp : string) (name_ : option string) (now : Z)
  : ProjectInfo :=
  ensureDefaultWorktree env
    {| id := getGitProjectId env cp;
       name := orElse (default "" name_)
                 (orElse (lastSegment cp) "Unknown Project");
       path := cp; status := running; lastAccessed := now;
       gitRoot := None; commitHash := None; port := None;
       worktrees := [defaultEntry cp];
       settings := Some (applyDefaultSettings None) |}.

(** A host without symlinks on which every path is a directory. *)
Definition plain_env : Env :=
  {| path_resolve := fun p => p;
     path_relative := fun _ p => p;
     fs_stat := fun _ => Some true;
     fs_realpath := fun p => Some p;
     os_homedir := "/home/u";
     os_tmpdir := "/tmp";
     process_cwd := "/home/u";
     sha256_hex := fun p => p;
     pty_spawn := fun _ _ _ => Some 1%nat;
     git_worktree_list := fun _ => None;
     git_worktree_prune := fun _ => true;
     git_worktree_relist := fun _ => None;
     git_worktree_remove := fun _ _ => false |}.

Definition empty_registry : ProjectManager :=
  {| projects := ∅; loaded := true; dirty := false; configFile := None |}.

Definition sample_project (wts : list WorktreeMetadata) : ProjectInfo :=
  {| id := "p1"; name := "proj"; path := "/home/u/proj"; status := running;
     lastAccessed := 0; gitRoot := None; commitHash := None; port := None;
     worktrees := wts; settings := None |}.

Definition registry_of (info : ProjectInfo) : ProjectManager :=
  {| projects := {[ id info := info ]}; loaded := true; dirty := false;
     configFile := None |}.

(** A worktree whose stored title is a single space. *)
Definition blank_titled : WorktreeMetadata :=
  {| wt_id := "feat"; wt_path := "/home/u/wt"; wt_title := " " |}.

(** A worktree with a slug for a title. *)
Definition slug_titled : WorktreeMetadata :=
  {| wt_id := "feat"; wt_path := "/home/u/wt"; wt_title := "feat" |}.

End RegistrySpec.
(** *** Reads, writes and restarts of the registry *)

Module RegistryOpsSpec.
Import Str Os Registry RegistrySpec.
Local Open Scope string_scope.
Local Open Scope Z_scope.

(** The prompt limit brought into its range. *)
Definition clamp (n : Z) : Z :=
  Z.min MAX_PROMPT_LIMIT (Z.max MIN_PROMPT_LIMIT n).

(** The record that a save writes for a project. *)
Definition stopped_copy (info : ProjectInfo) : ProjectInfo :=
  withSettings (withStatus info stopped)
    (Some (applyDefaultSettings (settings info))).

(** What a save writes: a record for every project of the table. *)
Definition snapshot (pm : ProjectManager) : list ProjectInfo :=
  map (fun kv => stopped_copy kv.2) (map_to_list (projects pm)).

(** A new process that finds the file the old one left: the table is
    empty and nothing is loaded yet. *)
Definition restart (pm : ProjectManager) : ProjectManager :=
  {| projects := ∅; loaded := false; dirty := false;
     configFile := configFile pm |}.

(** What loading makes of a record of the file. *)
Definition reloaded (env : Env) (info : ProjectInfo) : ProjectInfo :=
  ensureDefaultWorktree env (withStatus info running).

(** The table is keyed by the ids of its records, and every project
    directory exists. *)
Definition well_keyed (env : Env) (pm : ProjectManager) : Prop :=
  forall k info, projects pm !! k = Some info ->
    id info = k /\ fs_stat env (path info) = Some true.

(** A registry with one project and two worktrees, loaded and clean. *)
Definition two_worktrees : ProjectManager :=
  registry_of
    (sample_project
       [defaultEntry "/home/u/proj";
        {| wt_id := "feat"; wt_path := "/home/u/wt"; wt_title := "Feature" |}]).

(** The same registry with a change that has not been written yet. *)
Definition unsaved : ProjectManager :=
  markDirty two_worktrees.

(** A registry that has not finished loading, beside a file written by
    an earlier run. *)
Definition loading : ProjectManager :=
  {| projects := ∅; loaded := false; dirty := false;
     configFile := Some [sample_project [defaultEntry "/home/u/proj"]] |}.

(** The record with a new title. *)
Definition retitled (m : WorktreeMetadata) (title : string) : WorktreeMetadata :=
  {| wt_id := wt_id m; wt_path := wt_path m; wt_title := title |}.

(** The first record with the id [wid] among the normalized records of
    a project: what a look-up by id finds. *)
Definition lookupById (env : Env) (info : ProjectInfo) (wid : string)
  : option WorktreeMetadata :=
  find (fun w => String.eqb (wt_id w) wid)
    (worktrees (ensureDefaultWorktree env info)).

(** No record of the project, normalized, has the canonical path of
    [worktreePath]. *)
Definition unregistered (env : Env) (info : ProjectInfo) (worktreePath : string)
  : Prop :=
  forall w, w ∈ worktrees (ensureDefaultWorktree env info) ->
    canonicalizePath env (wt_path w) <> canonicalizePath env worktreePath.

(** The path [p] is in canonical form on the host: canonicalizing it
    gives it back. *)
Definition canonical (env : Env) (p : string) : Prop :=
  canonicalizePath env p = p.

(** The paths that a registration of [worktreePath] in the project
    meets are in canonical form once canonicalized: the project's own
    path, the new path, and the path of every record of the normalized
    project. *)
Definition paths_settled (env : Env) (info : ProjectInfo)
    (worktreePath : string) : Prop :=
  canonical env (canonicalizePath env (path info)) /\
  canonical env (canonicalizePath env worktreePath) /\
  forall w, w ∈ worktrees (ensureDefaultWorktree env info) ->
    canonical env (wt_path w).

(** A POSIX host without symlinks on which every path that is not
    empty is a directory: a relative path is resolved against the
    working directory, the empty path being the working directory
    itself, and [stat] and [realpath] of the empty path throw.
    Canonicalization is not idempotent there: the canonical form of
    the root directory is the empty string, whose canonical form is
    the working directory. *)
Definition posix_env : Env :=
  {| path_resolve := fun p =>
       if startsWith p "/" then p
       else if truthy p then "/home/u/" +:+ p else "/home/u";
     path_relative := fun _ p => p;
     fs_stat := fun p => if truthy p then Some true else None;
     fs_realpath := fun p => if truthy p then Some p else None;
     os_homedir := "/home/u";
     os_tmpdir := "/tmp";
     process_cwd := "/home/u";
     sha256_hex := fun p => p;
     pty_spawn := fun _ _ _ => Some 1%nat;
     git_worktree_list := fun _ => None;
     git_worktree_prune := fun _ => true;
     git_worktree_relist := fun _ => None;
     git_worktree_remove := fun _ _ => false |}.

(** No two worktree records of the project share an id. *)
Definition ids_unique (info : ProjectInfo) : Prop :=
  NoDup (map wt_id (worktrees info)).

(** Worktree ids are unique within every project of the table and
    within every record of the configuration file. *)
Definition registry_unique (pm : ProjectManager) : Prop :=
  (forall pid info, projects pm !! pid = Some info -> ids_unique info) /\
  (forall data info, configFile pm = Some data -> info ∈ data ->
     ids_unique info).

(** The registry after a sequence of operations. *)
Definition runs (env : Env) (ops : list Op) (pm : ProjectManager)
  : ProjectManager :=
  foldl (fun acc op => run env op acc) pm ops.

(** A session of work: a project is added, two worktrees with the
    same branch name are registered, one is renamed and one removed,
    and the registry is saved and loaded again. *)
Definition busy_session : list Op :=
  [OpAdd "/home/u/proj" (Some "proj") 1;
   OpEnsureMetadata (keyOf plain_env "/home/u/proj") "/home/u/wt-a" (Some "feat");
   OpEnsureMetadata (keyOf plain_env "/home/u/proj") "/home/u/wt-b" (Some "feat");
   OpUpdateTitle (keyOf plain_env "/home/u/proj") "feat" "Feature";
   OpRemoveMetadata (keyOf plain_env "/home/u/proj") "feat-2";
   OpSave; OpLoad 2].

End RegistryOpsSpec.
(** *** Slugs *)

Module SlugSpec.
Import Str Os Registry.
Local Open Scope string_scope.

(** The characters a slug is made of: [a-z], [0-9] and the dash. *)
Definition isSlugChar (c : ascii) : bool := isLowerAlnum c || isChar dash c.

(** No two dashes stand next to each other. *)
Fixpoint dashesApart (l : list ascii) : bool :=
  match l with
  | a :: r =>
      match r with
      | b :: _ => negb (isChar dash a && isChar dash b) && dashesApart r
      | [] => true
      end
  | [] => true
  end.

(** The shape of a slug: not empty, at most 64 characters, made of
    slug characters, dashes single, and no dash in front. *)
Definition slug_shaped (s : string) : Prop :=
  s <> "" /\
  (String.length s <= 64)%nat /\
  forallb isSlugChar (chars s) = true /\
  dashesApart (chars s) = true /\
  head (chars s) <> Some dash.

(** The last character is not a dash. *)
Definition no_trailing_dash (s : string) : Prop :=
  last (chars s) <> Some dash.

End SlugSpec.

(** *** The worktree reconciler *)

Module RoutesSpec.
Import Str Os Registry Routes RegistrySpec.
Local Open Scope string_scope.
Local Open Scope Z_scope.

(** The ids of the responses of a successful listing. *)
Definition listedIds (r : result Routes.Error (list WorktreeResponse))
  : option (list string) :=
  match r with
  | Ok responses => Some (map r_id responses)
  | Throw _ => None
  end.

(** The stored worktree metadata of a project. *)
Definition storedWorktrees (pm : ProjectManager) (projectId : string)
  : option (list WorktreeMetadata) :=
  worktrees <$> projects pm !! projectId.

(** The record [m] is an orphan of a run whose live entries are
    [parsed]: it is not the default entry and its normalized path is the
    path of no live entry. *)
Definition orphan (env : Env) (parsed : list ParsedWorktree)
    (m : WorktreeMetadata) : Prop :=
  wt_id m <> "default" /\ normalizePath env (wt_path m) ∉ map pw_path parsed.

(** No stored worktree record of the project has the id [x]. *)
Definition no_id (projectId x : string) (pm : ProjectManager) : Prop :=
  forall info w, projects pm !! projectId = Some info ->
    w ∈ worktrees info -> wt_id w <> x.

(** The porcelain listing of a repository with its main worktree and a
    second worktree that git reports under a symlinked path. *)
Definition symlink_listing : string :=
  "worktree /home/u/proj
HEAD 1111111111111111111111111111111111111111
branch refs/heads/main

worktree /home/u/link-wt
HEAD 2222222222222222222222222222222222222222
branch refs/heads/feat
".

(** A host on which [/home/u/link-wt] is a symlink to the directory
    [/home/u/real-wt]. *)
Definition symlink_env : Env :=
  {| path_resolve := fun p => p;
     path_relative := fun _ p => p;
     fs_stat := fun p =>
       if bool_decide (p ∈ ["/home/u/proj"; "/home/u/link-wt"; "/home/u/real-wt"])
       then Some true else None;
     fs_realpath := fun p =>
       if String.eqb p "/home/u/link-wt" then Some "/home/u/real-wt" else Some p;
     os_homedir := "/home/u";
     os_tmpdir := "/tmp";
     process_cwd := "/home/u";
     sha256_hex := fun p => p;
     pty_spawn := fun _ _ _ => Some 1%nat;
     git_worktree_list := fun _ => Some symlink_listing;
     git_worktree_prune := fun _ => true;
     git_worktree_relist := fun _ => Some symlink_listing;
     git_worktree_remove := fun _ _ => false |}.

(** The metadata of the second worktree, stored under its real path
    with a title chosen by the user. *)
Definition feature_metadata : WorktreeMetadata :=
  {| wt_id := "feat"; wt_path := "/home/u/real-wt"; wt_title := "My Feature" |}.

Definition symlink_registry : ProjectManager :=
  registry_of (sample_project [defaultEntry "/home/u/proj"; feature_metadata]).

(** The listing once the second worktree has been removed behind the
    registry's back: git reports the main worktree only. *)
Definition main_only_listing : string :=
  "worktree /home/u/proj
HEAD 1111111111111111111111111111111111111111
branch refs/heads/main
".

Definition main_only_env : Env :=
  {| path_resolve := fun p => p;
     path_relative := fun _ p => p;
     fs_stat := fun p =>
       if String.eqb p "/home/u/proj" then Some true else None;
     fs_realpath := fun p =>
       if String.eqb p "/home/u/proj" then Some p else None;
     os_homedir := "/home/u";
     os_tmpdir := "/tmp";
     process_cwd := "/home/u";
     sha256_hex := fun p => p;
     pty_spawn := fun _ _ _ => Some 1%nat;
     git_worktree_list := fun _ => Some main_only_listing;
     git_worktree_prune := fun _ => true;
     git_worktree_relist := fun _ => Some main_only_listing;
     git_worktree_remove := fun _ _ => false |}.

(** The responses of a listing, none when it throws. *)
Definition responsesOf (r : result Routes.Error (list WorktreeResponse))
  : list WorktreeResponse :=
  match r with
  | Ok responses => responses
  | Throw _ => []
  end.

End RoutesSpec.
(** *** Sessions over HTTP and WebSocket *)

Module CliRoutesSpec.
Import Js Str Os Buffer Cli WsAuth CliOps Registry CliRoutes WsAuthSpec
  CliSpec RegistrySpec CliOpsSpec.
Local Open Scope string_scope.
Local Open Scope Z_scope.

(** The codec deals with the token of [sessionId] issued at [issued]
    as the runtime does: the base64url text and the digest contain no
    dot and are not empty, and the payload is parsed back from its
    encoding. *)
Definition codec_handles (c : Codec) (sessionId : string) (issued : Z) : Prop :=
  let payload := SessionToken sessionId (issued + TTL) in
  let p := base64url_of_utf8 c (JSON_stringify c payload) in
  let sig := hmac_base64url c (WS_SECRET c) p in
  dotfree p /\ p <> "" /\ dotfree sig /\ sig <> "" /\
  JSON_parse c (utf8_of_base64url c p) = Some payload.

(** The URL a client opens with a token. *)
Definition ws_url (tok : string) : Url :=
  {| pathname := "/ws/cli"; token := Some tok |}.

(** The input that [postSession] hands to [createSession]. *)
Definition input_of (body : CreateSessionBody) (worktree : WorktreeMetadata)
  : CreateCliSessionInput :=
  {| in_projectId := b_projectId body; in_worktreeId := b_worktreeId body;
     in_cwd := wt_path worktree; in_tool := b_tool body;
     in_title := b_title body; in_commandArgs := b_commandArgs body |}.

(** A registry with the sample project, on the sample host. *)
Definition one_project : ProjectManager :=
  registry_of (sample_project [defaultEntry "/home/u/proj"]).

(** A request for a [codex] session in the default worktree. *)
Definition codex_body : CreateSessionBody :=
  {| b_projectId := "p1"; b_worktreeId := "default"; b_tool := "codex";
     b_title := Some "fix the build"; b_commandArgs := None;
     b_initialInput := None |}.

(** The request for session [A], issued at time 1000. *)
Definition session_A : Manager :=
  {| sessions := {[ "A" := sample_record "A" "p1" ]}; tools := initialTools |}.

End CliRoutesSpec.
(** *** The reader of [git status] *)

Module GitStatusSpec.
Import Str GitStatus.
Local Open Scope string_scope.
Local Open Scope Z_scope.

(** A header line of the porcelain output. *)
Definition headerLine (line : string) : bool := startsWith line "##".

(** A line that reports a file: not a header, and with something other
    than white space after its third character. *)
Definition fileLine (line : string) : bool :=
  negb (headerLine line) && truthy (trim (substringFrom 3 line)).

(** The file that a line reports. *)
Definition pathOf (line : string) : string := trim (substringFrom 3 line).

Inductive Kind : Type := Staged | Modified | Untracked.

(** The list that a file line belongs to: untracked when it begins
    with two question marks, modified when its first character is a
    space or a question mark, staged otherwise. *)
Definition kindOf (line : string) : Kind :=
  if startsWith line "??" then Untracked
  else match chars line with
       | c :: _ =>
           if isChar space c || isChar question c then Modified else Staged
       | [] => Staged
       end.

Definition isKind (k : Kind) (line : string) : bool :=
  fileLine line &&
  match k, kindOf line with
  | Staged, Staged | Modified, Modified | Untracked, Untracked => true
  | _, _ => false
  end.

(** The record of the file that a file line reports: its status is the
    first two characters without the white space around them, and
    only a staged file is flagged as such. *)
Definition fileOf (line : string) : GitFileInfo :=
  {| f_path := pathOf line;
     f_status := orElse (trim (substringTo 2 line)) (substringTo 2 line);
     f_staged := match kindOf line with Staged => true | _ => false end |}.

(** The records of the file lines of kind [k], in the order of the
    output. *)
Definition filesOf (k : Kind) (lines : list string) : list GitFileInfo :=
  map fileOf (List.filter (isKind k) lines).

(** A status with a header, files of every kind and a line without a
    path. *)
Definition sample_status : string :=
  "## main...origin/main [ahead 2, behind 13]
M  src/a.ts
 M src/b.ts
?? notes.txt
??
".

(** What the loop keeps true of its variables: a branch is named and
    the counts are not negative. *)
Definition sound (acc : Acc) : Prop :=
  a_branch acc <> "" /\ 0 <= a_ahead acc /\ 0 <= a_behind acc.

End GitStatusSpec.
(** *** The project endpoints and the worktree listing *)

Module ProjectRoutesSpec.
Import Str Os Registry Routes RegistrySpec RegistryOpsSpec.
Local Open Scope string_scope.
Local Open Scope Z_scope.


(** A line of the porcelain output that opens the block of a
    worktree. *)
Definition entryLine (rawLine : string) : bool :=
  startsWith (trim rawLine) "worktree ".

(** A parsed entry is well formed: it has a path, and a lock reason
    only if it is locked. *)
Definition entry_ok (entry : ParsedWorktree) : Prop :=
  pw_path entry <> "" /\
  (isLocked entry = false -> lockReason entry = None).

(** A listing with a locked worktree, a prunable one and lines before
    the first block. *)
Definition mixed_listing : string :=
  "HEAD 0000000000000000000000000000000000000000
worktree /home/u/proj
HEAD 1111111111111111111111111111111111111111
branch refs/heads/main

worktree /home/u/wt
HEAD 2222222222222222222222222222222222222222
detached
locked on a usb stick

worktree /home/u/gone
HEAD 3333333333333333333333333333333333333333
branch refs/heads/old
prunable gitdir file points to non-existent location
".

(** A block has a lock reason only if it is locked. *)
Definition block_ok (b : Block) : Prop :=
  b_locked b = false -> b_lockReason b = None.

(** What the loop over the porcelain lines keeps true: the finished
    blocks have a path and satisfy [block_ok], so does the open block,
    and there are at most [n] blocks with a path, finished or open. *)
Definition blocks_ok (st : list Block * Block) (n : nat) : Prop :=
  Forall (fun b => b_path b <> "" /\ block_ok b) st.1 /\
  block_ok st.2 /\
  (length st.1 + (if truthy (b_path st.2) then 1 else 0) <= n)%nat.

End ProjectRoutesSpec.

(** * Part II: properties *)

(** ** The snapshot buffer *)

Module BufferFacts.
Import Js Buffer BufferSpec.
Local Open Scope Z_scope.

Lemma scan_miss c s i :
  0 <= i -> (scan c s i = -1 <-> forall j : nat, s !! j <> Some c).
Proof.
  revert i. induction s as [|x r IH]; intros i Hi; simpl.
  - split; [intros _ j; by rewrite lookup_nil | done].
  - destruct (N.eqb_spec x c) as [->|Hne].
    + split; [lia | intros H; by specialize (H 0%nat)].
    + rewrite IH by lia. split.
      * intros H [|j]; simpl; [congruence | apply H].
      * intros H j. apply (H (S j)).
Qed.

Lemma scan_hit c s i r :
  0 <= i -> scan c s i = r -> r <> -1 ->
  exists k : nat, r = i + Z.of_nat k /\ s !! k = Some c /\
    forall j : nat, (j < k)%nat -> s !! j <> Some c.
Proof.
  revert i. induction s as [|x t IH]; intros i Hi; simpl.
  - congruence.
  - destruct (N.eqb_spec x c) as [->|Hne]; intros Hr Hnot.
    + exists 0%nat. repeat split; [lia | intros j Hj; lia].
    + destruct (IH (i + 1) ltac:(lia) Hr Hnot) as (k & -> & Hk & Hlt).
      exists (S k). repeat split; [lia | done |].
      intros [|j] Hj; simpl; [congruence | apply Hlt; lia].
Qed.

Lemma indexOf_at (s : list N) c (cut : nat) :
  (cut <= length s)%nat ->
  indexOf s c (Z.of_nat cut) = scan c (drop cut s) (Z.of_nat cut).
Proof.
  intros H. unfold indexOf, jslength.
  replace (Z.min (Z.max (Z.of_nat cut) 0) (Z.of_nat (length s)))
    with (Z.of_nat cut) by lia.
  by rewrite Nat2Z.id.
Qed.

Lemma indexOf_miss (s : list N) c (cut : nat) :
  (cut <= length s)%nat ->
  (indexOf s c (Z.of_nat cut) = -1 <-> absent_from s c cut).
Proof.
  intros H. rewrite indexOf_at by done. rewrite scan_miss by lia.
  unfold absent_from. split.
  - intros Hd j Hj. specialize (Hd (j - cut)%nat).
    rewrite lookup_drop in Hd.
    by replace (cut + (j - cut))%nat with j in Hd by lia.
  - intros Ha j. rewrite lookup_drop. apply Ha. lia.
Qed.

Lemma indexOf_hit (s : list N) c (cut : nat) r :
  (cut <= length s)%nat ->
  indexOf s c (Z.of_nat cut) = r -> r <> -1 ->
  exists i : nat, r = Z.of_nat i /\ first_at s c cut i.
Proof.
  intros H Hr Hnot. rewrite indexOf_at in Hr by done.
  destruct (scan_hit _ _ _ _ (Nat2Z.is_nonneg cut) Hr Hnot)
    as (k & -> & Hk & Hlt).
  exists (cut + k)%nat. split; [lia|]. repeat split.
  - lia.
  - by rewrite lookup_drop in Hk.
  - intros j Hj. specialize (Hlt (j - cut)%nat ltac:(lia)).
    rewrite lookup_drop in Hlt.
    by replace (cut + (j - cut))%nat with j in Hlt by lia.
Qed.

Lemma first_at_unique s c cut i j :
  first_at s c cut i -> first_at s c cut j -> i = j.
Proof.
  intros (Hi & Hci & Hmi) (Hj & Hcj & Hmj).
  destruct (Nat.lt_trichotomy i j) as [Hlt|[->|Hlt]]; [|done|].
  - exfalso. apply (Hmj i); [lia | done].
  - exfalso. apply (Hmi j); [lia | done].
Qed.

Lemma first_at_not_absent s c cut i :
  first_at s c cut i -> absent_from s c cut -> False.
Proof. intros (Hi & Hc & _) Ha. by apply (Ha i). Qed.

Lemma first_at_lt s c cut i : first_at s c cut i -> (i < length s)%nat.
Proof. intros (_ & Hc & _). by apply lookup_lt_Some in Hc. Qed.

Lemma slice_at (s : list N) (i : nat) :
  (i <= length s)%nat -> slice s (Z.of_nat i) = drop i s.
Proof.
  intros H. unfold slice, jslength.
  destruct (Z.ltb_spec (Z.of_nat i) 0); [lia|].
  by rewrite Z.min_l, Nat2Z.id by lia.
Qed.

Lemma cutoff_spec buf :
  BUFFER_LIMIT < jslength buf ->
  Z.of_nat (cutoff buf) = jslength buf - BUFFER_LIMIT /\
  (cutoff buf <= length buf)%nat /\
  Z.of_nat (length buf) = Z.of_nat (cutoff buf) + BUFFER_LIMIT.
Proof.
  unfold cutoff, jslength, BUFFER_LIMIT. intros H. lia.
Qed.

Lemma trimToSafeStart_cases buf :
  BUFFER_LIMIT < jslength buf -> trim_case buf (trimToSafeStart buf).
Proof.
  intros Hlen. destruct (cutoff_spec buf Hlen) as (Hcut & Hle & _).
  unfold trimToSafeStart.
  destruct (Z.leb_spec (jslength buf) BUFFER_LIMIT) as [?|_]; [lia|].
  rewrite <- Hcut.
  destruct (Z.eqb_spec (indexOf buf ESC (Z.of_nat (cutoff buf))) (-1))
    as [He|He]; simpl.
  2:{ destruct (indexOf_hit _ _ _ _ Hle eq_refl He) as (i & -> & Hi).
      rewrite slice_at by (apply first_at_lt in Hi; lia).
      by apply at_escape. }
  apply indexOf_miss in He; [|done].
  destruct (Z.eqb_spec (indexOf buf LF (Z.of_nat (cutoff buf))) (-1))
    as [Hn|Hn]; simpl.
  2:{ destruct (indexOf_hit _ _ _ _ Hle eq_refl Hn) as (i & -> & Hi).
      replace (Z.of_nat i + 1) with (Z.of_nat (S i)) by lia.
      rewrite slice_at by (apply first_at_lt in Hi; lia).
      by apply after_newline. }
  apply indexOf_miss in Hn; [|done].
  destruct (Z.eqb_spec (indexOf buf CR (Z.of_nat (cutoff buf))) (-1))
    as [Hc|Hc]; simpl.
  2:{ destruct (indexOf_hit _ _ _ _ Hle eq_refl Hc) as (i & -> & Hi).
      replace (Z.of_nat i + 1) with (Z.of_nat (S i)) by lia.
      rewrite slice_at by (apply first_at_lt in Hi; lia).
      by apply after_return. }
  apply indexOf_miss in Hc; [|done].
  rewrite slice_at by done. by apply hard_cut.
Qed.

(** An escape at or after the cutoff has a first occurrence there. *)
Lemma first_at_exists (s : list N) c (cut k : nat) :
  (cut <= k)%nat -> s !! k = Some c -> exists i, first_at s c cut i.
Proof.
  intros Hk Hc.
  assert (Hle : (cut <= length s)%nat) by (apply lookup_lt_Some in Hc; lia).
  destruct (Z.eq_dec (indexOf s c (Z.of_nat cut)) (-1)) as [Hm|Hh].
  - apply indexOf_miss in Hm; [|done]. by destruct (Hm k Hk).
  - destruct (indexOf_hit _ _ _ _ Hle eq_refl Hh) as (i & _ & Hi). eauto.
Qed.

(** C1. On every buffer longer than the 64 KiB ceiling the trimmed
    buffer starts at the first escape at or after the cutoff
    [length - 65536]; failing that just after the first line feed at or
    after the cutoff; failing that just after the first carriage return
    there; failing that at the cutoff itself. Hence, when an escape
    occurs at or after the cutoff, the trimmed buffer begins with an
    escape introducer, so it starts safely. *)
Theorem trimToSafeStart_selection (buf : list N) :
  BUFFER_LIMIT < jslength buf ->
  (forall i, first_at buf ESC (cutoff buf) i ->
     trimToSafeStart buf = drop i buf) /\
  (forall i, absent_from buf ESC (cutoff buf) ->
     first_at buf LF (cutoff buf) i ->
     trimToSafeStart buf = drop (S i) buf) /\
  (forall i, absent_from buf ESC (cutoff buf) ->
     absent_from buf LF (cutoff buf) ->
     first_at buf CR (cutoff buf) i ->
     trimToSafeStart buf = drop (S i) buf) /\
  (absent_from buf ESC (cutoff buf) -> absent_from buf LF (cutoff buf) ->
     absent_from buf CR (cutoff buf) ->
     trimToSafeStart buf = drop (cutoff buf) buf) /\
  (forall k, (cutoff buf <= k)%nat -> buf !! k = Some ESC ->
     head (trimToSafeStart buf) = Some ESC /\
     starts_safely buf (trimToSafeStart buf)).
Proof.
  intros Hlen. pose proof (trimToSafeStart_cases buf Hlen) as Hcase.
  split; [|split; [|split; [|split]]].
  - intros i Hi. inversion Hcase as [j Hj Heq|j Ha|j Ha|Ha].
    + by rewrite (first_at_unique _ _ _ _ _ Hi Hj).
    + destruct (first_at_not_absent _ _ _ _ Hi Ha).
    + destruct (first_at_not_absent _ _ _ _ Hi Ha).
    + destruct (first_at_not_absent _ _ _ _ Hi Ha).
  - intros i He Hi. inversion Hcase as [j Hj|j _ Hj|j _ Ha|_ Ha].
    + destruct (first_at_not_absent _ _ _ _ Hj He).
    + by rewrite (first_at_unique _ _ _ _ _ Hi Hj).
    + destruct (first_at_not_absent _ _ _ _ Hi Ha).
    + destruct (first_at_not_absent _ _ _ _ Hi Ha).
  - intros i He Hn Hi. inversion Hcase as [j Hj|j _ Hj|j _ _ Hj|_ _ Ha].
    + destruct (first_at_not_absent _ _ _ _ Hj He).
    + destruct (first_at_not_absent _ _ _ _ Hj Hn).
    + by rewrite (first_at_unique _ _ _ _ _ Hi Hj).
    + destruct (first_at_not_absent _ _ _ _ Hi Ha).
  - intros He Hn Hc. inversion Hcase as [j Hj|j _ Hj|j _ _ Hj|_ _ _].
    + destruct (first_at_not_absent _ _ _ _ Hj He).
    + destruct (first_at_not_absent _ _ _ _ Hj Hn).
    + destruct (first_at_not_absent _ _ _ _ Hj Hc).
    + done.
  - intros k Hk Hesc.
    destruct (first_at_exists buf ESC (cutoff buf) k Hk Hesc) as (i & Hi).
    inversion Hcase as [j Hj|j Ha|j Ha|Ha];
      try destruct (first_at_not_absent _ _ _ _ Hi Ha).
    destruct Hj as (_ & Hj & _).
    assert (head (drop j buf) = Some ESC) as Hhead
      by (by rewrite head_lookup, lookup_drop, Nat.add_0_r).
    split; [done | by left].
Qed.

Lemma trimToSafeStart_selection_witness :
  trimToSafeStart sample_buffer = drop 1 sample_buffer.
Proof.
  assert (BUFFER_LIMIT < jslength sample_buffer) as Hlen
    by (vm_compute; reflexivity).
  assert (cutoff sample_buffer = 1%nat) as Hcut by (vm_compute; reflexivity).
  apply (proj1 (trimToSafeStart_selection sample_buffer Hlen)).
  unfold first_at. rewrite Hcut. split; [lia|]. split; [reflexivity|].
  intros j Hj. lia.
Defined.

Lemma trim_case_length buf out :
  BUFFER_LIMIT < jslength buf -> trim_case buf out ->
  jslength out <= BUFFER_LIMIT.
Proof.
  intros Hlen Hcase. destruct (cutoff_spec buf Hlen) as (_ & _ & Hsum).
  unfold jslength in *.
  destruct Hcase as [i Hi|i _ Hi|i _ _ Hi|_ _ _]; rewrite length_drop;
    try (pose proof (first_at_lt _ _ _ _ Hi) as Hlt; apply proj1 in Hi).
  all: unfold BUFFER_LIMIT in *; lia.
Qed.

Lemma trimToSafeStart_id buf :
  jslength buf <= BUFFER_LIMIT -> trimToSafeStart buf = buf.
Proof.
  intros H. unfold trimToSafeStart.
  by destruct (Z.leb_spec (jslength buf) BUFFER_LIMIT); [|lia].
Qed.

Lemma trimToSafeStart_length buf : jslength (trimToSafeStart buf) <= BUFFER_LIMIT.
Proof.
  destruct (Z.le_gt_cases (jslength buf) BUFFER_LIMIT) as [H|H].
  - by rewrite trimToSafeStart_id.
  - apply (trim_case_length buf); [done | by apply trimToSafeStart_cases].
Qed.

End BufferFacts.

(** ** Strings *)

Module StrFacts.
Import Str.
Local Open Scope string_scope.

Lemma chars_str l : chars (str l) = l.
Proof. apply list_ascii_of_string_of_list_ascii. Qed.

Lemma str_chars s : str (chars s) = s.
Proof. apply string_of_list_ascii_of_string. Qed.

Lemma chars_inj s t : chars s = chars t -> s = t.
Proof. intros H. by rewrite <- (str_chars s), <- (str_chars t), H. Qed.

Lemma chars_app s t : chars (s +:+ t) = (chars s ++ chars t)%list.
Proof. induction s as [|c s IH]; simpl; [done | by rewrite <- IH]. Qed.

Lemma chars_length s : length (chars s) = String.length s.
Proof. induction s as [|c s IH]; simpl; [done | by rewrite <- IH]. Qed.

Lemma truthy_spec s : truthy s = true <-> s <> "".
Proof. unfold truthy. destruct (String.eqb_spec s ""); simpl; intuition congruence. Qed.

Lemma truthy_false s : truthy s = false <-> s = "".
Proof. unfold truthy. destruct (String.eqb_spec s ""); simpl; intuition congruence. Qed.

Lemma contains_false c s :
  contains c s = false <-> Forall (fun x => isChar c x = false) (chars s).
Proof.
  unfold contains. induction (chars s) as [|x l IH]; simpl.
  - split; [constructor | done].
  - rewrite orb_false_iff, IH, Forall_cons. tauto.
Qed.

Lemma takeWhile_prefix {A} (p : A -> bool) l :
  exists r, l = (takeWhile p l ++ r)%list.
Proof.
  induction l as [|x l [r IH]]; simpl; [by exists []|].
  destruct (p x); [|by eexists]. exists r. simpl. by rewrite <- IH.
Qed.

Lemma takeWhile_all {A} (p : A -> bool) l :
  Forall (fun x => p x = true) l -> takeWhile p l = l.
Proof.
  induction 1 as [|x l Hx _ IH]; simpl; [done|]. by rewrite Hx, IH.
Qed.

(** The first piece of a split is the text up to the first separator. *)
Lemma splitOn_go_head sep cur l :
  exists rest,
    splitOn_go sep cur l
    = str (rev cur ++ takeWhile (fun c => negb (isChar sep c)) l) :: rest.
Proof.
  revert cur. induction l as [|c l IH]; intros cur; simpl.
  - exists []. by rewrite app_nil_r.
  - destruct (isChar sep c); simpl.
    + eexists. by rewrite app_nil_r.
    + destruct (IH (c :: cur)) as [rest ->]. exists rest.
      simpl. by rewrite <- app_assoc.
Qed.

(** Splitting [l1 ++ sep :: l2] when [l1] holds no separator. *)
Lemma splitOn_go_app sep cur l1 l2 :
  Forall (fun x => isChar sep x = false) l1 ->
  splitOn_go sep cur (l1 ++ sep :: l2)
  = str (rev cur ++ l1) :: splitOn_go sep [] l2.
Proof.
  intros H. revert cur. induction H as [|x l1 Hx _ IH]; intros cur; simpl.
  - unfold isChar at 1. rewrite Ascii.eqb_refl. by rewrite app_nil_r.
  - rewrite Hx, IH. simpl. by rewrite <- app_assoc.
Qed.

Lemma splitOn_join sep p s :
  contains sep p = false ->
  exists rest,
    splitOn sep (p +:+ String sep EmptyString +:+ s)
    = p :: str (takeWhile (fun c => negb (isChar sep c)) (chars s)) :: rest.
Proof.
  intros Hp. apply contains_false in Hp. unfold splitOn.
  rewrite chars_app. simpl. rewrite splitOn_go_app by done. simpl.
  rewrite str_chars. change ("" +:+ s) with s. destruct (splitOn_go_head sep [] (chars s)) as [rest ->].
  by exists rest.
Qed.

Lemma splitOn_join_dotfree sep p s :
  contains sep p = false -> contains sep s = false ->
  exists rest, splitOn sep (p +:+ String sep EmptyString +:+ s) = p :: s :: rest.
Proof.
  intros Hp Hs. destruct (splitOn_join sep p s Hp) as [rest ->].
  exists rest. do 2 f_equal. rewrite takeWhile_all, str_chars; [done|].
  apply contains_false in Hs. eapply Forall_impl; [exact Hs|].
  intros x Hx. simpl in Hx. by rewrite Hx.
Qed.

Lemma dropWhile_idem {A} (p : A -> bool) l :
  dropWhile p (dropWhile p l) = dropWhile p l.
Proof.
  induction l as [|x l IH]; simpl; [done|].
  destruct (p x) eqn:Hx; [done|]. simpl. by rewrite Hx.
Qed.

Lemma dropWhileEnd_idem {A} (p : A -> bool) l :
  dropWhileEnd p (dropWhileEnd p l) = dropWhileEnd p l.
Proof. unfold dropWhileEnd. by rewrite rev_involutive, dropWhile_idem. Qed.

Lemma Forall_dropWhile {A} (P : A -> Prop) (p : A -> bool) l :
  Forall P l -> Forall P (dropWhile p l).
Proof.
  induction 1 as [|x l Hx Hl IH]; simpl; [done|].
  destruct (p x); [done | by constructor].
Qed.

Lemma Forall_dropWhileEnd {A} (P : A -> Prop) (p : A -> bool) l :
  Forall P l -> Forall P (dropWhileEnd p l).
Proof.
  intros H. unfold dropWhileEnd. apply Forall_rev, Forall_dropWhile.
  by apply Forall_rev.
Qed.

Lemma slashify_clean l : Forall (fun c => isChar backslash c = false) (slashify l).
Proof.
  unfold slashify. induction l as [|c l IH]; simpl; constructor; [|done].
  destruct (isChar backslash c) eqn:Hc; [reflexivity | exact Hc].
Qed.

Lemma slashify_id l :
  Forall (fun c => isChar backslash c = false) l -> slashify l = l.
Proof.
  unfold slashify. induction 1 as [|c l Hc _ IH]; simpl; [done|].
  by rewrite Hc, IH.
Qed.

(** Stripping and replacing again changes nothing. *)
Lemma tidy_idem l :
  stripTrailingSlashes (slashify (stripTrailingSlashes (slashify l)))
  = stripTrailingSlashes (slashify l).
Proof.
  unfold stripTrailingSlashes. rewrite slashify_id.
  - apply dropWhileEnd_idem.
  - apply Forall_dropWhileEnd, slashify_clean.
Qed.

End StrFacts.

(** ** The session table *)

Module CliFacts.
Import Js Str Os Buffer Cli BufferSpec BufferFacts CliSpec.
Local Open Scope string_scope.
Local Open Scope Z_scope.

Lemma resolveCwd_outside env cwd :
  resolves_outside env cwd -> exists e, resolveCwd env cwd = Throw e.
Proof.
  intros (real & Hreal & Hh & Ht). unfold resolveCwd.
  destruct (negb (truthy cwd)); [eauto|].
  destruct (fs_stat env (path_resolve env cwd)) as [[|]|]; [|eauto..].
  rewrite Hreal. fold (realHome env) (realTmp env). rewrite Hh, Ht. simpl. eauto.
Qed.

Lemma resolveCwd_outside_directory env cwd :
  resolves_outside env cwd -> cwd <> "" ->
  fs_stat env (path_resolve env cwd) = Some true ->
  resolveCwd env cwd = Throw CwdOutsideSandbox.
Proof.
  intros (real & Hreal & Hh & Ht) Hne Hstat. unfold resolveCwd, truthy.
  destruct (String.eqb_spec cwd ""); [done|]. simpl.
  rewrite Hstat, Hreal. fold (realHome env) (realTmp env). by rewrite Hh, Ht.
Qed.

(** C3, as amended. A [createSession] call whose working directory
    resolves outside the home and temp trees always fails, spawns no
    child process and leaves the session table as it was; the error is
    the sandbox violation whenever the earlier checks (capacity, tool,
    non-empty path of an existing directory) pass. *)
Theorem createSession_outside_sandbox env m input now uuid :
  resolves_outside env (in_cwd input) ->
  (exists e, createSession env m input now uuid = (Throw e, m, [])) /\
  (reaches_sandbox_check env m input ->
   createSession env m input now uuid = (Throw CwdOutsideSandbox, m, [])).
Proof.
  intros Hout. split.
  - unfold createSession.
    destruct (MAX_TOTAL_SESSIONS <=? _); [eauto|].
    destruct (MAX_SESSIONS_PER_PROJECT <=? _); [eauto|].
    destruct (tools m !! in_tool input) as [tc|]; [|eauto].
    destruct (resolveCwd_outside env _ Hout) as (e & ->).
    destruct (available tc) as [[|]|]; eauto.
  - intros (Htot & Hproj & (tc & Htc & Hav) & Hne & Hstat).
    unfold createSession.
    destruct (Z.leb_spec MAX_TOTAL_SESSIONS (Z.of_nat (size (sessions m))));
      [lia|].
    destruct (Z.leb_spec MAX_SESSIONS_PER_PROJECT
                (projectSessions m (in_projectId input))); [lia|].
    rewrite Htc, (resolveCwd_outside_directory env _ Hout Hne Hstat).
    by destruct (available tc) as [[|]|].
Qed.

(** C4. At either ceiling [createSession] throws the capacity error at
    once: whatever the environment, nothing is spawned and the manager
    (hence the session table) is returned unchanged. *)
Theorem createSession_capacity env m input now uuid :
  MAX_SESSIONS_PER_PROJECT <= projectSessions m (in_projectId input) \/
  MAX_TOTAL_SESSIONS <= Z.of_nat (size (sessions m)) ->
  exists e,
    createSession env m input now uuid = (Throw e, m, []) /\
    (e = MaxTotalSessions \/ e = MaxSessionsPerProject).
Proof.
  intros Hfull. unfold createSession.
  destruct (Z.leb_spec MAX_TOTAL_SESSIONS (Z.of_nat (size (sessions m))));
    [eauto|].
  destruct (Z.leb_spec MAX_SESSIONS_PER_PROJECT
              (projectSessions m (in_projectId input))); [eauto|].
  lia.
Qed.

(** C9. The snapshot buffer is bounded: trimming is the identity up to
    the limit and never returns more than the limit; so the buffer
    stored by [appendBuffer], and by the data handler for a live
    session, has at most 65536 code units, and so has every snapshot
    sent on attach. *)
Theorem buffer_always_bounded :
  (forall buf, jslength buf <= BUFFER_LIMIT -> trimToSafeStart buf = buf) /\
  (forall buf, BUFFER_LIMIT < jslength buf ->
     jslength (trimToSafeStart buf) <= BUFFER_LIMIT) /\
  (forall session chunk,
     jslength (buffer (appendBuffer session chunk)) <= BUFFER_LIMIT) /\
  (forall m sessionId data now record,
     sessions m !! sessionId = Some record ->
     exists r, sessions (deliver m sessionId data now).1 !! sessionId = Some r /\
               jslength (buffer r) <= BUFFER_LIMIT) /\
  (forall m sessionId socket data,
     In (Send socket (MsgSnapshot data)) (attachWebSocket m sessionId socket).2 ->
     jslength data <= BUFFER_LIMIT).
Proof.
  assert (Happend : forall session chunk,
             jslength (buffer (appendBuffer session chunk)) <= BUFFER_LIMIT).
  { intros session chunk. unfold appendBuffer.
    destruct (Z.ltb_spec BUFFER_LIMIT (jslength (buffer session ++ chunk)));
      simpl; [apply trimToSafeStart_length | done]. }
  split; [apply trimToSafeStart_id|].
  split; [intros buf _; apply trimToSafeStart_length|].
  split; [done|]. split.
  - intros m sessionId data now record Hrec. unfold deliver, onData.
    rewrite Hrec. simpl. rewrite lookup_insert_eq. eauto.
  - intros m sessionId socket data. unfold attachWebSocket.
    destruct (sessions m !! sessionId) as [session|]; simpl.
    + set (snapshot := trimToSafeStart (buffer session)).
      destruct (0 <? jslength snapshot); simpl.
      * intros [Heq|[Heq|[]]]; [|discriminate].
        injection Heq as <-. apply trimToSafeStart_length.
      * intros [Heq|[]]. discriminate.
    + intros [Heq|[]]. discriminate.
Qed.

Lemma etc_resolves_outside : resolves_outside sample_env "/etc".
Proof. exists "/etc". by vm_compute. Qed.

Lemma createSession_outside_sandbox_witness :
  createSession sample_env fresh_manager etc_input 0 "u1"
  = (Throw CwdOutsideSandbox, fresh_manager, []).
Proof.
  apply (proj2 (createSession_outside_sandbox sample_env fresh_manager
                  etc_input 0 "u1" etc_resolves_outside)).
  repeat split; try (by vm_compute).
  set (found := tools fresh_manager !! in_tool etc_input).
  vm_compute in found. subst found.
  eexists. split; [reflexivity | discriminate].
Defined.

(** C3, as stated, fails: [/etc] exists, is a directory and resolves
    outside the sandbox, yet with the tool probed as unavailable the
    call is rejected with the availability error, and with a full table
    with the capacity error, not with the sandbox violation. *)
Lemma createSession_sandbox_error_counterexample :
  resolves_outside sample_env (in_cwd etc_input) /\
  fs_stat sample_env (in_cwd etc_input) = Some true /\
  createSession sample_env probed_manager etc_input 0 "u1"
  = (Throw (ToolUnavailable "Codex CLI"), probed_manager, []) /\
  createSession sample_env full_manager etc_input 0 "u1"
  = (Throw MaxTotalSessions, full_manager, []).
Proof.
  split; [apply etc_resolves_outside|]. split; [by vm_compute|].
  split; by vm_compute.
Qed.

(** A full table, and a project at its own ceiling. *)
Lemma createSession_capacity_witness :
  (exists e,
     createSession sample_env full_manager etc_input 0 "u1"
     = (Throw e, full_manager, []) /\
     (e = MaxTotalSessions \/ e = MaxSessionsPerProject)) /\
  (exists e,
     createSession sample_env crowded_manager etc_input 0 "u1"
     = (Throw e, crowded_manager, []) /\
     (e = MaxTotalSessions \/ e = MaxSessionsPerProject)).
Proof.
  split; apply createSession_capacity.
  - right. apply Z.leb_le. by vm_compute.
  - left. apply Z.leb_le. by vm_compute.
Defined.

Lemma buffer_always_bounded_witness :
  trimToSafeStart [65%N; 66%N] = [65%N; 66%N] /\
  jslength (trimToSafeStart sample_buffer) <= BUFFER_LIMIT.
Proof.
  destruct buffer_always_bounded as (Hid & Hlen & _). split.
  - apply Hid. by vm_compute.
  - apply Hlen. by vm_compute.
Defined.

End CliFacts.
(** ** Sessions over time *)

Module CliOpsFacts.
Import Js Str Os Buffer Cli WsAuth CliOps BufferSpec BufferFacts CliSpec
  WsAuthSpec CliOpsSpec StrFacts.
Local Open Scope string_scope.
Local Open Scope Z_scope.

(** *** Counting *)

Lemma projectSessions_size m pid :
  projectSessions m pid
  = Z.of_nat (size (filter (fun kv => projectId kv.2 = pid) (sessions m))).
Proof.
  unfold projectSessions. f_equal. rewrite map_filter_alt.
  rewrite map_size_list_to_map; [done|].
  eapply sublist_NoDup; [apply (NoDup_fst_map_to_list (sessions m))|].
  apply (fmap_sublist fst), sublist_filter.
Qed.

Lemma projectSessions_mono m m' pid :
  sessions m' ⊆ sessions m -> projectSessions m' pid <= projectSessions m pid.
Proof.
  intros Hsub. rewrite !projectSessions_size. apply inj_le.
  apply map_subseteq_size. by apply map_filter_subseteq_mono.
Qed.

(** Replacing a record by one of the same project changes no count. *)
Lemma projectSessions_put m sid r r' pid :
  sessions m !! sid = Some r -> projectId r' = projectId r ->
  projectSessions (put m sid r') pid = projectSessions m pid.
Proof.
  intros Hr Hp. rewrite !projectSessions_size. f_equal. unfold put. simpl.
  rewrite map_filter_insert. destruct (decide _) as [Hin|Hout]; simpl in *.
  - apply map_size_insert_Some. exists r.
    apply map_lookup_filter_Some. split; [done|]. simpl. congruence.
  - rewrite map_filter_delete, map_size_delete_None; [done|].
    apply map_lookup_filter_None. right. intros x Hx. simpl.
    assert (x = r) as -> by congruence. congruence.
Qed.

(** A record put into the table adds at most one to the count of its
    own project and nothing to the others. *)
Lemma projectSessions_insert m sid r pid :
  projectSessions (put m sid r) pid
  <= projectSessions m pid + (if decide (projectId r = pid) then 1 else 0).
Proof.
  rewrite !projectSessions_size. unfold put. simpl.
  rewrite map_filter_insert. simpl.
  destruct (decide (projectId r = pid)) as [Hin|Hout].
  - rewrite map_size_insert. destruct (filter _ _ !! sid); simpl; lia.
  - rewrite map_filter_delete, map_size_delete.
    destruct (filter _ _ !! sid); simpl; lia.
Qed.

(** *** The invariant *)

Lemma table_ok_put m sid r r' :
  table_ok m -> sessions m !! sid = Some r ->
  projectId r' = projectId r -> id r' = id r ->
  jslength (buffer r') <= BUFFER_LIMIT ->
  table_ok (put m sid r').
Proof.
  intros (Hsize & Hproj & Hrec) Hr Hp Hid Hbuf. split; [|split].
  - unfold put. simpl. rewrite map_size_insert_Some; [done | by exists r].
  - intros pid. by rewrite (projectSessions_put m sid r).
  - intros k s. unfold put. simpl. rewrite lookup_insert.
    destruct (decide (sid = k)) as [<-|]; [|apply Hrec].
    intros [= <-]. split; [|done]. rewrite Hid. by apply (Hrec sid r).
Qed.

Lemma table_ok_shrink m m' :
  table_ok m -> sessions m' ⊆ sessions m -> table_ok m'.
Proof.
  intros (Hsize & Hproj & Hrec) Hsub. split; [|split].
  - apply map_subseteq_size in Hsub. lia.
  - intros pid. pose proof (projectSessions_mono m m' pid Hsub).
    specialize (Hproj pid). lia.
  - intros k s Hk. apply (Hrec k s). by apply (lookup_weaken _ _ _ _ Hk).
Qed.

Lemma appendBuffer_bounded session chunk :
  jslength (buffer (appendBuffer session chunk)) <= BUFFER_LIMIT.
Proof.
  unfold appendBuffer.
  destruct (Z.ltb_spec BUFFER_LIMIT (jslength (buffer session ++ chunk)));
    simpl; [apply trimToSafeStart_length | done].
Qed.

Lemma sessions_cleanup m sid :
  sessions (cleanup m sid).1 = delete sid (sessions m) /\
  tools (cleanup m sid).1 = tools m.
Proof.
  unfold cleanup. destruct (sessions m !! sid) eqn:Hs; simpl; [done|].
  split; [|done]. symmetry. by apply delete_id.
Qed.

Lemma sessions_onExit m sid code now :
  sessions (onExit m sid code now).1 = delete sid (sessions m) /\
  tools (onExit m sid code now).1 = tools m.
Proof.
  unfold onExit. destruct (sessions m !! sid) as [r|] eqn:Hs; simpl.
  - unfold cleanup, put. simpl. rewrite lookup_insert_eq. simpl.
    split; [|done]. apply delete_insert_eq.
  - split; [|done]. symmetry. by apply delete_id.
Qed.

Lemma sessions_closeSettle m sid exit now :
  sessions (closeSettle m sid exit now).1 = delete sid (sessions m) /\
  tools (closeSettle m sid exit now).1 = tools m.
Proof.
  unfold closeSettle. destruct exit as [code|]; [|apply sessions_cleanup].
  destruct (onExit m sid code now) as [m1 fx1] eqn:H1.
  destruct (cleanup m1 sid) as [m2 fx2] eqn:H2. simpl.
  pose proof (sessions_cleanup m1 sid) as [Hc Hct]. rewrite H2 in Hc, Hct.
  pose proof (sessions_onExit m sid code now) as [He Het].
  rewrite H1 in He, Het. simpl in *.
  rewrite Hc, He, Hct, Het. split; [|done].
  apply delete_id, lookup_delete_eq.
Qed.

Lemma sessions_close m sid exit now :
  sessions (close m sid exit now).1 = delete sid (sessions m) /\
  tools (close m sid exit now).1 = tools m.
Proof.
  unfold close. destruct (sessions m !! sid) eqn:Hs.
  - destruct (closeSettle m sid exit now) as [m' fx] eqn:H. simpl.
    pose proof (sessions_closeSettle m sid exit now) as Hc.
    by rewrite H in Hc.
  - simpl. split; [|done]. symmetry. by apply delete_id.
Qed.

(** The table after several closes: the ids closed are gone, and the
    rest is as it was. *)
Lemma sessions_closeAll m ids exits now :
  sessions (closeAll m ids exits now).1
  = foldl (fun acc sid => delete sid acc) (sessions m) ids /\
  tools (closeAll m ids exits now).1 = tools m.
Proof.
  unfold closeAll.
  set (kills := flat_map _ ids). clearbody kills.
  assert (forall start fx0,
    let r := foldl (fun '(acc, fx) sid =>
                      let '(a, f) := closeSettle acc sid (exits sid) now in
                      (a, (fx ++ f)%list)) (start, fx0) ids in
    sessions r.1 = foldl (fun acc sid => delete sid acc) (sessions start) ids /\
    tools r.1 = tools start) as Hgen.
  { induction ids as [|sid ids IH]; intros start fx0; simpl; [done|].
    destruct (closeSettle start sid (exits sid) now) as [a f] eqn:Ha.
    pose proof (sessions_closeSettle start sid (exits sid) now) as [Hs Ht].
    rewrite Ha in Hs, Ht. simpl in Hs, Ht.
    destruct (IH a (fx0 ++ f)%list) as [IH1 IH2]. simpl in IH1, IH2.
    by rewrite IH1, IH2, Hs, Ht. }
  specialize (Hgen m []). simpl in Hgen.
  by destruct (foldl _ (m, []) ids) as [m' fx].
Qed.

Lemma foldl_delete_subseteq (ids : list string)
    (t : gmap string CliSessionRecord) :
  foldl (fun acc sid => delete sid acc) t ids ⊆ t.
Proof.
  revert t. induction ids as [|sid ids IH]; intros t; simpl; [done|].
  etrans; [apply IH | apply delete_subseteq].
Qed.

Lemma table_ok_tools m tl :
  table_ok m -> table_ok {| sessions := sessions m; tools := tl |}.
Proof. done. Qed.

Lemma createSession_table env m input now uuid :
  let m' := (createSession env m input now uuid).1.2 in
  m' = m \/
  exists r, m' = put m uuid r /\
    Z.of_nat (size (sessions m)) < MAX_TOTAL_SESSIONS /\
    projectSessions m (in_projectId input) < MAX_SESSIONS_PER_PROJECT /\
    id r = uuid /\ projectId r = in_projectId input /\ buffer r = [] /\
    sockets r = [] /\ status r = starting /\ lastActivity r = now.
Proof.
  unfold createSession.
  destruct (Z.leb_spec MAX_TOTAL_SESSIONS (Z.of_nat (size (sessions m))));
    [by left|].
  destruct (Z.leb_spec MAX_SESSIONS_PER_PROJECT
              (projectSessions m (in_projectId input))); [by left|].
  destruct (tools m !! in_tool input) as [tc|]; [|by left].
  assert (forall rest : result Error CliSessionInfo * Manager * list Effect,
            (let m' := rest.1.2 in
             m' = m \/ exists r, m' = put m uuid r /\
               Z.of_nat (size (sessions m)) < MAX_TOTAL_SESSIONS /\
               projectSessions m (in_projectId input)
               < MAX_SESSIONS_PER_PROJECT /\
               id r = uuid /\ projectId r = in_projectId input /\
               buffer r = [] /\ sockets r = [] /\ status r = starting /\
               lastActivity r = now) ->
            (let m' := (match available tc with
                        | Some false =>
                            (Throw (ToolUnavailable (tool_name tc)), m, [])
                        | _ => rest
                        end).1.2 in
             m' = m \/ exists r, m' = put m uuid r /\
               Z.of_nat (size (sessions m)) < MAX_TOTAL_SESSIONS /\
               projectSessions m (in_projectId input)
               < MAX_SESSIONS_PER_PROJECT /\
               id r = uuid /\ projectId r = in_projectId input /\
               buffer r = [] /\ sockets r = [] /\ status r = starting /\
               lastActivity r = now)) as Hav.
  { intros rest Hrest. destruct (available tc) as [[|]|]; [done|by left|done]. }
  apply Hav. clear Hav.
  destruct (resolveCwd env (in_cwd input)) as [d|]; [|by left].
  destruct (pty_spawn env _ _ d) as [h|]; [|by left].
  right. eexists. split; [reflexivity|]. by repeat split.
Qed.

Lemma resize_table m sid cols rows : (resize m sid cols rows).1.2 = m.
Proof. unfold resize. by destruct (sessions m !! sid). Qed.

Lemma table_ok_write m sid text now :
  table_ok m -> table_ok (write m sid text now).1.2.
Proof.
  intros Hok. unfold write. destruct (sessions m !! sid) as [r|] eqn:Hr; [|done].
  simpl. apply (table_ok_put m sid r); try done.
  by apply (proj2 (proj2 Hok) sid r).
Qed.

Lemma table_ok_onMessage c m sid payload now :
  table_ok m -> table_ok (onMessage c m sid payload now).1.
Proof.
  intros Hok. unfold onMessage.
  destruct (JSON_parse c payload) as [parsed|]; [|done].
  destruct (getProp parsed "type") as [ty|]; [|done].
  destruct (getProp parsed "data") as [da|]; [|done].
  destruct (getProp parsed "cols") as [co|]; [|done].
  destruct (getProp parsed "rows") as [ro|]; [|done].
  assert (table_ok
            (match isStr ty "resize", asNumber co, asNumber ro with
             | true, Some cs, Some rs =>
                 ((resize m sid cs rs).1.2, (resize m sid cs rs).2)
             | _, _, _ => (m, [])
             end).1) as Hrs.
  { destruct (isStr ty "resize"), (asNumber co), (asNumber ro); try done.
    simpl. by rewrite resize_table. }
  destruct (isStr ty "input"), (asString da); try done.
  simpl. by apply table_ok_write.
Qed.

Lemma createSession_halves env m input now uuid :
  createSession env m input now uuid
  = match createChecks m input with
    | Throw e => (Throw e, m, [])
    | Ok toolConfig => createResume env m toolConfig input now uuid
    end.
Proof.
  unfold createSession, createChecks, createResume.
  destruct (MAX_TOTAL_SESSIONS <=? _); [done|].
  destruct (MAX_SESSIONS_PER_PROJECT <=? _); [done|].
  destruct (tools m !! in_tool input) as [tc|]; [|done].
  by destruct (available tc) as [[|]|].
Qed.

(** The second half of [createSession] either leaves the table alone
    or puts one record into it, under the fresh id and with an empty
    buffer. *)
Lemma createResume_table env m tc input now uuid :
  let m' := (createResume env m tc input now uuid).1.2 in
  m' = m \/
  exists r, m' = put m uuid r /\ (createResume env m tc input now uuid).1.1
                                 = Ok (toInfo r) /\
    id r = uuid /\ projectId r = in_projectId input /\ buffer r = [].
Proof.
  unfold createResume.
  destruct (resolveCwd env (in_cwd input)) as [d|]; [|by left].
  destruct (pty_spawn env _ _ d) as [h|]; [|by left].
  right. eexists. split; [reflexivity|]. by repeat split.
Qed.

Lemma records_ok_put m sid r :
  records_ok m -> id r = sid -> jslength (buffer r) <= BUFFER_LIMIT ->
  records_ok (put m sid r).
Proof.
  intros Hrec Hid Hbuf k s. unfold put. simpl. rewrite lookup_insert.
  destruct (decide (sid = k)) as [<-|]; [|apply Hrec]. by intros [= <-].
Qed.

Lemma records_ok_shrink m m' :
  records_ok m -> sessions m' ⊆ sessions m -> records_ok m'.
Proof.
  intros Hrec Hsub k s Hk. apply (Hrec k s).
  by apply (lookup_weaken _ _ _ _ Hk).
Qed.

Lemma records_ok_write m sid text now :
  records_ok m -> records_ok (write m sid text now).1.2.
Proof.
  intros Hok. unfold write. destruct (sessions m !! sid) as [r|] eqn:Hr; [|done].
  simpl. destruct (Hok sid r Hr) as [Hid Hbuf]. by apply records_ok_put.
Qed.

Lemma records_ok_onMessage c m sid payload now :
  records_ok m -> records_ok (onMessage c m sid payload now).1.
Proof.
  intros Hok. unfold onMessage.
  destruct (JSON_parse c payload) as [parsed|]; [|done].
  destruct (getProp parsed "type") as [ty|]; [|done].
  destruct (getProp parsed "data") as [da|]; [|done].
  destruct (getProp parsed "cols") as [co|]; [|done].
  destruct (getProp parsed "rows") as [ro|]; [|done].
  assert (records_ok
            (match isStr ty "resize", asNumber co, asNumber ro with
             | true, Some cs, Some rs =>
                 ((resize m sid cs rs).1.2, (resize m sid cs rs).2)
             | _, _, _ => (m, [])
             end).1) as Hrs.
  { destruct (isStr ty "resize"), (asNumber co), (asNumber ro); try done.
    simpl. by rewrite resize_table. }
  destruct (isStr ty "input"), (asString da); try done.
  simpl. by apply records_ok_write.
Qed.

(** Every event keeps the records in order, the second half of an
    overtaken [createSession] included. *)
Lemma records_ok_step env c m ev : records_ok m -> records_ok (step env c m ev).
Proof.
  intros Hok. destruct ev; simpl.
  - destruct (createSession_table env m input now uuid)
      as [->|(r & -> & _ & _ & Hid & _ & Hbuf & _)]; [done|].
    apply records_ok_put; [done..|]. rewrite Hbuf. by vm_compute.
  - destruct (createResume_table env m toolConfig input now uuid)
      as [->|(r & -> & _ & Hid & _ & Hbuf)]; [done|].
    apply records_ok_put; [done..|]. rewrite Hbuf. by vm_compute.
  - unfold deliver. destruct (sessions m !! sessionId) as [r|] eqn:Hr; [|done].
    simpl. apply records_ok_put; [done| |apply appendBuffer_bounded].
    destruct (Hok _ _ Hr) as [<- _]. unfold appendBuffer. by destruct (_ <? _).
  - unfold attachWebSocket.
    destruct (sessions m !! sessionId) as [r|] eqn:Hr; [|done]. simpl.
    destruct (Hok _ _ Hr) as [Hid Hbuf]. by apply records_ok_put.
  - by apply records_ok_onMessage.
  - unfold onClose. destruct (sessions m !! sessionId) as [r|] eqn:Hr; [|done].
    destruct (Hok _ _ Hr) as [Hid Hbuf]. by apply records_ok_put.
  - unfold markRunning.
    destruct (sessions m !! sessionId) as [r|] eqn:Hr; [|done]. simpl.
    destruct (Hok _ _ Hr) as [Hid Hbuf]. by apply records_ok_put.
  - apply (records_ok_shrink m); [done|].
    rewrite (proj1 (sessions_onExit _ _ _ _)). apply delete_subseteq.
  - apply (records_ok_shrink m); [done|].
    rewrite (proj1 (sessions_close _ _ _ _)). apply delete_subseteq.
  - apply (records_ok_shrink m); [done|]. unfold cleanupIdleSessions.
    rewrite (proj1 (sessions_closeAll _ _ _ _)). apply foldl_delete_subseteq.
  - apply (records_ok_shrink m); [done|]. unfold shutdown.
    rewrite (proj1 (sessions_closeAll _ _ _ _)). apply foldl_delete_subseteq.
  - done.
Qed.

(** An event other than such a second half keeps the table within its
    ceilings as well. *)
Lemma table_ok_step env c m ev :
  match ev with EvCreateLate _ _ _ _ => False | _ => True end ->
  table_ok m -> table_ok (step env c m ev).
Proof.
  intros Hev Hok. destruct ev; simpl.
  - destruct (createSession_table env m input now uuid)
      as [->|(r & -> & Htot & Hproj & Hid & Hpid & Hbuf & _)]; [done|].
    destruct Hok as (Hsize & Hcount & Hrec). split; [|split].
    + unfold put. simpl. rewrite map_size_insert.
      destruct (sessions m !! uuid); simpl; lia.
    + intros pid. pose proof (projectSessions_insert m uuid r pid) as Hle.
      specialize (Hcount pid). rewrite Hpid in Hle.
      destruct (decide (in_projectId input = pid)) as [<-|]; lia.
    + intros k s. unfold put. simpl. rewrite lookup_insert.
      destruct (decide (uuid = k)) as [<-|]; [|apply Hrec].
      intros [= <-]. rewrite Hbuf. split; [done|]. by vm_compute.
  - done.
  - unfold deliver. destruct (sessions m !! sessionId) as [r|] eqn:Hr; [|done].
    simpl. apply (table_ok_put m sessionId r); try done.
    + unfold appendBuffer. by destruct (_ <? _).
    + unfold appendBuffer. by destruct (_ <? _).
    + apply appendBuffer_bounded.
  - unfold attachWebSocket.
    destruct (sessions m !! sessionId) as [r|] eqn:Hr; [|done]. simpl.
    apply (table_ok_put m sessionId r); try done.
    by apply (proj2 (proj2 Hok) sessionId r).
  - by apply table_ok_onMessage.
  - unfold onClose. destruct (sessions m !! sessionId) as [r|] eqn:Hr; [|done].
    apply (table_ok_put m sessionId r); try done.
    by apply (proj2 (proj2 Hok) sessionId r).
  - unfold markRunning.
    destruct (sessions m !! sessionId) as [r|] eqn:Hr; [|done]. simpl.
    apply (table_ok_put m sessionId r); try done.
    by apply (proj2 (proj2 Hok) sessionId r).
  - apply (table_ok_shrink m); [done|].
    rewrite (proj1 (sessions_onExit _ _ _ _)). apply delete_subseteq.
  - apply (table_ok_shrink m); [done|].
    rewrite (proj1 (sessions_close _ _ _ _)). apply delete_subseteq.
  - apply (table_ok_shrink m); [done|]. unfold cleanupIdleSessions.
    rewrite (proj1 (sessions_closeAll _ _ _ _)). apply foldl_delete_subseteq.
  - apply (table_ok_shrink m); [done|]. unfold shutdown.
    rewrite (proj1 (sessions_closeAll _ _ _ _)). apply foldl_delete_subseteq.
  - done.
Qed.

Lemma fresh_manager_ok : table_ok fresh_manager.
Proof.
  split; [by vm_compute|]. split.
  - intros pid. by vm_compute.
  - intros sid s. unfold fresh_manager. simpl. by rewrite lookup_empty.
Qed.

(** A record put under an id that is not in the table adds one to the
    count of its project. *)
Lemma projectSessions_fresh m sid r :
  sessions m !! sid = None ->
  projectSessions (put m sid r) (projectId r) = projectSessions m (projectId r) + 1.
Proof.
  intros Hnone. rewrite !projectSessions_size. unfold put. simpl.
  rewrite map_filter_insert_True by done.
  rewrite map_size_insert_None; [lia|].
  apply map_lookup_filter_None. by left.
Qed.

(** What stays true of the session table, and what does not. Whatever
    happens to a manager, on any host and in any order (sessions
    created, output delivered, sockets attached and detached, client
    messages, exits, closes, idle sweeps, shutdown, tool probes), every
    session stays filed under its own id with a buffer of at most 65536
    code units. The two ceilings, 50 sessions and 10 per project, are
    kept as long as no [createSession] call is overtaken between its
    checks and the insertion of its record; a fresh manager starts
    within them. They are not kept otherwise: the second half of
    [createSession] does not look at the table again, so that a call
    which succeeds under a fresh id adds one session to the table and
    to its project whatever these hold by then. *)
Theorem session_table_stays_ok env c :
  (forall m evs, records_ok m -> records_ok (history env c m evs)) /\
  (forall m evs, serial evs -> table_ok m -> table_ok (history env c m evs)) /\
  table_ok fresh_manager /\
  (forall m toolConfig input now uuid info m' fx,
     createResume env m toolConfig input now uuid = (Ok info, m', fx) ->
     sessions m !! uuid = None ->
     size (sessions m') = S (size (sessions m)) /\
     projectSessions m' (in_projectId input)
     = projectSessions m (in_projectId input) + 1).
Proof.
  split; [|split; [|split; [exact fresh_manager_ok|]]].
  - intros m evs. unfold history. revert m.
    induction evs as [|ev evs IH]; intros m Hok; [done|].
    simpl. apply IH. by apply records_ok_step.
  - intros m evs Hs. unfold history. revert m.
    induction Hs as [|ev evs Hev Hs IH]; intros m Hok; [done|].
    simpl. apply IH. by apply table_ok_step.
  - intros m tc input now uuid info m' fx Hrun Hfresh.
    unfold createResume in Hrun.
    destruct (resolveCwd env (in_cwd input)) as [d|]; [|done].
    destruct (pty_spawn env _ _ d) as [h|]; [|done].
    apply (f_equal (fun x => x.1.2)) in Hrun. simpl in Hrun. subst m'.
    split.
    + simpl. by apply map_size_insert_None.
    + match goal with
      | |- projectSessions {| sessions := <[uuid := ?r]> _; tools := _ |} _ = _ =>
          apply (projectSessions_fresh m uuid r Hfresh)
      end.
Qed.

(** The day at the terminal keeps the table within its ceilings on the
    sample host; two overlapping requests against a table that holds
    nine sessions of a project, each of which was let through, leave
    eleven. *)
Lemma session_table_stays_ok_witness :
  table_ok (history sample_env sample_codec fresh_manager a_day) /\
  createChecks nine_sessions proj_input = Ok codex_tool /\
  projectSessions nine_sessions "p1" = 9 /\
  projectSessions (history sample_env sample_codec nine_sessions two_late) "p1"
  = 11.
Proof.
  split; [|by vm_compute].
  apply (proj1 (proj2 (session_table_stays_ok sample_env sample_codec))
           fresh_manager a_day); [|exact fresh_manager_ok].
  unfold serial, a_day. by repeat constructor.
Defined.

(** *** Creation *)

Lemma resolveCwd_within env p d :
  resolveCwd env p = Ok d ->
  p <> "" /\
  fs_stat env (path_resolve env p) = Some true /\
  (exists real, fs_realpath env (path_resolve env p) = Some real /\
                d = path_resolve env real) /\
  under (realHome env) d || under (realTmp env) d = true.
Proof.
  unfold resolveCwd. destruct (truthy p) eqn:Hp; [|done]. simpl.
  apply truthy_spec in Hp.
  destruct (fs_stat env (path_resolve env p)) as [[|]|]; [|done..].
  destruct (fs_realpath env (path_resolve env p)) as [real|]; [|done].
  fold (realHome env) (realTmp env).
  destruct (under (realHome env) _ || under (realTmp env) _) eqn:Hin; [|done].
  simpl. intros [= <-]. split; [done|]. split; [done|]. split; [by exists real|].
  exact Hin.
Qed.

(** What a successful [createSession] has done. If the call returns a
    session, then the table had room (fewer than 50 sessions, fewer
    than 10 of the project), the tool is known and not marked
    unavailable, the working directory is a real directory inside the
    real home or temp tree, and exactly one process was spawned, there,
    with the tool's arguments followed by the caller's. The session
    returned has the fresh id, status [starting], that directory, and
    the given title or else the tool name and the worktree id; the
    table holds it under its id with an empty buffer and no socket, and
    every other session is as before. *)
Theorem createSession_registers env m input now uuid info m' fx :
  createSession env m input now uuid = (Ok info, m', fx) ->
  exists tc d h r,
    Z.of_nat (size (sessions m)) < MAX_TOTAL_SESSIONS /\
    projectSessions m (in_projectId input) < MAX_SESSIONS_PER_PROJECT /\
    tools m !! in_tool input = Some tc /\ available tc <> Some false /\
    resolveCwd env (in_cwd input) = Ok d /\
    fs_stat env (path_resolve env (in_cwd input)) = Some true /\
    under (realHome env) d || under (realTmp env) d = true /\
    pty_spawn env (command tc)
      (args tc ++ default [] (in_commandArgs input)) d = Some h /\
    fx = [Spawn (command tc) (args tc ++ default [] (in_commandArgs input)) d] /\
    info = toInfo r /\
    id r = uuid /\ status r = starting /\ cwd r = d /\
    projectId r = in_projectId input /\ worktreeId r = in_worktreeId input /\
    tool r = tool_id tc /\
    title r = orElse (default "" (in_title input))
                (tool_name tc +:+ " " +:+ middot +:+ " " +:+ in_worktreeId input) /\
    pty r = h /\ buffer r = [] /\ sockets r = [] /\ lastActivity r = now /\
    getSession m' uuid = Some r /\
    tools m' = tools m /\
    (forall k, k <> uuid -> getSession m' k = getSession m k).
Proof.
  unfold createSession.
  destruct (Z.leb_spec MAX_TOTAL_SESSIONS (Z.of_nat (size (sessions m))));
    [done|].
  destruct (Z.leb_spec MAX_SESSIONS_PER_PROJECT
              (projectSessions m (in_projectId input))); [done|].
  destruct (tools m !! in_tool input) as [tc|]; [|done].
  intros Hrun.
  assert (available tc <> Some false /\
          match resolveCwd env (in_cwd input) with
          | Throw e => (Throw e, m, [])
          | Ok resolvedCwd =>
              match pty_spawn env (command tc)
                      (args tc ++ default [] (in_commandArgs input)) resolvedCwd
              with
              | None =>
                  (Throw (SpawnFailed (command tc)), m,
                   [Spawn (command tc)
                      (args tc ++ default [] (in_commandArgs input)) resolvedCwd])
              | Some handle =>
                  let record :=
                    {| id := uuid;
                       title := orElse (default "" (in_title input))
                                  (tool_name tc +:+ " " +:+ middot
                                     +:+ " " +:+ in_worktreeId input);
                       projectId := in_projectId input;
                       worktreeId := in_worktreeId input;
                       cwd := resolvedCwd;
                       tool := tool_id tc;
                       status := starting;
                       createdAt := now;
                       updatedAt := now;
                       pty := handle;
                       buffer := [];
                       sockets := [];
                       lastActivity := now |} in
                  (Ok (toInfo record),
                   {| sessions := <[uuid := record]> (sessions m);
                      tools := tools m |},
                   [Spawn (command tc)
                      (args tc ++ default [] (in_commandArgs input)) resolvedCwd])
              end
          end = (Ok info, m', fx)) as [Hav Hrest].
  { destruct (available tc) as [[|]|]; [|done|]; by split. }
  clear Hrun.
  destruct (resolveCwd env (in_cwd input)) as [d|] eqn:Hcwd; [|done].
  destruct (pty_spawn env _ _ d) as [h|] eqn:Hspawn; [|done].
  injection Hrest as <- <- <-.
  destruct (resolveCwd_within env _ d Hcwd) as (_ & Hstat & _ & Hin).
  eexists tc, d, h, _. repeat split; try done.
  - unfold getSession. simpl. apply lookup_insert_eq.
  - intros k Hk. unfold getSession. simpl. by apply lookup_insert_ne.
Qed.

(** A [codex] session in the project directory of the sample host. *)
Lemma createSession_registers_witness :
  exists info m' r,
    createSession sample_env fresh_manager proj_input 0 "u1"
    = (Ok info, m', [Spawn "codex" ["--full-auto"] "/home/u/proj"]) /\
    getSession m' "u1" = Some r /\ info = toInfo r /\ status r = starting.
Proof.
  destruct (createSession sample_env fresh_manager proj_input 0 "u1")
    as [[[info|e] m'] fx] eqn:Hrun; [|by vm_compute in Hrun].
  destruct (createSession_registers sample_env fresh_manager proj_input 0 "u1"
              info m' fx Hrun)
    as (tc & d & h & r & _ & _ & Htc & _ & Hd & _ & _ & _ & Hfx & Hinfo & _ &
        Hst & _ & _ & _ & _ & _ & _ & _ & _ & _ & Hget & _).
  exists info, m', r. split; [|split; [exact Hget | split; [exact Hinfo | exact Hst]]].
  rewrite Hfx. f_equal. f_equal.
  injection Htc as <-. by injection Hd as <-.
Defined.

(** *** Sockets *)

Lemma addSocket_elem socket k x :
  x ∈ addSocket socket k <-> x = socket \/ x ∈ k.
Proof.
  unfold addSocket. destruct (bool_decide_reflect (socket ∈ k)) as [Hin|Hout].
  - split; [intros ?; by right | by intros [->|?]].
  - rewrite elem_of_app, list_elem_of_singleton. tauto.
Qed.

Lemma deleteSocket_elem socket k x :
  x ∈ deleteSocket socket k <-> x <> socket /\ x ∈ k.
Proof. unfold deleteSocket. by rewrite list_elem_of_filter. Qed.

Lemma broadcast_elem session payload e :
  e ∈ broadcast session payload <->
  exists k, k ∈ sockets session /\ e = Send k payload.
Proof.
  unfold broadcast. rewrite list_elem_of_In, in_map_iff. split.
  - intros (k & <- & Hk). exists k. split; [|done]. by apply list_elem_of_In.
  - intros (k & Hk & ->). exists k. split; [done|]. by apply list_elem_of_In.
Qed.

Lemma deliver_effects m sid data now s e :
  sessions m !! sid = Some s ->
  e ∈ (deliver m sid data now).2 <->
  exists k, k ∈ sockets s /\ e = Send k (MsgData data).
Proof.
  intros Hs. unfold deliver, onData. rewrite Hs. simpl.
  rewrite broadcast_elem.
  assert (sockets (appendBuffer (setActivity s now) data) = sockets s) as ->;
    [|done].
  unfold appendBuffer. by destruct (_ <? _).
Qed.

(** A socket that attaches misses nothing. Attaching to a live session
    whose buffer is within the limit (as every buffer is, by the
    invariant) sends the new socket the whole buffer as one snapshot,
    unless it is empty, and then the status, and nothing to anybody
    else. From then on every chunk of output is sent to that socket,
    and only to the sockets of the session; once the socket has closed
    it is sent nothing more. Attaching to a session that does not
    exist closes the socket with code 4004 and changes nothing. *)
Theorem attach_then_data m sid socket :
  (forall s, sessions m !! sid = Some s ->
     jslength (buffer s) <= BUFFER_LIMIT ->
     (attachWebSocket m sid socket).2
     = ((if 0 <? jslength (buffer s)
         then [Send socket (MsgSnapshot (buffer s))] else [])
        ++ [Send socket (MsgStatus (status s))])%list /\
     (forall data now,
        let sent := (deliver (attachWebSocket m sid socket).1 sid data now).2 in
        Send socket (MsgData data) ∈ sent /\
        (forall e, e ∈ sent ->
           exists k, (k = socket \/ k ∈ sockets s) /\ e = Send k (MsgData data))) /\
     (forall data now e,
        e ∈ (deliver (onClose (attachWebSocket m sid socket).1 sid socket)
               sid data now).2 ->
        exists k, k <> socket /\ k ∈ sockets s /\ e = Send k (MsgData data))) /\
  (sessions m !! sid = None ->
   attachWebSocket m sid socket
   = (m, [CloseSocket socket 4004 "Session not found"])).
Proof.
  split.
  2:{ intros Hnone. unfold attachWebSocket. by rewrite Hnone. }
  intros s Hs Hbuf. unfold attachWebSocket. rewrite Hs. cbn [fst snd].
  set (s' := setSockets s (addSocket socket (sockets s))).
  set (m1 := {| sessions := <[sid := s']> (sessions m); tools := tools m |}).
  assert (sessions m1 !! sid = Some s') as Hs1 by apply lookup_insert_eq.
  split; [|split].
  - change (buffer s') with (buffer s). by rewrite trimToSafeStart_id.
  - intros data now. cbv zeta. split.
    + apply (deliver_effects m1 sid data now s' _ Hs1). exists socket.
      split; [|done]. simpl. apply addSocket_elem. by left.
    + intros e (k & Hk & ->)%(deliver_effects m1 sid data now s' _ Hs1).
      exists k. split; [|done]. simpl in Hk. by apply addSocket_elem in Hk.
  - intros data now e. unfold onClose. rewrite Hs1.
    set (s2 := setSockets s' (deleteSocket socket (sockets s'))).
    assert (sessions (put m1 sid s2) !! sid = Some s2) as Hs2
      by apply lookup_insert_eq.
    intros (k & Hk & ->)%(deliver_effects _ sid data now s2 _ Hs2).
    exists k. simpl in Hk. apply deleteSocket_elem in Hk as [Hnot Hin].
    split; [done|]. split; [|done].
    by apply addSocket_elem in Hin as [Hin|Hin].
Qed.

(** Attaching socket 9 to the watched session. *)
Lemma attach_then_data_witness :
  (attachWebSocket two_sessions "s1" 9%nat).2
  = [Send 9%nat (MsgSnapshot [111; 107]%N); Send 9%nat (MsgStatus running)].
Proof.
  apply (proj1 (attach_then_data two_sessions "s1" 9%nat) watched eq_refl).
  by vm_compute.
Defined.

(** *** The end of a session *)

(** A session that ends is gone for good. When the pty of a live
    session exits, every socket of the session is sent the exit code
    and then every socket is closed, both in the order in which the
    sockets were attached, and the session leaves the table while
    every other session stays. [close] sends the kill first and ends the
    same way whether the pty then exits (the sockets hear the exit
    code) or ignores the kill until the timeout (they are just
    closed). Afterwards the id is unknown: input throws the not-found
    error without reaching any pty, late output and a late exit do
    nothing, and a socket that attaches is closed with 4004. *)
Theorem session_end m sid s now :
  sessions m !! sid = Some s ->
  let gone := {| sessions := delete sid (sessions m); tools := tools m |} in
  let told code := map (fun k => Fx (Send k (MsgExit code))) (sockets s) in
  let closed := map SocketClose (sockets s) in
  (forall code, onExit m sid code now = (gone, (told code ++ closed)%list)) /\
  (forall code,
     close m sid (Some code) now
     = (gone, (PtyKill (pty s) :: told code ++ closed)%list)) /\
  close m sid None now = (gone, PtyKill (pty s) :: closed) /\
  (forall k, k <> sid -> getSession gone k = getSession m k) /\
  getSession gone sid = None /\
  (forall text t, write gone sid text t = (Throw SessionNotFound, gone, [])) /\
  (forall data t, deliver gone sid data t = (gone, [])) /\
  (forall code t, onExit gone sid code t = (gone, [])) /\
  (forall k, attachWebSocket gone sid k
             = (gone, [CloseSocket k 4004 "Session not found"])).
Proof.
  intros Hs gone told closed.
  assert (sessions gone !! sid = None) as Hgone by apply lookup_delete_eq.
  assert (forall code, onExit m sid code now = (gone, (told code ++ closed)%list))
    as Hexit.
  { intros code. unfold onExit. rewrite Hs. unfold cleanup, put. simpl.
    rewrite lookup_insert_eq. simpl. rewrite delete_insert_eq.
    unfold broadcast. simpl. by rewrite map_map. }
  split; [exact Hexit|]. split; [|split; [|split; [|split; [done|]]]].
  - intros code. unfold close, closeSettle. rewrite Hs, Hexit.
    unfold cleanup. rewrite Hgone. by rewrite app_nil_r.
  - unfold close, closeSettle, cleanup. by rewrite Hs.
  - intros k Hk. unfold getSession. simpl. by apply lookup_delete_ne.
  - split; [|split; [|split]].
    + intros text t. unfold write. by rewrite Hgone.
    + intros data t. unfold deliver. by rewrite Hgone.
    + intros code t. unfold onExit. by rewrite Hgone.
    + intros k. unfold attachWebSocket. by rewrite Hgone.
Qed.

(** The watched session is killed and its pty exits with code 0. *)
Lemma session_end_witness :
  exists gone,
    close two_sessions "s1" (Some 0) 20
    = (gone,
       [PtyKill 4%nat; Fx (Send 7%nat (MsgExit 0)); Fx (Send 8%nat (MsgExit 0));
        SocketClose 7%nat; SocketClose 8%nat]) /\
    getSession gone "s1" = None.
Proof.
  destruct (session_end two_sessions "s1" watched 20 eq_refl)
    as (_ & Hclose & _ & _ & Hgone & _).
  exists {| sessions := delete "s1" (sessions two_sessions);
            tools := tools two_sessions |}.
  split; [|exact Hgone]. rewrite (Hclose 0). apply (f_equal (pair _)).
  by vm_compute.
Defined.

(** *** The idle sweep *)

Lemma foldl_delete_lookup (ids : list string)
    (t : gmap string CliSessionRecord) k :
  foldl (fun acc sid => delete sid acc) t ids !! k
  = if bool_decide (k ∈ ids) then None else t !! k.
Proof.
  revert t. induction ids as [|sid ids IH]; intros t; simpl; [done|].
  rewrite IH. destruct (bool_decide (k ∈ ids)) eqn:Hin.
  - apply bool_decide_eq_true in Hin.
    rewrite bool_decide_eq_true_2; [done | by right].
  - apply bool_decide_eq_false in Hin.
    destruct (decide (k = sid)) as [->|Hne].
    + rewrite bool_decide_eq_true_2 by left. apply lookup_delete_eq.
    + rewrite bool_decide_eq_false_2.
      * by apply lookup_delete_ne.
      * intros [?|?]%elem_of_cons; done.
Qed.

Lemma idle_ids (t : gmap string CliSessionRecord) now k :
  k ∈ map fst (filter (fun kv => idle now kv.2 = true) (map_to_list t)) <->
  exists s, t !! k = Some s /\ idle now s = true.
Proof.
  rewrite list_elem_of_In, in_map_iff. split.
  - intros ([k' s] & <- & Hin). apply list_elem_of_In, list_elem_of_filter in Hin
      as [Hidle Hin]. apply elem_of_map_to_list in Hin. by exists s.
  - intros (s & Hs & Hidle). exists (k, s). split; [done|].
    apply list_elem_of_In, list_elem_of_filter. split; [done|].
    by apply elem_of_map_to_list.
Qed.

Lemma idle_false now s :
  sockets s <> [] \/ status s <> running \/
  now - lastActivity s <= SESSION_IDLE_TIMEOUT ->
  idle now s = false.
Proof.
  unfold idle. intros [Hs|[Hs|Hs]].
  - destruct (status s); try done.
    destruct (Nat.eqb_spec (length (sockets s)) 0) as [H0|]; [|done].
    by apply nil_length_inv in H0.
  - by destruct (status s).
  - destruct (status s); try done.
    destruct (Z.ltb_spec SESSION_IDLE_TIMEOUT (now - lastActivity s)); [lia|].
    apply andb_false_r.
Qed.

Lemma sweep_lookup m now exits sid :
  getSession (cleanupIdleSessions m now exits).1 sid
  = match getSession m sid with
    | Some s => if idle now s then None else Some s
    | None => None
    end.
Proof.
  unfold cleanupIdleSessions, getSession.
  rewrite (proj1 (sessions_closeAll _ _ _ _)), foldl_delete_lookup.
  destruct (sessions m !! sid) as [s|] eqn:Hs.
  - destruct (idle now s) eqn:Hidle.
    + rewrite bool_decide_eq_true_2; [done|]. apply idle_ids. by exists s.
    + rewrite bool_decide_eq_false_2; [done|].
      intros (s' & Hs' & Hidle')%idle_ids. congruence.
  - by destruct (bool_decide _).
Qed.

(** The idle sweep closes the idle sessions and only those. After
    [cleanupIdleSessions] a session is gone exactly if it was running,
    had no socket attached and had been without activity for more than
    48 hours; each of these had its pty killed; every other session is
    untouched, and so is the tool table. In particular a session is
    kept while a socket is attached, while it is starting, and for 48
    hours after the last input written to it. *)
Theorem idle_sweep m now exits :
  tools (cleanupIdleSessions m now exits).1 = tools m /\
  (forall sid,
     getSession (cleanupIdleSessions m now exits).1 sid
     = match getSession m sid with
       | Some s => if idle now s then None else Some s
       | None => None
       end) /\
  (forall sid s, getSession m sid = Some s -> idle now s = true ->
     PtyKill (pty s) ∈ (cleanupIdleSessions m now exits).2) /\
  (forall sid s, getSession m sid = Some s ->
     sockets s <> [] \/ status s <> running \/
     now - lastActivity s <= SESSION_IDLE_TIMEOUT ->
     getSession (cleanupIdleSessions m now exits).1 sid = Some s) /\
  (forall sid s text t, getSession m sid = Some s ->
     now - t <= SESSION_IDLE_TIMEOUT ->
     getSession (cleanupIdleSessions (write m sid text t).1.2 now exits).1 sid
     = Some (setActivity s t)).
Proof.
  split; [apply sessions_closeAll|]. split; [apply sweep_lookup|].
  split; [|split].
  - intros sid s Hs Hidle. unfold cleanupIdleSessions, closeAll.
    destruct (foldl _ _ _) as [m' fx]. simpl. apply elem_of_app. left.
    apply list_elem_of_In, in_flat_map. exists sid. split.
    + apply list_elem_of_In, idle_ids. by exists s.
    + unfold getSession in Hs. rewrite Hs. by left.
  - intros sid s Hs Hkeep. rewrite sweep_lookup, Hs.
    by rewrite (idle_false now s Hkeep).
  - intros sid s text t Hs Ht. rewrite sweep_lookup. unfold write.
    unfold getSession in *. rewrite Hs. simpl. rewrite lookup_insert_eq.
    rewrite idle_false; [done|]. right. right. simpl. lia.
Qed.

(** Two days on, the sweep closes the unwatched session and keeps the
    watched one. *)
Lemma idle_sweep_witness :
  getSession (cleanupIdleSessions two_sessions (SESSION_IDLE_TIMEOUT + 11)
                exits_cleanly).1 "s2" = None /\
  getSession (cleanupIdleSessions two_sessions (SESSION_IDLE_TIMEOUT + 11)
                exits_cleanly).1 "s1" = Some watched.
Proof.
  destruct (idle_sweep two_sessions (SESSION_IDLE_TIMEOUT + 11) exits_cleanly)
    as (_ & Hlook & _ & Hkeep & _).
  split.
  - by rewrite (Hlook "s2").
  - apply (Hkeep "s1" watched eq_refl). left. by vm_compute.
Defined.

(** *** Tool probes *)

(** The availability probe decides what can be launched. After
    [detectToolAvailability] the sessions are untouched and a tool is
    marked available exactly if its [--version] call succeeded, its
    version being the first line of the trimmed output; every tool
    keeps its id, name, command and arguments. For a tool whose probe
    failed, [createSession] throws the not-available error (when there
    is room in the table) without spawning anything. *)
Theorem probe_decides_launch env probe m input now uuid tc :
  tools m !! in_tool input = Some tc ->
  let m' := detectToolAvailability probe m in
  sessions m' = sessions m /\
  (exists tc',
     tools m' !! in_tool input = Some tc' /\
     tool_id tc' = tool_id tc /\ tool_name tc' = tool_name tc /\
     command tc' = command tc /\ args tc' = args tc /\
     available tc' = Some (bool_decide (is_Some (probe (command tc)))) /\
     (forall out, probe (command tc) = Some out ->
        version tc' = head (splitOn newline (trim out)))) /\
  (probe (command tc) = None ->
   Z.of_nat (size (sessions m)) < MAX_TOTAL_SESSIONS ->
   projectSessions m (in_projectId input) < MAX_SESSIONS_PER_PROJECT ->
   createSession env m' input now uuid
   = (Throw (ToolUnavailable (tool_name tc)), m', [])).
Proof.
  intros Htc m'. subst m'. split; [done|].
  assert (tools (detectToolAvailability probe m) !! in_tool input
          = Some (probeTool probe tc)) as Hlook.
  { unfold detectToolAvailability. simpl. by rewrite lookup_fmap, Htc. }
  split.
  - exists (probeTool probe tc). split; [done|]. unfold probeTool.
    destruct (probe (command tc)) as [out|]; simpl; repeat split; try done.
    by intros out' [= <-].
  - intros Hfail Htot Hproj. unfold createSession.
    change (sessions (detectToolAvailability probe m)) with (sessions m).
    change (projectSessions (detectToolAvailability probe m))
      with (projectSessions m).
    destruct (Z.leb_spec MAX_TOTAL_SESSIONS (Z.of_nat (size (sessions m))));
      [lia|].
    destruct (Z.leb_spec MAX_SESSIONS_PER_PROJECT
                (projectSessions m (in_projectId input))); [lia|].
    rewrite Hlook. unfold probeTool. by rewrite Hfail.
Qed.

(** Where only [claude] is installed, [codex] cannot be launched. *)
Lemma probe_decides_launch_witness :
  createSession sample_env (detectToolAvailability only_claude fresh_manager)
    proj_input 0 "u1"
  = (Throw (ToolUnavailable "Codex CLI"),
     detectToolAvailability only_claude fresh_manager, []).
Proof.
  destruct (probe_decides_launch sample_env only_claude fresh_manager
              proj_input 0 "u1" _ eq_refl) as (_ & _ & Hrefuse).
  apply Hrefuse; by vm_compute.
Defined.

(** *** Client messages *)

Lemma isStr_spec v t : isStr v t = true <-> v = Some (JStr t).
Proof.
  unfold isStr. destruct v as [[| | |u| |]|]; try (split; done).
  destruct (String.eqb_spec u t) as [->|Hne]; split; try done.
  intros [= ->]. done.
Qed.

Lemma asString_spec v text : asString v = Some text <-> v = Some (JStr text).
Proof.
  unfold asString. destruct v as [[| | |u| |]|]; try (split; done).
  split; by intros [= ->].
Qed.

Lemma asNumber_spec v n : asNumber v = Some n <-> v = Some (JNum n).
Proof.
  unfold asNumber. destruct v as [[| |k| | |]|]; try (split; done).
  split; by intros [= ->].
Qed.

(** A value one of whose properties can be read lets all of them be
    read. *)
Lemma getProp_total parsed name v name' :
  getProp parsed name = Ok v -> exists v', getProp parsed name' = Ok v'.
Proof. destruct parsed; simpl; try done; eauto. Qed.

(** What a client message does. The message handler of a socket never
    throws. A message that parses to a value whose [type] is "input"
    and whose [data] is a string writes exactly that string to the pty
    of the socket's own session and refreshes the session's activity
    time; one whose [type] is "resize" and whose [cols] and [rows] are
    numbers resizes that pty to these, raised to at least 20 columns
    and 4 rows, and leaves the table alone; either does nothing when
    the session is gone. And nothing else has any effect: whenever the
    handler calls a pty or changes the table, the message was one of
    these two and the call is the one described. *)
Theorem onMessage_effects c m sid payload now :
  (forall parsed text,
     JSON_parse c payload = Some parsed ->
     getProp parsed "type" = Ok (Some (JStr "input")) ->
     getProp parsed "data" = Ok (Some (JStr text)) ->
     onMessage c m sid payload now
     = match sessions m !! sid with
       | Some s => (put m sid (setActivity s now), [PtyWrite (pty s) text])
       | None => (m, [])
       end) /\
  (forall parsed cols rows,
     JSON_parse c payload = Some parsed ->
     getProp parsed "type" = Ok (Some (JStr "resize")) ->
     getProp parsed "cols" = Ok (Some (JNum cols)) ->
     getProp parsed "rows" = Ok (Some (JNum rows)) ->
     onMessage c m sid payload now
     = match sessions m !! sid with
       | Some s => (m, [PtyResize (pty s) (Z.max 20 cols) (Z.max 4 rows)])
       | None => (m, [])
       end) /\
  (forall m' fx,
     onMessage c m sid payload now = (m', fx) ->
     (m' = m /\ fx = []) \/
     exists parsed s,
       JSON_parse c payload = Some parsed /\ sessions m !! sid = Some s /\
       ((exists text,
           getProp parsed "type" = Ok (Some (JStr "input")) /\
           getProp parsed "data" = Ok (Some (JStr text)) /\
           m' = put m sid (setActivity s now) /\
           fx = [PtyWrite (pty s) text]) \/
        (exists cols rows,
           getProp parsed "type" = Ok (Some (JStr "resize")) /\
           getProp parsed "cols" = Ok (Some (JNum cols)) /\
           getProp parsed "rows" = Ok (Some (JNum rows)) /\
           m' = m /\
           fx = [PtyResize (pty s) (Z.max 20 cols) (Z.max 4 rows)]))).
Proof.
  split; [|split].
  - intros parsed text Hparse Hty Hda. unfold onMessage. rewrite Hparse, Hty, Hda.
    destruct (getProp_total parsed "type" _ "cols" Hty) as [co ->].
    destruct (getProp_total parsed "type" _ "rows" Hty) as [ro ->].
    simpl. unfold write. by destruct (sessions m !! sid).
  - intros parsed cols rows Hparse Hty Hco Hro. unfold onMessage.
    rewrite Hparse, Hty, Hco, Hro.
    destruct (getProp_total parsed "type" _ "data" Hty) as [da ->].
    simpl. unfold resize. by destruct (sessions m !! sid).
  - intros m' fx. unfold onMessage.
    destruct (JSON_parse c payload) as [parsed|] eqn:Hparse;
      [|intros [= <- <-]; by left].
    destruct (getProp parsed "type") as [ty|] eqn:Hty;
      [|intros [= <- <-]; by left].
    destruct (getProp parsed "data") as [da|] eqn:Hda;
      [|intros [= <- <-]; by left].
    destruct (getProp parsed "cols") as [co|] eqn:Hco;
      [|intros [= <- <-]; by left].
    destruct (getProp parsed "rows") as [ro|] eqn:Hro;
      [|intros [= <- <-]; by left].
    assert (match isStr ty "resize", asNumber co, asNumber ro with
            | true, Some cs, Some rs =>
                ((resize m sid cs rs).1.2, (resize m sid cs rs).2)
            | _, _, _ => (m, [])
            end = (m', fx) ->
            (m' = m /\ fx = []) \/
            exists s, sessions m !! sid = Some s /\
              exists cols rows,
                ty = Some (JStr "resize") /\ co = Some (JNum cols) /\
                ro = Some (JNum rows) /\ m' = m /\
                fx = [PtyResize (pty s) (Z.max 20 cols) (Z.max 4 rows)])
      as Hresize.
    { destruct (isStr ty "resize") eqn:Hr; [|intros [= <- <-]; by left].
      destruct (asNumber co) as [cs|] eqn:Hcs; [|intros [= <- <-]; by left].
      destruct (asNumber ro) as [rs|] eqn:Hrs; [|intros [= <- <-]; by left].
      apply isStr_spec in Hr. apply asNumber_spec in Hcs, Hrs.
      unfold resize. destruct (sessions m !! sid) as [s|] eqn:Hs;
        simpl; intros [= <- <-]; [|by left].
      right. exists s. split; [done|]. by exists cs, rs. }
    destruct (isStr ty "input") eqn:Hi.
    + destruct (asString da) as [text|] eqn:Htext.
      * apply isStr_spec in Hi. apply asString_spec in Htext. subst ty da.
        unfold write. destruct (sessions m !! sid) as [s|] eqn:Hs;
          simpl; intros [= <- <-]; [|by left].
        right. exists parsed, s. split; [done|]. split; [done|].
        left. by exists text.
      * intros Hrun. destruct (Hresize Hrun) as [?|(s & Hs & cols & rows & H)];
          [by left|].
        destruct H as (-> & -> & -> & -> & ->).
        right. exists parsed, s. split; [done|]. split; [done|].
        right. by exists cols, rows.
    + intros Hrun. destruct (Hresize Hrun) as [?|(s & Hs & cols & rows & H)];
        [by left|].
      destruct H as (-> & -> & -> & -> & ->).
      right. exists parsed, s. split; [done|]. split; [done|].
      right. by exists cols, rows.
Qed.

(** An input and a resize sent to the watched session. *)
Lemma onMessage_effects_witness :
  onMessage terminal_codec two_sessions "s1" "input ls" 30
  = (put two_sessions "s1" (setActivity watched 30), [PtyWrite 4%nat "ls"]) /\
  onMessage terminal_codec two_sessions "s1" "resize 10 2" 30
  = (two_sessions, [PtyResize 4%nat 20 4]).
Proof.
  destruct (onMessage_effects terminal_codec two_sessions "s1" "input ls" 30)
    as (Hinput & _ & _).
  destruct (onMessage_effects terminal_codec two_sessions "s1" "resize 10 2" 30)
    as (_ & Hresize & _).
  split.
  - by rewrite (Hinput _ "ls" eq_refl eq_refl eq_refl).
  - by rewrite (Hresize _ 10 2 eq_refl eq_refl eq_refl eq_refl).
Defined.

End CliOpsFacts.

(** ** The token codec *)

Module WsAuthFacts.
Import Str Os WsAuth WsAuthSpec StrFacts.
Local Open Scope string_scope.
Local Open Scope Z_scope.

Lemma verifyBody_segments c token now p s rest :
  splitOn dot token = p :: s :: rest ->
  verifyBody c token now =
    if negb (truthy p) || negb (truthy s) then Ok None
    else if negb (String.eqb s (hmac_base64url c (WS_SECRET c) p)) then Ok None
    else match JSON_parse c (utf8_of_base64url c p) with
         | None => Throw SyntaxError
         | Some payload =>
             match getProp payload "exp" with
             | Throw e => Throw e
             | Ok exp => if lessThan c exp now then Ok None else Ok (Some payload)
             end
         end.
Proof. intros H. unfold verifyBody. by rewrite H. Qed.

Lemma verify_segments c token now p s rest :
  splitOn dot token = p :: s :: rest -> p <> "" -> s <> "" ->
  verifySessionToken c token now =
    if negb (String.eqb s (hmac_base64url c (WS_SECRET c) p)) then None
    else match JSON_parse c (utf8_of_base64url c p) with
         | None => None
         | Some payload =>
             match getProp payload "exp" with
             | Throw e => None
             | Ok exp => if lessThan c exp now then None else Some payload
             end
         end.
Proof.
  intros H Hp Hs. unfold verifySessionToken.
  rewrite (verifyBody_segments c token now p s rest H).
  apply truthy_spec in Hp, Hs. rewrite Hp, Hs. simpl.
  destruct (negb _); [done|].
  destruct (JSON_parse c _) as [payload|]; [|done].
  destruct (getProp payload "exp") as [exp|]; [|done].
  by destruct (lessThan c exp now).
Qed.

Lemma verify_malformed c token now :
  ~ two_segments token -> verifySessionToken c token now = None.
Proof.
  intros Hbad. unfold verifySessionToken, verifyBody.
  destruct (splitOn dot token) as [|p [|s rest]] eqn:Hsplit; simpl.
  - done.
  - by rewrite orb_true_r.
  - destruct (String.eqb_spec p "") as [->|Hp]; [done|].
    destruct (String.eqb_spec s "") as [->|Hs]; [by rewrite orb_true_r|].
    destruct Hbad. by exists p, s, rest.
Qed.

Lemma verify_accepts c token now payload :
  verifySessionToken c token now = Some payload ->
  exists p s rest exp,
    splitOn dot token = p :: s :: rest /\ p <> "" /\ s <> "" /\
    s = hmac_base64url c (WS_SECRET c) p /\
    JSON_parse c (utf8_of_base64url c p) = Some payload /\
    getProp payload "exp" = Ok exp /\ lessThan c exp now = false.
Proof.
  intros Hv.
  destruct (splitOn dot token) as [|p [|s rest]] eqn:Hsplit.
  1,2: unfold verifySessionToken, verifyBody in Hv; rewrite Hsplit in Hv;
       simpl in Hv; rewrite ?orb_true_r in Hv; discriminate.
  destruct (String.eqb_spec p "") as [->|Hp].
  { rewrite verify_malformed in Hv; [done|].
    intros (p' & s' & r' & Heq & Hp' & _). congruence. }
  destruct (String.eqb_spec s "") as [->|Hs].
  { rewrite verify_malformed in Hv; [done|].
    intros (p' & s' & r' & Heq & _ & Hs'). congruence. }
  rewrite (verify_segments c token now p s rest Hsplit Hp Hs) in Hv.
  destruct (String.eqb_spec s (hmac_base64url c (WS_SECRET c) p)) as [Hsig|];
    [|done]. simpl in Hv.
  destruct (JSON_parse c _) as [pl|] eqn:Hparse; [|done].
  destruct (getProp pl "exp") as [exp|] eqn:Hexp; [|done].
  destruct (lessThan c exp now) eqn:Hlt; [done|].
  injection Hv as ->. by exists p, s, rest, exp.
Qed.

Lemma takeWhile_full {A} (p : A -> bool) (l : list A) :
  length (takeWhile p l) = length l -> takeWhile p l = l.
Proof.
  intros Hlen. destruct (takeWhile_prefix p l) as [r Hr].
  rewrite Hr in Hlen at 2. rewrite length_app in Hlen.
  destruct r; [by rewrite app_nil_r in Hr | simpl in Hlen; lia].
Qed.

(** A token whose signature was replaced by a different string of the
    same length is rejected. *)
Lemma verify_tampered c now p sig' :
  dotfree p ->
  String.length sig' = String.length (hmac_base64url c (WS_SECRET c) p) ->
  sig' <> hmac_base64url c (WS_SECRET c) p ->
  verifySessionToken c (p +:+ "." +:+ sig') now = None.
Proof.
  intros Hp Hlen Hne.
  destruct (splitOn_join dot p sig' Hp) as [rest Hsplit].
  set (s := str (takeWhile (fun c => negb (isChar dot c)) (chars sig'))) in *.
  destruct (String.eqb_spec p "") as [->|Hp'].
  { apply verify_malformed. intros (p' & s' & r' & Heq & Hp'' & _).
    change (String dot EmptyString) with "." in Hsplit. congruence. }
  destruct (String.eqb_spec s "") as [Hs|Hs].
  { apply verify_malformed. intros (p' & s' & r' & Heq & _ & Hs').
    change (String dot EmptyString) with "." in Hsplit. congruence. }
  change (String dot EmptyString) with "." in Hsplit.
  rewrite (verify_segments c _ now p s rest Hsplit Hp' Hs).
  destruct (String.eqb_spec s (hmac_base64url c (WS_SECRET c) p)) as [Hsig|];
    [|done].
  exfalso. apply Hne. rewrite <- Hsig. unfold s.
  rewrite takeWhile_full, str_chars; [done|].
  apply (f_equal String.length) in Hsig. unfold s in Hsig.
  rewrite <- !chars_length, chars_str in Hsig.
  rewrite <- !chars_length in Hlen. lia.
Qed.

Lemma verify_accepts_iff c token now payload :
  verifySessionToken c token now = Some payload <->
  exists p s rest exp,
    splitOn dot token = p :: s :: rest /\ p <> "" /\ s <> "" /\
    s = hmac_base64url c (WS_SECRET c) p /\
    JSON_parse c (utf8_of_base64url c p) = Some payload /\
    getProp payload "exp" = Ok exp /\ lessThan c exp now = false.
Proof.
  split; [apply verify_accepts|].
  intros (p & s & rest & exp & Hsplit & Hp & Hs & -> & Hparse & Hexp & Hlt).
  rewrite (verify_segments c token now p _ rest Hsplit Hp Hs).
  by rewrite String.eqb_refl, Hparse, Hexp, Hlt.
Qed.

Lemma dots_app s t : dots (s +:+ t) = (dots s + dots t)%nat.
Proof. unfold dots. by rewrite chars_app, List.filter_app, length_app. Qed.

Lemma dotfree_dots s : dotfree s -> dots s = 0%nat.
Proof.
  unfold dotfree, contains, dots. induction (chars s) as [|ch l IH]; simpl;
    [done|].
  destruct (isChar dot ch); [done|]. exact IH.
Qed.

(** A token in the issued format has exactly one dot, and passes the
    guard. *)
Lemma issued_format_dots token : issued_format token -> dots token = 1%nat.
Proof.
  intros (p & s & Hp & Hs & _ & _ & ->).
  rewrite !dots_app, (dotfree_dots p Hp), (dotfree_dots s Hs). reflexivity.
Qed.

Lemma issued_format_two_segments token :
  issued_format token -> two_segments token.
Proof.
  intros (p & s & Hp & Hs & Hpne & Hsne & ->).
  destruct (splitOn_join_dotfree dot p s Hp Hs) as [rest Hsplit].
  change (String dot EmptyString) with "." in Hsplit.
  by exists p, s, rest.
Qed.

(** C2, as amended. Verification is a total function into [option]
    (what the body throws is caught). A token freshly issued for a
    session id verifies, up to and including its expiry time, to that
    session id and expiry. A token whose payload segment or signature
    segment (the first two pieces between dots) is missing or empty,
    or whose payload does not parse, or whose signature segment differs
    from the recomputed HMAC (in particular a signature altered without
    changing its length), or whose payload carries a numeric expiry
    less than the current time, verifies to [None]. And verification
    accepts exactly the tokens that pass the guard on the two
    segments, the signature comparison, the parse and the expiry
    comparison, among them every token in the issued format that does
    so; what follows a second dot is not looked at, and neither is the
    presence of an expiry. *)
Theorem verifySessionToken_total_exact (c : Codec) :
  (forall sessionId issued now,
     let payload := SessionToken sessionId (issued + TTL) in
     let p := base64url_of_utf8 c (JSON_stringify c payload) in
     let sig := hmac_base64url c (WS_SECRET c) p in
     dotfree p -> p <> "" -> dotfree sig -> sig <> "" ->
     JSON_parse c (utf8_of_base64url c p) = Some payload ->
     now <= issued + TTL ->
     verifySessionToken c (generateSessionToken c sessionId issued) now
     = Some payload) /\
  (forall token now, ~ two_segments token ->
     verifySessionToken c token now = None) /\
  (forall token now p s, segments token p s ->
     JSON_parse c (utf8_of_base64url c p) = None ->
     verifySessionToken c token now = None) /\
  (forall token now p s, segments token p s ->
     s <> hmac_base64url c (WS_SECRET c) p ->
     verifySessionToken c token now = None) /\
  (forall now p sig', dotfree p ->
     String.length sig' = String.length (hmac_base64url c (WS_SECRET c) p) ->
     sig' <> hmac_base64url c (WS_SECRET c) p ->
     verifySessionToken c (p +:+ "." +:+ sig') now = None) /\
  (forall token now p s payload exp, segments token p s ->
     JSON_parse c (utf8_of_base64url c p) = Some payload ->
     getProp payload "exp" = Ok (Some (JNum exp)) -> exp < now ->
     verifySessionToken c token now = None) /\
  (forall token now payload,
     verifySessionToken c token now = Some payload <->
     exists p s rest exp,
       splitOn dot token = p :: s :: rest /\ p <> "" /\ s <> "" /\
       s = hmac_base64url c (WS_SECRET c) p /\
       JSON_parse c (utf8_of_base64url c p) = Some payload /\
       getProp payload "exp" = Ok exp /\ lessThan c exp now = false) /\
  (forall token, issued_format token -> two_segments token).
Proof.
  assert (Hcases : forall token now p s,
             segments token p s ->
             (p <> "" -> s <> "" ->
              forall rest, splitOn dot token = p :: s :: rest ->
              verifySessionToken c token now = None) ->
             verifySessionToken c token now = None).
  { intros token now p s [rest Hsplit] Hgo.
    destruct (String.eqb_spec p "") as [->|Hp].
    { apply verify_malformed. intros (p' & s' & r' & Heq & Hp' & _). congruence. }
    destruct (String.eqb_spec s "") as [->|Hs].
    { apply verify_malformed. intros (p' & s' & r' & Heq & _ & Hs'). congruence. }
    by apply (Hgo Hp Hs rest). }
  split; [|split; [|split; [|split; [|split; [|split; [|split]]]]]].
  - intros sessionId issued now payload p sig Hp Hpne Hsig Hsigne Hparse Hnow.
    unfold generateSessionToken. fold TTL. fold payload. fold p. fold sig.
    destruct (splitOn_join_dotfree dot p sig Hp Hsig) as [rest Hsplit].
    change (String dot EmptyString) with "." in Hsplit.
    rewrite (verify_segments c _ now p sig rest Hsplit Hpne Hsigne).
    fold sig. rewrite String.eqb_refl, Hparse. simpl.
    by destruct (Z.ltb_spec (issued + TTL) now); [lia|].
  - intros token now. apply verify_malformed.
  - intros token now p s Hseg Hparse. apply (Hcases token now p s Hseg).
    intros Hp Hs rest Hsplit.
    rewrite (verify_segments c token now p s rest Hsplit Hp Hs), Hparse.
    by destruct (negb _).
  - intros token now p s Hseg Hne. apply (Hcases token now p s Hseg).
    intros Hp Hs rest Hsplit.
    rewrite (verify_segments c token now p s rest Hsplit Hp Hs).
    by destruct (String.eqb_spec s (hmac_base64url c (WS_SECRET c) p)).
  - intros now p sig'. apply verify_tampered.
  - intros token now p s payload exp Hseg Hparse Hexp Hlt.
    apply (Hcases token now p s Hseg). intros Hp Hs rest Hsplit.
    rewrite (verify_segments c token now p s rest Hsplit Hp Hs), Hparse, Hexp.
    simpl. destruct (Z.ltb_spec exp now); [|lia]. by destruct (negb _).
  - intros token now payload. apply verify_accepts_iff.
  - apply issued_format_two_segments.
Qed.

(** A token issued at time 1000 for session [A] verifies at its expiry
    time under the sample codec, and no longer one millisecond later. *)
Lemma verifySessionToken_total_exact_witness :
  verifySessionToken sample_codec
    (generateSessionToken sample_codec "A" 1000) 3601000
  = Some (SessionToken "A" 3601000) /\
  verifySessionToken sample_codec
    (generateSessionToken sample_codec "A" 1000) 3601001
  = None.
Proof.
  destruct (verifySessionToken_total_exact sample_codec)
    as (Hfresh & _ & _ & _ & _ & Hexpired & _).
  split.
  - apply (Hfresh "A" 1000 3601000); by vm_compute.
  - apply (Hexpired _ 3601001 "sid-A-exp-3601000" "mac14615"
             (SessionToken "A" 3601000) 3601000).
    + exists []. by vm_compute.
    + by vm_compute.
    + reflexivity.
    + lia.
Defined.

(** C2, as stated, fails: verification accepts tokens that are not
    well formed. The token of session [A] with a third segment
    appended is not in the format of a token (it has two dots) and
    verifies as the token itself does; and a correctly signed payload
    that carries no expiry verifies at any time, here long after any
    token issued at time 1000 has expired. *)
Lemma verifySessionToken_malformed_counterexample :
  let garbled := generateSessionToken sample_codec "A" 1000 +:+ ".garbage" in
  let bare := "sid-A." +:+ hmac_base64url lax_codec (WS_SECRET lax_codec) "sid-A" in
  ~ issued_format garbled /\
  verifySessionToken sample_codec garbled 2000
  = Some (SessionToken "A" 3601000) /\
  getProp (JObj [("sessionId", JStr "A")]) "exp" = Ok None /\
  verifySessionToken lax_codec bare 1000000000000
  = Some (JObj [("sessionId", JStr "A")]).
Proof.
  split; [|by vm_compute].
  intros H%issued_format_dots. by vm_compute in H.
Qed.

End WsAuthFacts.

(** ** The project registry *)

Module RegistryFacts.
Import Str Os Registry RegistrySpec StrFacts.
Local Open Scope string_scope.
Local Open Scope Z_scope.

(** C10. [addProject] on a path that is not absolute throws the
    must-be-absolute error at once: the outcome is the same on every
    host (no file-system oracle and no hash is consulted), and the
    registry, table and configuration file included, is returned as it
    was. *)
Theorem addProject_not_absolute env pm projectPath name_ now :
  isAbsolute projectPath = false ->
  addProject env pm projectPath name_ now
  = (Throw (PathNotAbsolute projectPath), pm) /\
  (forall env', addProject env' pm projectPath name_ now
                = addProject env pm projectPath name_ now) /\
  message (PathNotAbsolute projectPath)
  = "Project path must be absolute: received " +:+ quote +:+ projectPath
    +:+ quote.
Proof.
  intros Hrel. unfold addProject. rewrite Hrel. simpl. repeat split.
Qed.

Lemma addProject_not_absolute_witness :
  addProject plain_env empty_registry "worktrees/feat" None 7
  = (Throw (PathNotAbsolute "worktrees/feat"), empty_registry).
Proof.
  apply (proj1 (addProject_not_absolute plain_env empty_registry
                  "worktrees/feat" None 7 eq_refl)).
Defined.

(** *** The title policy *)

Lemma hasSeparator_spec t :
  hasSeparator t = true <->
  contains slash t = true \/ contains underscore t = true.
Proof. unfold hasSeparator. by rewrite orb_true_iff. Qed.

Lemma incomingLooksSluggy_spec t :
  incomingLooksSluggy t = true <-> incoming_looks_generated t.
Proof.
  unfold incomingLooksSluggy, incoming_looks_generated.
  rewrite !orb_true_iff, negb_true_iff, truthy_false, hasSeparator_spec.
  destruct (String.eqb_spec t (slugify t)); intuition congruence.
Qed.

Lemma currentLooksSluggy_spec e t :
  t <> "" -> (currentLooksSluggy e t = true <-> looks_generated e t).
Proof.
  intros Ht. unfold currentLooksSluggy, looks_generated.
  apply truthy_spec in Ht. rewrite Ht. simpl.
  rewrite !orb_true_iff, hasSeparator_spec.
  destruct (String.eqb_spec t (wt_id e)), (String.eqb_spec t (wt_path e)),
    (String.eqb_spec t (basename (wt_path e))),
    (String.eqb_spec t (slugify t)); intuition congruence.
Qed.

(** What [retitle] stores, case by case. *)
Lemma retitle_spec e t :
  t <> "" -> wt_title e <> t ->
  (trim (wt_title e) = "" -> wt_title (retitle e (Some t)).1 = trim t) /\
  (trim (wt_title e) <> "" ->
   looks_generated e (trim (wt_title e)) ->
   ~ incoming_looks_generated (trim t) ->
   wt_title (retitle e (Some t)).1 = trim t) /\
  (trim (wt_title e) <> "" ->
   ~ (looks_generated e (trim (wt_title e)) /\
      ~ incoming_looks_generated (trim t)) ->
   retitle e (Some t) = (e, false)) /\
  wt_id (retitle e (Some t)).1 = wt_id e /\
  wt_path (retitle e (Some t)).1 = wt_path e.
Proof.
  intros Ht Hne. unfold retitle.
  apply truthy_spec in Ht. rewrite Ht.
  destruct (String.eqb_spec (wt_title e) t) as [|_]; [done|]. simpl.
  destruct (truthy (trim (wt_title e))) eqn:Hcur; simpl.
  - apply truthy_spec in Hcur.
    pose proof (currentLooksSluggy_spec e _ Hcur) as Hc.
    pose proof (incomingLooksSluggy_spec (trim t)) as Hi.
    destruct (currentLooksSluggy e (trim (wt_title e))),
      (incomingLooksSluggy (trim t)); simpl; repeat split; try done;
      try (intros; exfalso; intuition congruence).
  - apply truthy_false in Hcur. repeat split; try done.
Qed.

(** The found branch of [ensureWorktreeMetadata] in one equation. *)
Lemma ensureWorktreeMetadata_found env pm pid wp title info i existing :
  projects pm !! pid = Some info ->
  list_find (fun w => canonicalizePath env (wt_path w) = canonicalizePath env wp)
    (worktrees (ensureDefaultWorktree env info)) = Some (i, existing) ->
  let r := retitle (corrected env wp existing) title in
  ensureWorktreeMetadata env pm pid wp title
  = (Some r.1,
     markDirtyIf
       (negb (String.eqb (wt_path existing) (canonicalizePath env wp)) || r.2)
       (store pm pid
          (withWorktrees (ensureDefaultWorktree env info)
             (<[i := r.1]> (worktrees (ensureDefaultWorktree env info)))))).
Proof.
  intros Hinfo Hfind. unfold ensureWorktreeMetadata. rewrite Hinfo, Hfind.
  assert ((if negb (String.eqb (wt_path existing) (canonicalizePath env wp))
           then {| wt_id := wt_id existing;
                   wt_path := canonicalizePath env wp;
                   wt_title := wt_title existing |}
           else existing) = corrected env wp existing) as ->.
  { unfold corrected.
    destruct (String.eqb_spec (wt_path existing) (canonicalizePath env wp))
      as [<-|]; simpl; [by destruct existing | done]. }
  simpl. by destruct (retitle (corrected env wp existing) title).
Qed.

Lemma projects_markDirtyIf b pm : projects (markDirtyIf b pm) = projects pm.
Proof. by destruct b. Qed.

Lemma projects_saveProjects pm : projects (saveProjects pm) = projects pm.
Proof. unfold saveProjects. by destruct (negb (loaded pm)), (negb (dirty pm)). Qed.

(** C8, as amended. When find-or-create meets an entry whose stored
    title is not blank once trimmed, a differing non-empty incoming
    title replaces it (trimmed) exactly when the trimmed stored title
    looks generated (it is the id, the path, the leaf of the path or its
    own slug, or holds a slash or an underscore) and the trimmed incoming
    one does not; so a title that does not look generated is never
    replaced, and nothing is replaced by a title that looks generated.
    A stored title that is blank once trimmed is always replaced. *)
Theorem ensureWorktreeMetadata_title_policy env pm pid wp title info i existing :
  projects pm !! pid = Some info ->
  list_find (fun w => canonicalizePath env (wt_path w) = canonicalizePath env wp)
    (worktrees (ensureDefaultWorktree env info)) = Some (i, existing) ->
  title <> "" -> wt_title existing <> title ->
  let e := corrected env wp existing in
  let current := trim (wt_title existing) in
  let out := ensureWorktreeMetadata env pm pid wp (Some title) in
  exists e',
    out.1 = Some e' /\
    worktrees <$> projects out.2 !! pid
    = Some (<[i := e']> (worktrees (ensureDefaultWorktree env info))) /\
    wt_id e' = wt_id existing /\
    (current <> "" -> looks_generated e current ->
     ~ incoming_looks_generated (trim title) -> wt_title e' = trim title) /\
    (current <> "" ->
     ~ (looks_generated e current /\ ~ incoming_looks_generated (trim title)) ->
     wt_title e' = wt_title existing) /\
    (current <> "" -> ~ looks_generated e current ->
     wt_title e' = wt_title existing) /\
    (current <> "" -> incoming_looks_generated (trim title) ->
     wt_title e' = wt_title existing) /\
    (current = "" -> wt_title e' = trim title).
Proof.
  intros Hinfo Hfind Ht Hne e current out.
  assert (wt_title e <> title) as Hne' by done.
  destruct (retitle_spec e title Ht Hne') as (Hblank & Hover & Hkeep & Hid & _).
  exists (retitle e (Some title)).1. unfold out.
  rewrite (ensureWorktreeMetadata_found env pm pid wp (Some title) info i
             existing Hinfo Hfind). simpl.
  split; [done|]. split.
  { rewrite projects_markDirtyIf. unfold store. simpl.
    by rewrite lookup_insert_eq. }
  split; [exact Hid|]. split; [exact Hover|].
  assert (forall H : current <> "",
            ~ (looks_generated e current /\
               ~ incoming_looks_generated (trim title)) ->
            wt_title (retitle e (Some title)).1 = wt_title existing) as Hk.
  { intros Hc Hn. by rewrite (Hkeep Hc Hn). }
  split; [exact Hk|]. split; [|split].
  - intros Hc Hn. apply (Hk Hc). tauto.
  - intros Hc Hn. apply (Hk Hc). tauto.
  - exact Hblank.
Qed.

Lemma ensureWorktreeMetadata_title_policy_witness :
  wt_title <$>
    (ensureWorktreeMetadata plain_env
       (registry_of (sample_project [defaultEntry "/home/u/proj"; slug_titled]))
       "p1" "/home/u/wt" (Some "My Feature")).1
  = Some "My Feature".
Proof.
  destruct (ensureWorktreeMetadata_title_policy plain_env
              (registry_of (sample_project [defaultEntry "/home/u/proj"; slug_titled]))
              "p1" "/home/u/wt" "My Feature"
              (sample_project [defaultEntry "/home/u/proj"; slug_titled])
              1%nat slug_titled)
    as (e' & -> & _ & _ & Hover & _); try (by vm_compute).
  simpl. f_equal. apply Hover.
  - by vm_compute.
  - left. by vm_compute.
  - vm_compute. intros [H|[H|[H|H]]]; discriminate H.
Defined.

(** C8, as stated, fails: the stored title [" "] is not empty and the
    incoming title ["a_b"] looks generated, yet the incoming title
    replaces the stored one. *)
Lemma title_policy_blank_counterexample :
  wt_title blank_titled <> "" /\
  incoming_looks_generated (trim "a_b") /\
  (ensureWorktreeMetadata plain_env
     (registry_of (sample_project [defaultEntry "/home/u/proj"; blank_titled]))
     "p1" "/home/u/wt" (Some "a_b")).1
  = Some {| wt_id := "feat"; wt_path := "/home/u/wt"; wt_title := "a_b" |}.
Proof.
  split; [by vm_compute|]. split; [|by vm_compute].
  right. right. right. by vm_compute.
Qed.

(** *** The default entry *)

Local Abbreviation isdef := (fun w : WorktreeMetadata => wt_id w = "default").

Lemma isDefault_spec w : isDefault w = true <-> wt_id w = "default".
Proof. unfold isDefault. by destruct (String.eqb_spec (wt_id w) "default"). Qed.

Lemma isDefault_false w : isDefault w = false <-> wt_id w <> "default".
Proof. unfold isDefault. by destruct (String.eqb_spec (wt_id w) "default"). Qed.

Lemma existsb_isDefault l : existsb isDefault l = false <-> filter isdef l = [].
Proof.
  induction l as [|w l IH]; simpl; [done|].
  rewrite filter_cons, orb_false_iff, IH, isDefault_false.
  destruct (decide (wt_id w = "default")); intuition congruence.
Qed.

Lemma filter_updateFirst (f : WorktreeMetadata -> WorktreeMetadata) l d rest :
  (forall w, wt_id (f w) = wt_id w) ->
  filter isdef l = d :: rest ->
  filter isdef (updateFirst isDefault f l) = f d :: rest.
Proof.
  intros Hf. induction l as [|w l IH]; simpl; [done|].
  rewrite filter_cons. destruct (decide (wt_id w = "default")) as [Hw|Hw].
  - intros [= <- <-]. apply isDefault_spec in Hw as Hb. rewrite Hb.
    rewrite filter_cons, decide_True by (by rewrite Hf). done.
  - intros Hl. apply isDefault_false in Hw as Hb. rewrite Hb.
    rewrite filter_cons, decide_False by done. by apply IH.
Qed.

Lemma filter_seedDefault p l :
  filter isdef (seedDefault p l)
  = match filter isdef l with
    | [] => [defaultEntry p]
    | _ :: rest => defaultEntry p :: rest
    end.
Proof.
  unfold seedDefault. destruct (filter isdef l) as [|d rest] eqn:Hl.
  - apply existsb_isDefault in Hl as Hb. rewrite Hb.
    by rewrite filter_app, Hl.
  - destruct (existsb isDefault l) eqn:Hb.
    2:{ apply existsb_isDefault in Hb. congruence. }
    rewrite (filter_updateFirst _ l d rest); [|done|done].
    assert (d ∈ filter isdef l) as Hd by (rewrite Hl; left).
    apply list_elem_of_filter in Hd as [Hd _]. unfold defaultEntry.
    by rewrite Hd.
Qed.

Lemma filter_normalizeEntry env p l :
  filter isdef (map (normalizeEntry env p) l)
  = map (normalizeEntry env p) (filter isdef l).
Proof.
  induction l as [|w l IH]; simpl; [done|].
  rewrite !filter_cons. simpl.
  destruct (decide (wt_id w = "default")); simpl; by rewrite IH.
Qed.

Lemma orElse_same s : orElse s s = s.
Proof. unfold orElse. by destruct (truthy s). Qed.

Lemma normalizeEntry_default env p :
  normalizeEntry env p (defaultEntry p) = defaultEntry (canonicalizePath env p).
Proof. unfold normalizeEntry, defaultEntry. simpl. by rewrite orElse_same. Qed.

(** The default entries after [ensureDefaultWorktree]. *)
Lemma defaults_ensureDefaultWorktree env info :
  let p := canonicalizePath env (path info) in
  defaults (ensureDefaultWorktree env info)
  = defaultEntry (canonicalizePath env p)
    :: map (normalizeEntry env p) (tail (defaults info)).
Proof.
  intros p. unfold defaults, ensureDefaultWorktree. simpl. fold p.
  rewrite filter_normalizeEntry, filter_seedDefault.
  destruct (filter isdef (worktrees info)); simpl;
    by rewrite normalizeEntry_default.
Qed.

Lemma length_defaults_ensureDefaultWorktree env info :
  length (defaults (ensureDefaultWorktree env info))
  = Nat.max 1 (length (defaults info)).
Proof.
  rewrite defaults_ensureDefaultWorktree. simpl. rewrite length_map.
  destruct (defaults info); simpl; lia.
Qed.

(** Normalisation establishes the invariant. *)
Lemma ensureDefaultWorktree_ok env info :
  canonicalizePath env (canonicalizePath env (path info))
  = canonicalizePath env (path info) ->
  (length (defaults info) <= 1)%nat ->
  default_ok (ensureDefaultWorktree env info).
Proof.
  intros Hst Hle. unfold default_ok.
  rewrite defaults_ensureDefaultWorktree, Hst. simpl.
  destruct (defaults info) as [|d [|d' rest]]; simpl in *; [done|done|lia].
Qed.

Lemma default_ok_length info : default_ok info -> length (defaults info) = 1%nat.
Proof. unfold default_ok. by intros ->. Qed.

(** *** Registration *)

Lemma addProject_Ok env pm p n t info pm' :
  addProject env pm p n t = (Ok info, pm') ->
  isAbsolute p = true /\
  fs_stat env (normalizePath env p) = Some true /\
  projects pm' = <[keyOf env p := info]> (projects pm) /\
  info = match projects pm !! keyOf env p with
         | Some existing => refreshed env existing (canonicalizePath env p) n t
         | None => created env (canonicalizePath env p) n t
         end.
Proof.
  unfold addProject, keyOf, canonicalizePath.
  destruct (isAbsolute p); simpl; [|discriminate].
  destruct (fs_stat env (normalizePath env p)) as [[|]|]; [|discriminate..].
  set (cp := match fs_realpath env (normalizePath env p) with
             | Some real => normalizePath env real
             | None => normalizePath env p
             end).
  destruct (projects pm !! getGitProjectId env cp) as [existing|] eqn:Hk.
  - intros [= <- <-].
    rewrite projects_saveProjects, projects_markDirtyIf. by repeat split.
  - intros [= <- <-]. rewrite projects_saveProjects. by repeat split.
Qed.

Lemma addProject_existing env pm p n t existing :
  isAbsolute p = true ->
  fs_stat env (normalizePath env p) = Some true ->
  projects pm !! keyOf env p = Some existing ->
  exists pm',
    addProject env pm p n t
    = (Ok (refreshed env existing (canonicalizePath env p) n t), pm').
Proof.
  unfold addProject, keyOf, canonicalizePath. intros -> -> Hk. simpl.
  rewrite Hk. by eexists.
Qed.

Lemma refreshed_facts env existing cp n t :
  canonicalizePath env cp = cp ->
  let info := refreshed env existing cp n t in
  id info = id existing /\
  path info = cp /\
  name info = (if truthy (trim (default "" n)) then trim (default "" n)
               else name existing) /\
  lastAccessed info = t /\
  (length (defaults info) <= Nat.max 1 (length (defaults existing)))%nat /\
  (defaults existing = [defaultEntry cp] -> defaults info = [defaultEntry cp]).
Proof.
  intros Hst. unfold refreshed.
  set (incoming := trim (default "" n)).
  destruct (String.eqb_spec (path existing) cp) as [Hp|Hp]; simpl.
  - destruct (truthy incoming) eqn:Hi; simpl.
    + destruct (String.eqb_spec (name existing) incoming) as [Hn|Hn]; simpl.
      * repeat split; try done.
        change (defaults (withLastAccessed existing t)) with (defaults existing).
        lia.
      * repeat split; try done.
        -- by rewrite Hp.
        -- change (defaults (withLastAccessed ?i t)) with (defaults i).
           rewrite length_defaults_ensureDefaultWorktree. done.
        -- change (defaults (withLastAccessed ?i t)) with (defaults i).
           intros Hd. rewrite defaults_ensureDefaultWorktree. simpl.
           change (defaults (withName existing incoming)) with (defaults existing).
           by rewrite Hd, Hp, !Hst.
    + repeat split; try done.
      change (defaults (withLastAccessed existing t)) with (defaults existing).
      lia.
  - assert (forall e2 : ProjectInfo,
              path e2 = cp -> id e2 = id existing ->
              defaults e2 = defaults existing ->
              let info := withLastAccessed (ensureDefaultWorktree env e2) t in
              id info = id existing /\ path info = cp /\
              lastAccessed info = t /\
              (length (defaults info) <= Nat.max 1 (length (defaults existing)))%nat /\
              (defaults existing = [defaultEntry cp] ->
               defaults info = [defaultEntry cp])) as Hcase.
    { intros e2 He2 Hid Hd. simpl. rewrite He2, Hst. repeat split; try done.
      - change (defaults (withLastAccessed ?i t)) with (defaults i).
        by rewrite length_defaults_ensureDefaultWorktree, Hd.
      - change (defaults (withLastAccessed ?i t)) with (defaults i).
        intros Hok. rewrite defaults_ensureDefaultWorktree, Hd, Hok, He2. simpl.
        by rewrite !Hst. }
    destruct (truthy incoming) eqn:Hi; simpl.
    + destruct (String.eqb_spec (name existing) incoming) as [Hn|Hn]; simpl.
      * destruct (Hcase (withPath existing cp) eq_refl eq_refl eq_refl)
          as (H1 & H2 & H3 & H4 & H5).
        repeat split; try done.
      * destruct (Hcase (withName (withPath existing cp) incoming)
                    eq_refl eq_refl eq_refl) as (H1 & H2 & H3 & H4 & H5).
        repeat split; try done.
    + destruct (Hcase (withPath existing cp) eq_refl eq_refl eq_refl)
        as (H1 & H2 & H3 & H4 & H5).
      repeat split; try done.
Qed.

Lemma created_facts env cp n t :
  canonicalizePath env cp = cp ->
  let info := created env cp n t in
  id info = getGitProjectId env cp /\ path info = cp /\
  defaults info = [defaultEntry cp].
Proof.
  intros Hst. unfold created. repeat split; simpl; try done.
  rewrite defaults_ensureDefaultWorktree. simpl. by rewrite !Hst.
Qed.

(** C6. Registration is idempotent. The project id is a function of
    the canonical path alone (a truncated hash; neither the contents of
    the file system nor the table are consulted). When a path has been
    registered, registering any path with the same canonical form again
    succeeds, returns the same id, lands on the same table key, adds no
    record (the key set is unchanged and the other records are as they
    were), refreshes that record's path, name and last-accessed time,
    and does not duplicate the default worktree entry; a project that
    was new at the first registration has exactly one default entry
    after both. Provided no other record already had that path, exactly
    one record has it afterwards. *)
Theorem addProject_idempotent env pm p p' n1 n2 t1 t2 info1 pm1 :
  canonicalizePath env (canonicalizePath env p) = canonicalizePath env p ->
  addProject env pm p n1 t1 = (Ok info1, pm1) ->
  canonicalizePath env p' = canonicalizePath env p ->
  isAbsolute p' = true ->
  fs_stat env (normalizePath env p') = Some true ->
  let cp := canonicalizePath env p in
  let key := getGitProjectId env cp in
  (forall env', sha256_hex env' = sha256_hex env ->
     process_cwd env' = process_cwd env ->
     getGitProjectId env' cp = key) /\
  exists info2 pm2,
    addProject env pm1 p' n2 t2 = (Ok info2, pm2) /\
    projects pm1 !! key = Some info1 /\
    projects pm2 !! key = Some info2 /\
    id info2 = id info1 /\
    (projects pm !! key = None -> id info1 = key) /\
    dom (projects pm2) = dom (projects pm1) /\
    (forall k, k <> key -> projects pm2 !! k = projects pm1 !! k) /\
    path info2 = cp /\
    name info2 = (if truthy (trim (default "" n2)) then trim (default "" n2)
                  else name info1) /\
    lastAccessed info2 = t2 /\
    (length (defaults info2) <= Nat.max 1 (length (defaults info1)))%nat /\
    (projects pm !! key = None ->
     defaults info1 = [defaultEntry cp] /\ defaults info2 = [defaultEntry cp]) /\
    ((forall k i, projects pm !! k = Some i -> k <> key -> path i <> cp) ->
     forall k i, projects pm2 !! k = Some i -> path i = cp -> k = key).
Proof.
  intros Hst Hadd Hsame Habs Hstat cp key.
  split.
  { intros env' Hh Hc. unfold key, getGitProjectId. by rewrite Hh, Hc. }
  destruct (addProject_Ok _ _ _ _ _ _ _ Hadd) as (_ & _ & Hpm1 & Hinfo1).
  fold cp in Hinfo1. change (keyOf env p) with key in Hpm1, Hinfo1.
  assert (keyOf env p' = key) as Hkey' by (unfold keyOf; by rewrite Hsame).
  assert (projects pm1 !! key = Some info1) as Hk1
    by (by rewrite Hpm1, lookup_insert_eq).
  destruct (addProject_existing env pm1 p' n2 t2 info1 Habs Hstat)
    as [pm2 Hadd2]; [by rewrite Hkey'|].
  rewrite Hsame in Hadd2. fold cp in Hadd2.
  set (info2 := refreshed env info1 cp n2 t2) in *.
  destruct (addProject_Ok _ _ _ _ _ _ _ Hadd2) as (_ & _ & Hpm2 & _).
  rewrite Hkey' in Hpm2.
  destruct (refreshed_facts env info1 cp n2 t2 Hst)
    as (Hid & Hpath & Hname & Hlast & Hlen & Hdef).
  fold info2 in Hid, Hpath, Hname, Hlast, Hlen, Hdef.
  assert (projects pm !! key = None ->
          id info1 = key /\ defaults info1 = [defaultEntry cp]) as Hfresh.
  { intros Hnone. rewrite Hnone in Hinfo1.
    destruct (created_facts env cp n1 t1 Hst) as (Hi & _ & Hd).
    by rewrite Hinfo1. }
  exists info2, pm2.
  split; [done|]. split; [done|].
  split; [by rewrite Hpm2, lookup_insert_eq|].
  split; [done|]. split; [intros Hn; by destruct (Hfresh Hn)|].
  split; [rewrite Hpm2; apply dom_insert_lookup_L; eauto|].
  split; [intros k Hk; by rewrite Hpm2, lookup_insert_ne|].
  split; [done|]. split; [done|]. split; [done|]. split; [done|].
  split.
  { intros Hn. destruct (Hfresh Hn) as [_ Hd]. split; [done | by apply Hdef]. }
  intros Hother k i Hki Hpi.
  destruct (decide (k = key)) as [|Hne]; [done|]. exfalso.
  rewrite Hpm2, lookup_insert_ne in Hki by done.
  rewrite Hpm1, lookup_insert_ne in Hki by done.
  by apply (Hother k i Hki Hne).
Qed.

Lemma plain_canonical p :
  canonicalizePath plain_env p = normalizePath plain_env (normalizePath plain_env p).
Proof. reflexivity. Qed.

Lemma addProject_idempotent_witness :
  exists info2 pm2,
    addProject plain_env
      (addProject plain_env empty_registry "/home/u/proj" (Some "proj") 1).2
      "/home/u/proj/" (Some "renamed") 2 = (Ok info2, pm2) /\
    id info2 = "/home/u/proj" /\ name info2 = "renamed" /\
    defaults info2 = [defaultEntry "/home/u/proj"].
Proof.
  destruct (addProject_idempotent plain_env empty_registry
              "/home/u/proj" "/home/u/proj/" (Some "proj") (Some "renamed") 1 2
              (created plain_env "/home/u/proj" (Some "proj") 1)
              (addProject plain_env empty_registry "/home/u/proj" (Some "proj") 1).2)
    as (_ & info2 & pm2 & Hadd & _ & _ & Hid & Hkey & _ & _ & _ & Hname & _ & _
        & Hdef & _); try (by vm_compute).
  exists info2, pm2. split; [done|]. split; [|split].
  - rewrite Hid. apply Hkey. by vm_compute.
  - by rewrite Hname.
  - apply Hdef. by vm_compute.
Defined.

(** *** Worktree ids *)

Lemma candidateId_inj base : Inj (=) (=) (candidateId base).
Proof.
  intros a b H. unfold candidateId in H.
  apply (inj (String.app base)) in H. simpl in H.
  injection H as H. change ("" +:+ ?x) with x in H. by apply (inj pretty) in H.
Qed.

Lemma taken_spec reserved c :
  taken reserved c = true <-> c ∈ "default" :: reserved.
Proof.
  unfold taken. rewrite orb_true_iff, bool_decide_eq_true, elem_of_cons.
  destruct (String.eqb_spec c "default"); intuition congruence.
Qed.

Lemma nextFree_Some fuel reserved base k c :
  nextFree fuel reserved base k = Some c -> taken reserved c = false.
Proof.
  revert k. induction fuel as [|fuel IH]; intros k; simpl; [done|].
  destruct (taken reserved (candidateId base k)) eqn:Ht; [apply IH|].
  by intros [= <-].
Qed.

Lemma nextFree_suffix fuel reserved base k c :
  nextFree fuel reserved base k = Some c ->
  exists j : nat, (k <= j)%nat /\ c = candidateId base j.
Proof.
  revert k. induction fuel as [|fuel IH]; intros k; simpl; [done|].
  destruct (taken reserved (candidateId base k)).
  - intros (j & Hj & ->)%IH. exists j. split; [lia | done].
  - intros [= <-]. eauto.
Qed.

Lemma nextFree_None fuel reserved base k :
  nextFree fuel reserved base k = None ->
  forall j, (j < fuel)%nat -> taken reserved (candidateId base (k + j)) = true.
Proof.
  revert k. induction fuel as [|fuel IH]; intros k; simpl; [intros _ j; lia|].
  destruct (taken reserved (candidateId base k)) eqn:Ht; [|done].
  intros Hn [|j] Hj.
  - by rewrite Nat.add_0_r.
  - replace (k + S j)%nat with (S k + j)%nat by lia. apply (IH _ Hn). lia.
Qed.

(** The loop of [generateWorktreeId] ends within the fuel it is given:
    among [2 + n] distinct candidates one is neither among the [n]
    reserved ids nor the reserved word. *)
Lemma generateWorktreeId_total info title :
  is_Some (generateWorktreeId info title).
Proof.
  unfold generateWorktreeId.
  set (base := slugify title). set (reserved := map wt_id (worktrees info)).
  destruct (negb (bool_decide (base ∈ reserved)) && negb (String.eqb base "default"));
    [eauto|].
  destruct (nextFree (2 + length reserved) reserved base 2) as [c|] eqn:Hn;
    [eauto|].
  exfalso. pose proof (nextFree_None _ _ _ _ Hn) as Hall.
  assert (candidateId base <$> seq 2 (2 + length reserved)
          ⊆+ "default" :: reserved) as Hsub.
  { apply NoDup_submseteq.
    - apply (NoDup_fmap_2 _). apply NoDup_seq.
    - intros x (j & -> & Hj)%list_elem_of_fmap. apply elem_of_seq in Hj.
      apply taken_spec. replace j with (2 + (j - 2))%nat by lia.
      apply Hall. lia. }
  apply submseteq_length in Hsub. rewrite length_fmap, length_seq in Hsub.
  simpl in Hsub. lia.
Qed.

Lemma generateWorktreeId_not_default info title newId :
  generateWorktreeId info title = Some newId -> newId <> "default".
Proof.
  unfold generateWorktreeId.
  destruct (negb (bool_decide _) && negb (String.eqb (slugify title) "default"))
    eqn:Hb.
  - intros [= <-]. apply andb_true_iff in Hb as [_ Hb].
    apply negb_true_iff in Hb.
    by destruct (String.eqb_spec (slugify title) "default").
  - intros Hn%nextFree_Some Heq. subst newId. unfold taken in Hn.
    apply orb_false_iff in Hn as [_ Hn]. discriminate Hn.
Qed.

(** The id generated for a new worktree record always exists, is not
    the reserved word and is the id of no record of the project: the
    slug of the title when that is free, else the slug with the first
    free numeric suffix from 2 on. *)
Theorem generateWorktreeId_fresh info title :
  exists newId,
    generateWorktreeId info title = Some newId /\
    newId <> "default" /\
    (newId ∉ map wt_id (worktrees info)) /\
    (newId = slugify title \/
     exists k : nat, (2 <= k)%nat /\ newId = candidateId (slugify title) k).
Proof.
  destruct (generateWorktreeId_total info title) as [newId Hgen].
  exists newId. split; [done|].
  split; [by apply (generateWorktreeId_not_default info title)|].
  unfold generateWorktreeId in Hgen.
  destruct (negb (bool_decide _) && negb (String.eqb (slugify title) "default"))
    eqn:Hb.
  - injection Hgen as <-. apply andb_true_iff in Hb as [Hb _].
    apply negb_true_iff, bool_decide_eq_false in Hb. split; [done | by left].
  - split.
    + apply nextFree_Some in Hgen. unfold taken in Hgen.
      apply orb_false_iff in Hgen as [Hgen _].
      by apply bool_decide_eq_false in Hgen.
    + right. by apply nextFree_suffix in Hgen.
Qed.

Lemma ensureWorktreeMetadata_fresh env pm pid wp title info :
  projects pm !! pid = Some info ->
  list_find (fun w => canonicalizePath env (wt_path w) = canonicalizePath env wp)
    (worktrees (ensureDefaultWorktree env info)) = None ->
  let info' := ensureDefaultWorktree env info in
  let worktreeTitle :=
    orElse (orElse (default "" title) (basename (canonicalizePath env wp)))
      "worktree" in
  ensureWorktreeMetadata env pm pid wp title
  = match generateWorktreeId info' worktreeTitle with
    | None => (None, store pm pid info')
    | Some newId =>
        let metadata := {| wt_id := newId; wt_path := canonicalizePath env wp;
                           wt_title := worktreeTitle |} in
        (Some metadata,
         markDirty (store pm pid
                      (withWorktrees info' (worktrees info' ++ [metadata]))))
    end.
Proof.
  intros Hinfo Hfind. unfold ensureWorktreeMetadata. by rewrite Hinfo, Hfind.
Qed.


(** *** Reads and removal *)

Lemma find_head wid (l : list WorktreeMetadata) :
  find (fun w => String.eqb (wt_id w) wid) l
  = head (filter (fun w => wt_id w = wid) l).
Proof.
  induction l as [|w l IH]; simpl; [done|]. rewrite filter_cons.
  destruct (String.eqb_spec (wt_id w) wid).
  - by rewrite decide_True.
  - by rewrite decide_False.
Qed.

Lemma removeWorktreeMetadata_default env pm pid info :
  projects pm !! pid = Some info ->
  removeWorktreeMetadata env pm pid "default"
  = (Throw CannotRemoveDefault, store pm pid (ensureDefaultWorktree env info)).
Proof. intros Hinfo. unfold removeWorktreeMetadata. by rewrite Hinfo. Qed.

Lemma registry_of_ok info :
  default_ok info -> registry_ok (registry_of info).
Proof.
  intros Hok. split; [|done]. unfold registry_of. simpl. intros pid i.
  rewrite lookup_singleton_Some. by intros [_ <-].
Qed.

End RegistryFacts.
(** ** Reads, writes and restarts of the registry *)

Module RegistryOpsFacts.
Import Str Os Registry RegistrySpec RegistryOpsSpec StrFacts RegistryFacts.
Local Open Scope string_scope.
Local Open Scope Z_scope.

(** *** Settings *)

Lemma applyDefaultSettings_fields s :
  applyDefaultSettings s
  = {| autoPrompt := Some (default true (s ≫= autoPrompt));
       promptCharLimit :=
         Some (clamp (default DEFAULT_PROMPT_LIMIT (s ≫= promptCharLimit))) |}.
Proof. reflexivity. Qed.

Lemma clamp_range n : 1000 <= clamp n <= 20000.
Proof. unfold clamp, MAX_PROMPT_LIMIT, MIN_PROMPT_LIMIT. lia. Qed.

Lemma clamp_id n : 1000 <= n <= 20000 -> clamp n = n.
Proof. unfold clamp, MAX_PROMPT_LIMIT, MIN_PROMPT_LIMIT. lia. Qed.

Lemma applyDefaultSettings_idem s :
  applyDefaultSettings (Some (applyDefaultSettings s)) = applyDefaultSettings s.
Proof.
  rewrite !applyDefaultSettings_fields. simpl. f_equal. f_equal.
  apply clamp_id, clamp_range.
Qed.

Lemma saveProjects_written pm :
  loaded pm = true -> dirty pm = true ->
  saveProjects pm
  = {| projects := projects pm; loaded := true; dirty := false;
       configFile := Some (snapshot pm) |}.
Proof. intros Hl Hd. unfold saveProjects. by rewrite Hl, Hd. Qed.

Lemma snapshot_elem pm k info :
  projects pm !! k = Some info -> stopped_copy info ∈ snapshot pm.
Proof.
  intros H. unfold snapshot. apply list_elem_of_In, in_map_iff.
  exists (k, info). split; [done|]. by apply list_elem_of_In, elem_of_map_to_list.
Qed.

Lemma saveStarted_written pm :
  loaded pm = true -> dirty pm = true -> saveStarted pm = Some (snapshot pm).
Proof. intros Hl Hd. unfold saveStarted. by rewrite Hl, Hd. Qed.

(** An awaited save is the started save followed by its end. *)
Lemma saveProjects_halves pm :
  saveProjects pm
  = match saveStarted pm with
    | Some data => saveFinished pm data
    | None => pm
    end.
Proof.
  unfold saveProjects, saveStarted.
  by destruct (negb (loaded pm)), (negb (dirty pm)).
Qed.

(** Settings are kept within their range and can be read back: an
    update of a known project returns settings in which a field given
    in the request replaces the current one and a field left out keeps
    it, the prompt limit being brought into [1000, 20000] either way,
    and a read after the update returns these very settings and
    changes nothing. The update is not in the configuration file when
    the call returns: the registry is dirty and the file is as it was.
    On a loaded registry the save that the call has started is about
    to write a record of the project with the new settings, and once
    that write is done the file holds it and the registry is clean;
    on a registry that is not loaded no write has been started. An
    update or a read of an unknown project yields nothing and changes
    nothing. *)
Theorem settings_update_read_back pm pid partial info :
  projects pm !! pid = Some info ->
  (exists s pm',
     updateProjectSettings pm pid partial = (Some s, pm') /\
     autoPrompt s
     = Some (default (default true (settings info ≫= autoPrompt))
               (autoPrompt partial)) /\
     promptCharLimit s
     = Some (clamp (default
                      (clamp (default 8000 (settings info ≫= promptCharLimit)))
                      (promptCharLimit partial))) /\
     getProjectSettings pm' pid = (Some s, pm') /\
     dirty pm' = true /\ configFile pm' = configFile pm /\
     (loaded pm = false -> saveStarted pm' = None) /\
     (loaded pm = true ->
      exists data saved,
        saveStarted pm' = Some data /\ saved ∈ data /\
        id saved = id info /\ settings saved = Some s /\
        configFile (saveFinished pm' data) = Some data /\
        dirty (saveFinished pm' data) = false /\
        (getProjectSettings (saveFinished pm' data) pid).1 = Some s)) /\
  (forall other, projects pm !! other = None ->
     updateProjectSettings pm other partial = (None, pm) /\
     getProjectSettings pm other = (None, pm)).
Proof.
  intros Hinfo. split.
  2:{ intros other Hnone. unfold updateProjectSettings, getProjectSettings.
      by rewrite Hnone. }
  unfold updateProjectSettings. rewrite Hinfo.
  set (merged := {| autoPrompt := _; promptCharLimit := _ |}).
  set (s := applyDefaultSettings (Some merged)).
  set (info' := withSettings info (Some s)).
  set (pm' := markDirty (store pm pid info')).
  exists s, pm'.
  assert (projects pm' !! pid = Some info') as Hlook.
  { subst pm'. simpl. apply lookup_insert_eq. }
  assert (applyDefaultSettings (Some s) = s) as Hs.
  { apply applyDefaultSettings_idem. }
  split; [done|]. split; [|split; [|split; [|split; [done|split; [done|split]]]]].
  - subst s merged. rewrite applyDefaultSettings_fields. simpl.
    by destruct (autoPrompt partial).
  - subst s merged. rewrite !applyDefaultSettings_fields. simpl.
    by destruct (promptCharLimit partial).
  - unfold getProjectSettings. rewrite Hlook.
    change (settings info') with (Some s). rewrite Hs. f_equal.
    change (withSettings info' (Some s)) with info'.
    unfold store. rewrite (insert_id _ _ _ Hlook). by destruct pm'.
  - intros Hl. unfold saveStarted. subst pm'. simpl. by rewrite Hl.
  - intros Hl. rewrite saveStarted_written by done.
    exists (snapshot pm'), (stopped_copy info').
    split; [done|]. split; [by apply (snapshot_elem pm' pid)|].
    split; [done|]. split; [simpl; by rewrite Hs|]. split; [done|].
    split; [done|].
    unfold getProjectSettings, saveFinished. simpl. rewrite lookup_insert_eq.
    simpl. by rewrite Hs.
Qed.

(** A limit of 50000 is stored as 20000 and read back as such; the
    file is written by the save that the call leaves running. *)
Lemma settings_update_read_back_witness :
  exists s pm' data,
    updateProjectSettings two_worktrees "p1"
      {| autoPrompt := None; promptCharLimit := Some 50000 |} = (Some s, pm') /\
    promptCharLimit s = Some 20000 /\
    getProjectSettings pm' "p1" = (Some s, pm') /\
    configFile pm' = None /\
    saveStarted pm' = Some data /\
    configFile (saveFinished pm' data) = Some data.
Proof.
  destruct (settings_update_read_back two_worktrees "p1"
              {| autoPrompt := None; promptCharLimit := Some 50000 |}
              (sample_project
                 [defaultEntry "/home/u/proj";
                  {| wt_id := "feat"; wt_path := "/home/u/wt";
                     wt_title := "Feature" |}]) eq_refl)
    as [(s & pm' & Hup & _ & Hlim & Hget & _ & Hfile & _ & Hsave) _].
  destruct (Hsave eq_refl) as (data & saved & Hstart & _ & _ & _ & Hdone & _).
  exists s, pm', data. split; [exact Hup|]. split; [exact Hlim|].
  split; [exact Hget|]. split; [exact Hfile|]. split; [exact Hstart | exact Hdone].
Defined.

(** *** Registration and removal *)


Lemma saveProjects_unloaded pm : loaded pm = false -> saveProjects pm = pm.
Proof. intros Hl. unfold saveProjects. by rewrite Hl. Qed.




(** *** The guards of a save *)

(** The [loaded] flag and the file after the steps that every
    operation is made of. *)
Lemma unloaded_saveProjects pm :
  loaded pm = false ->
  loaded (saveProjects pm) = false /\ configFile (saveProjects pm) = configFile pm.
Proof. intros H. by rewrite saveProjects_unloaded. Qed.

Lemma unloaded_addProject env pm p n t :
  loaded pm = false ->
  loaded (addProject env pm p n t).2 = false /\
  configFile (addProject env pm p n t).2 = configFile pm.
Proof.
  intros Hl. unfold addProject.
  destruct (negb (isAbsolute p)); [done|].
  destruct (fs_stat env (normalizePath env p)) as [[|]|]; [|done..].
  destruct (projects pm !! _) as [existing|]; cbn [snd].
  - rewrite saveProjects_unloaded; [|by destruct (_ || _)].
    by destruct (_ || _).
  - by rewrite saveProjects_unloaded.
Qed.

Lemma unloaded_ensureWorktreeMetadata env pm pid wp title :
  loaded pm = false ->
  loaded (ensureWorktreeMetadata env pm pid wp title).2 = false /\
  configFile (ensureWorktreeMetadata env pm pid wp title).2 = configFile pm.
Proof.
  intros Hl. unfold ensureWorktreeMetadata.
  destruct (projects pm !! pid) as [info|]; [|done].
  destruct (list_find _ _) as [[i existing]|].
  - destruct (retitle _ title) as [e2 renamed]. cbn [snd].
    by destruct (_ || renamed).
  - by destruct (generateWorktreeId _ _).
Qed.

(** Nothing is written before the load has finished: while the
    [loaded] flag is down, no operation other than the load itself
    raises it or touches the configuration file, whatever it changes
    in memory. A shutdown that comes before the load has finished
    therefore leaves the file of the previous run as it is. *)
Theorem nothing_written_before_load env pm op :
  loaded pm = false ->
  (forall now, op <> OpLoad now) ->
  loaded (run env op pm) = false /\
  configFile (run env op pm) = configFile pm.
Proof.
  intros Hl Hop. destruct op; simpl.
  - by destruct (Hop now).
  - by apply unloaded_saveProjects.
  - by apply unloaded_saveProjects.
  - by apply unloaded_addProject.
  - unfold getProjectSettings. by destruct (projects pm !! projectId).
  - unfold updateProjectSettings.
    by destruct (projects pm !! projectId).
  - unfold removeProject.
    destruct (projects pm !! projectId); [|done]. cbn [snd].
    by rewrite saveProjects_unloaded.
  - unfold getWorktrees. by destruct (projects pm !! projectId).
  - unfold findWorktreeById. by destruct (projects pm !! projectId).
  - by apply unloaded_ensureWorktreeMetadata.
  - unfold updateWorktreeTitle.
    destruct (projects pm !! projectId); [|done].
    by destruct (list_find _ _) as [[i m]|].
  - unfold removeWorktreeMetadata.
    destruct (projects pm !! projectId); [|done].
    destruct (String.eqb worktreeId "default"); [done|]. cbn [snd].
    by destruct (negb _).
Qed.

(** A project added while the file of an earlier run is still being
    loaded does not replace that file. *)
Lemma nothing_written_before_load_witness :
  configFile (run plain_env (OpAdd "/home/u/other" None 5) loading)
  = configFile loading.
Proof.
  apply (nothing_written_before_load plain_env loading
           (OpAdd "/home/u/other" None 5) eq_refl).
  intros now. discriminate.
Defined.

(** *** Save and load *)

Lemma reloaded_stopped_copy env info :
  reloaded env (stopped_copy info) = reloaded env info.
Proof.
  unfold reloaded, stopped_copy, ensureDefaultWorktree. simpl.
  by rewrite applyDefaultSettings_idem.
Qed.

(** The table after the loop of [loadProjects] over records with
    distinct ids whose directories exist. *)
Lemma foldl_loadOne_lookup env (l : list ProjectInfo) table k :
  NoDup (map id l) ->
  (forall i, i ∈ l -> fs_stat env (path i) = Some true) ->
  foldl (loadOne env) table l !! k
  = match find (fun i => String.eqb (id i) k) l with
    | Some i => Some (reloaded env i)
    | None => table !! k
    end.
Proof.
  revert table. induction l as [|x l IH]; intros table Hnd Hdir; [done|].
  apply NoDup_cons in Hnd as [Hx Hnd]. simpl.
  rewrite IH; [|done|intros i Hi; apply Hdir; by right].
  unfold loadOne. rewrite (Hdir x) by left.
  destruct (String.eqb_spec (id x) k) as [Hk|Hne].
  - destruct (find _ l) as [i|] eqn:Hf.
    + apply find_some in Hf as [Hin Heq]. apply String.eqb_eq in Heq.
      destruct Hx. rewrite Hk, <- Heq. apply list_elem_of_In, in_map, Hin.
    + rewrite Hk. apply lookup_insert_eq.
  - destruct (find _ l); [done|]. by apply lookup_insert_ne.
Qed.

Lemma snapshot_ids env pm :
  well_keyed env pm -> map id (snapshot pm) = map fst (map_to_list (projects pm)).
Proof.
  intros Hk. unfold snapshot. rewrite map_map. apply map_ext_in.
  intros [k info] Hin. apply list_elem_of_In, elem_of_map_to_list in Hin.
  simpl. by destruct (Hk k info Hin).
Qed.

Lemma snapshot_inv pm i :
  i ∈ snapshot pm ->
  exists k info, projects pm !! k = Some info /\ i = stopped_copy info.
Proof.
  unfold snapshot. intros Hin.
  apply list_elem_of_In, in_map_iff in Hin as ([k info] & <- & Hin).
  apply list_elem_of_In, elem_of_map_to_list in Hin. by exists k, info.
Qed.

Lemma snapshot_find env pm k :
  well_keyed env pm ->
  find (fun i => String.eqb (id i) k) (snapshot pm)
  = stopped_copy <$> projects pm !! k.
Proof.
  intros Hk. destruct (find _ (snapshot pm)) as [i|] eqn:Hf.
  - apply find_some in Hf as [Hin Heq]. apply String.eqb_eq in Heq.
    apply list_elem_of_In, snapshot_inv in Hin as (k' & info & Hinfo & ->).
    destruct (Hk k' info Hinfo) as [Hid _]. simpl in Heq.
    assert (k' = k) as -> by congruence. by rewrite Hinfo.
  - destruct (projects pm !! k) as [info|] eqn:Hinfo; [|done].
    pose proof (find_none _ _ Hf (stopped_copy info)) as Hnone.
    simpl in Hnone. destruct (Hk k info Hinfo) as [Hid _].
    rewrite Hid, String.eqb_refl in Hnone.
    discriminate Hnone. apply list_elem_of_In. by apply (snapshot_elem pm k).
Qed.

(** Save and load. When a loaded registry with unsaved changes is
    saved and a new process loads the file, the new table has the
    same keys and holds for every project what loading makes of its
    record: the record with status running, its paths made canonical
    and its default entry and settings normalized, with the same id,
    name and last-accessed time. The new registry is loaded and
    clean and has not touched the file. If every record of the old
    table was in that normal form already, the table is restored
    exactly. The table is assumed to be keyed by the ids of its
    records, not to be empty, and every project directory to exist
    still (a project whose directory is gone is dropped by the load,
    and an empty table is seeded). *)
Theorem save_then_load env pm now :
  loaded pm = true -> dirty pm = true ->
  well_keyed env pm ->
  projects pm <> ∅ ->
  let pm' := loadProjects env (restart (saveProjects pm)) now in
  projects pm' = reloaded env <$> projects pm /\
  (forall k info, projects pm' !! k = Some info ->
     exists old, projects pm !! k = Some old /\ id info = id old /\
                 name info = name old /\ lastAccessed info = lastAccessed old) /\
  loaded pm' = true /\ dirty pm' = false /\
  configFile pm' = configFile (saveProjects pm) /\
  ((forall k info, projects pm !! k = Some info -> reloaded env info = info) ->
   projects pm' = projects pm).
Proof.
  intros Hl Hd Hkeys Hne pm'. subst pm'.
  rewrite saveProjects_written by done. unfold loadProjects, restart. simpl.
  assert (foldl (loadOne env) ∅ (snapshot pm) = reloaded env <$> projects pm)
    as Htable.
  { apply map_eq. intros k. rewrite foldl_loadOne_lookup.
    - rewrite (snapshot_find env) by done. rewrite lookup_fmap.
      destruct (projects pm !! k) as [info|]; simpl; [|done].
      by rewrite reloaded_stopped_copy.
    - rewrite (snapshot_ids env) by done. apply NoDup_fst_map_to_list.
    - intros i (k' & info & Hinfo & ->)%snapshot_inv. simpl.
      by destruct (Hkeys k' info Hinfo). }
  rewrite Htable.
  assert (size (reloaded env <$> projects pm) <> 0%nat) as Hsize.
  { rewrite map_size_fmap. intros H0. by apply map_size_empty_iff in H0. }
  apply Nat.eqb_neq in Hsize. rewrite Hsize. simpl.
  split; [done|]. split; [|split; [done|split; [done|split; [done|]]]].
  - intros k info. rewrite lookup_fmap.
    destruct (projects pm !! k) as [old|]; simpl; [|done].
    intros [= <-]. by exists old.
  - intros Hnormal. apply map_eq. intros k. rewrite lookup_fmap.
    destruct (projects pm !! k) as [old|] eqn:Hold; simpl; [|done].
    by rewrite (Hnormal k old Hold).
Qed.

Lemma unsaved_well_keyed : well_keyed plain_env unsaved.
Proof.
  intros k info. unfold unsaved, two_worktrees, registry_of. simpl.
  rewrite lookup_singleton_Some. by intros [<- <-].
Qed.

Lemma unsaved_not_empty : projects unsaved <> ∅.
Proof.
  intros H. apply (f_equal (fun t => t !! "p1")) in H.
  by vm_compute in H.
Qed.

(** The registry with two worktrees, saved and loaded again on the
    plain host. *)
Lemma save_then_load_witness :
  projects (loadProjects plain_env (restart (saveProjects unsaved)) 9)
  = reloaded plain_env <$> projects unsaved /\
  loaded (loadProjects plain_env (restart (saveProjects unsaved)) 9) = true.
Proof.
  destruct (save_then_load plain_env unsaved 9 eq_refl eq_refl
              unsaved_well_keyed unsaved_not_empty)
    as (Htable & _ & Hloaded & _).
  split; [exact Htable | exact Hloaded].
Defined.



(** What the loop of [loadProjects] puts into the table comes from a
    record of the file whose directory exists. *)
Lemma foldl_loadOne_origin env (l : list ProjectInfo) table k info :
  foldl (loadOne env) table l !! k = Some info ->
  table !! k = Some info \/
  exists rec, rec ∈ l /\ id rec = k /\ fs_stat env (path rec) = Some true /\
              info = reloaded env rec.
Proof.
  revert table. induction l as [|x l IH]; intros table; simpl; [by left|].
  intros [H|(rec & Hin & Hrest)]%IH.
  - unfold loadOne in H.
    destruct (fs_stat env (path x)) as [[|]|] eqn:Hstat; try by left.
    rewrite lookup_insert in H. destruct (decide (id x = k)) as [Hk|Hk].
    + injection H as <-. right. exists x. split; [left|done].
    + by left.
  - right. exists rec. split; [by right | done].
Qed.



(** *** Worktree ids *)

Lemma ids_updateFirst (p : WorktreeMetadata -> bool)
    (f : WorktreeMetadata -> WorktreeMetadata) l :
  (forall w, wt_id (f w) = wt_id w) ->
  map wt_id (updateFirst p f l) = map wt_id l.
Proof.
  intros Hf. induction l as [|w l IH]; simpl; [done|].
  destruct (p w); simpl; [by rewrite Hf | by rewrite IH].
Qed.

Lemma existsb_isDefault_ids l :
  existsb isDefault l = false -> "default" ∉ map wt_id l.
Proof.
  induction l as [|w l IH]; simpl; [intros _; apply not_elem_of_nil|].
  intros [Hw Hl]%orb_false_iff. apply isDefault_false in Hw.
  rewrite not_elem_of_cons. split; [congruence | by apply IH].
Qed.

(** The ids after [ensureDefaultWorktree]: the ids before, with the
    reserved id added at the end when it was missing. *)
Lemma ids_normalized env info :
  map wt_id (worktrees (ensureDefaultWorktree env info))
  = if existsb isDefault (worktrees info) then map wt_id (worktrees info)
    else (map wt_id (worktrees info) ++ ["default"])%list.
Proof.
  unfold ensureDefaultWorktree. simpl. rewrite map_map. simpl.
  unfold seedDefault. destruct (existsb isDefault (worktrees info)).
  - by apply ids_updateFirst.
  - by rewrite map_app.
Qed.

Lemma ids_unique_normalized env info :
  ids_unique info -> ids_unique (ensureDefaultWorktree env info).
Proof.
  unfold ids_unique. rewrite ids_normalized.
  destruct (existsb isDefault (worktrees info)) eqn:Hd; [done|].
  intros Hnd. apply NoDup_app. split; [done|]. split; [|apply NoDup_singleton].
  intros x Hx ->%list_elem_of_singleton.
  by apply existsb_isDefault_ids in Hd.
Qed.

Lemma ids_insert_same (l : list WorktreeMetadata) i e e' :
  l !! i = Some e -> wt_id e' = wt_id e ->
  map wt_id (<[i := e']> l) = map wt_id l.
Proof.
  revert i. induction l as [|w l IH]; intros [|i]; simpl; try done.
  - by intros [= ->] ->.
  - intros Hi He. by rewrite (IH i).
Qed.

Lemma retitle_id e title : wt_id (retitle e title).1 = wt_id e.
Proof.
  unfold retitle. destruct title as [t|]; [|done].
  destruct (truthy t && _); [|done]. by destruct (_ || _).
Qed.

Lemma generateWorktreeId_unused info title newId :
  generateWorktreeId info title = Some newId ->
  newId ∉ map wt_id (worktrees info).
Proof.
  unfold generateWorktreeId.
  destruct (negb (bool_decide _) && negb (String.eqb (slugify title) "default"))
    eqn:Hb.
  - intros [= <-]. apply andb_true_iff in Hb as [Hb _].
    by apply negb_true_iff, bool_decide_eq_false in Hb.
  - intros Hn%nextFree_Some. unfold taken in Hn.
    apply orb_false_iff in Hn as [Hn _]. by apply bool_decide_eq_false in Hn.
Qed.

Lemma unique_store pm pid info :
  registry_unique pm -> ids_unique info -> registry_unique (store pm pid info).
Proof.
  intros [Ht Hf] Hok. split; [|exact Hf].
  intros k i. unfold store. simpl. rewrite lookup_insert.
  destruct (decide (pid = k)); [by intros [= <-] | apply Ht].
Qed.

Lemma unique_flags pm b : registry_unique pm -> registry_unique (markDirtyIf b pm).
Proof. by destruct b. Qed.

Lemma unique_saveProjects pm : registry_unique pm -> registry_unique (saveProjects pm).
Proof.
  intros [Ht Hf]. unfold saveProjects.
  destruct (negb (loaded pm)); [done|]. destruct (negb (dirty pm)); [done|].
  split; [exact Ht|]. simpl. intros data info [= <-] Hin.
  apply list_elem_of_In, in_map_iff in Hin as ([k v] & <- & Hkv).
  apply list_elem_of_In, elem_of_map_to_list in Hkv. exact (Ht k v Hkv).
Qed.

Lemma unique_addProject env pm p n t :
  registry_unique pm -> registry_unique (addProject env pm p n t).2.
Proof.
  intros Hu. unfold addProject. cbv zeta.
  destruct (negb (isAbsolute p)); [done|].
  destruct (fs_stat env (normalizePath env p)) as [[|]|]; [|done..].
  destruct (projects pm !! _) as [existing|] eqn:Hk; cbn [snd].
  - apply unique_saveProjects, unique_flags, unique_store; [done|].
    pose proof (proj1 Hu _ _ Hk) as He.
    change (ids_unique (withLastAccessed ?i t)) with (ids_unique i).
    destruct (_ || _); [|by repeat destruct (_ : bool)].
    apply ids_unique_normalized. by repeat destruct (_ : bool).
  - apply unique_saveProjects, (unique_flags _ true), unique_store; [done|].
    apply ids_unique_normalized. unfold ids_unique. simpl.
    apply NoDup_singleton.
Qed.

Lemma unique_foldl_loadOne env data table :
  (forall info, info ∈ data -> ids_unique info) ->
  (forall k info, table !! k = Some info -> ids_unique info) ->
  forall k info, foldl (loadOne env) table data !! k = Some info ->
    ids_unique info.
Proof.
  intros Hdata Htable k info [H|(rec & Hin & _ & _ & ->)]%foldl_loadOne_origin.
  - by apply (Htable k).
  - apply ids_unique_normalized. change (ids_unique rec). by apply Hdata.
Qed.

Lemma unique_loadProjects env pm now :
  registry_unique pm -> registry_unique (loadProjects env pm now).
Proof.
  intros [Ht Hf]. unfold loadProjects.
  set (table := match configFile pm with
                | Some data => foldl (loadOne env) (projects pm) data
                | None => projects pm
                end).
  assert (registry_unique {| projects := table; loaded := true;
                             dirty := dirty pm; configFile := configFile pm |})
    as Hu.
  { split; [|exact Hf]. simpl. subst table.
    destruct (configFile pm) as [data|]; [|exact Ht].
    apply unique_foldl_loadOne; [|exact Ht]. intros info Hin. by apply (Hf data). }
  destruct (size table =? 0)%nat; [|done]. by apply unique_addProject.
Qed.

Lemma unique_ensureWorktreeMetadata env pm pid wp title :
  registry_unique pm ->
  registry_unique (ensureWorktreeMetadata env pm pid wp title).2.
Proof.
  intros Hu. unfold ensureWorktreeMetadata.
  destruct (projects pm !! pid) as [info0|] eqn:Hi; [|done].
  pose proof (ids_unique_normalized env info0 (proj1 Hu _ _ Hi)) as Hn.
  set (info := ensureDefaultWorktree env info0) in *.
  destruct (list_find _ _) as [[i existing]|] eqn:Hfind.
  - apply list_find_Some in Hfind as (Hi' & _ & _).
    destruct (retitle _ title) as [e2 renamed] eqn:Hre. cbn [snd].
    apply unique_flags, unique_store; [done|]. unfold ids_unique. simpl.
    rewrite (ids_insert_same _ i existing); [done|done|].
    change e2 with (e2, renamed).1. rewrite <- Hre, retitle_id.
    by destruct (negb _).
  - destruct (generateWorktreeId info _) as [newId|] eqn:Hgen; cbn [snd].
    + apply (unique_flags _ true), unique_store; [done|]. unfold ids_unique.
      simpl. rewrite map_app. simpl. apply NoDup_app. split; [done|].
      split; [|apply NoDup_singleton].
      intros x Hx ->%list_elem_of_singleton.
      by apply generateWorktreeId_unused in Hgen.
    + by apply unique_store.
Qed.

Lemma unique_run env op pm :
  registry_unique pm -> registry_unique (run env op pm).
Proof.
  intros Hu. destruct op; simpl.
  - by apply unique_loadProjects.
  - by apply unique_saveProjects.
  - by apply unique_saveProjects.
  - by apply unique_addProject.
  - unfold getProjectSettings.
    destruct (projects pm !! projectId) as [info|] eqn:Hi; [|done]. simpl.
    apply unique_store; [done|]. apply (proj1 Hu _ _ Hi).
  - unfold updateProjectSettings.
    destruct (projects pm !! projectId) as [info|] eqn:Hi; [|done]. simpl.
    apply (unique_flags _ true), unique_store; [done|].
    apply (proj1 Hu _ _ Hi).
  - unfold removeProject.
    destruct (projects pm !! projectId) as [info|] eqn:Hi; [|done]. simpl.
    apply unique_saveProjects, (unique_flags _ true).
    split; [|apply Hu]. simpl. intros k i Hk.
    apply lookup_delete_Some in Hk as [_ Hk]. apply (proj1 Hu _ _ Hk).
  - unfold getWorktrees.
    destruct (projects pm !! projectId) as [info|] eqn:Hi; [|done]. simpl.
    apply unique_store; [done|]. apply ids_unique_normalized, (proj1 Hu _ _ Hi).
  - unfold findWorktreeById.
    destruct (projects pm !! projectId) as [info|] eqn:Hi; [|done]. simpl.
    apply unique_store; [done|]. apply ids_unique_normalized, (proj1 Hu _ _ Hi).
  - by apply unique_ensureWorktreeMetadata.
  - unfold updateWorktreeTitle.
    destruct (projects pm !! projectId) as [info|] eqn:Hi; [|done].
    pose proof (ids_unique_normalized env info (proj1 Hu _ _ Hi)) as Hn.
    destruct (list_find _ _) as [[i m]|] eqn:Hfind; cbn [snd].
    + apply list_find_Some in Hfind as (Hi' & _ & _).
      apply (unique_flags _ true), unique_store; [done|]. unfold ids_unique.
      simpl. by rewrite (ids_insert_same _ i m).
    + by apply unique_store.
  - unfold removeWorktreeMetadata.
    destruct (projects pm !! projectId) as [info|] eqn:Hi; [|done].
    pose proof (ids_unique_normalized env info (proj1 Hu _ _ Hi)) as Hn.
    destruct (String.eqb worktreeId "default"); cbn [snd].
    + by apply unique_store.
    + apply unique_flags, unique_store; [done|]. unfold ids_unique. simpl.
      eapply sublist_NoDup; [exact Hn|].
      apply (fmap_sublist wt_id), sublist_filter.
Qed.

(** Worktree ids stay unique. If no two worktree records of a project
    share an id, in the table and in the configuration file, then this
    is so after any sequence of registry operations on any host:
    normalization adds the reserved id only when it is missing, a new
    record gets an id that no record of the project has, and renaming,
    re-pathing and removal keep the ids of the records that stay. A
    look-up by id therefore never has two candidates. *)
Theorem worktree_ids_stay_unique env ops pm :
  registry_unique pm -> registry_unique (runs env ops pm).
Proof.
  unfold runs. revert pm. induction ops as [|op ops IH]; intros pm Hu; [done|].
  simpl. apply IH. by apply unique_run.
Qed.

Lemma empty_registry_unique : registry_unique empty_registry.
Proof.
  split; [|done]. intros pid info. unfold empty_registry. simpl.
  by rewrite lookup_empty.
Qed.

(** After the busy session on the plain host, starting from the empty
    registry, ids are unique. *)
Lemma worktree_ids_stay_unique_witness :
  registry_unique (runs plain_env busy_session empty_registry).
Proof.
  apply (worktree_ids_stay_unique plain_env busy_session empty_registry).
  exact empty_registry_unique.
Defined.

(** *** Titles *)

Lemma find_map_id wid (g : WorktreeMetadata -> WorktreeMetadata) l :
  (forall w, wt_id (g w) = wt_id w) ->
  find (fun w => String.eqb (wt_id w) wid) (map g l)
  = g <$> find (fun w => String.eqb (wt_id w) wid) l.
Proof.
  intros Hg. induction l as [|w l IH]; simpl; [done|].
  rewrite Hg. by destruct (String.eqb (wt_id w) wid).
Qed.

Lemma find_seedDefault wid pp l :
  wid <> "default" ->
  find (fun w => String.eqb (wt_id w) wid) (seedDefault pp l)
  = find (fun w => String.eqb (wt_id w) wid) l.
Proof.
  intros Hne.
  assert (String.eqb "default" wid = false) as Hd.
  { destruct (String.eqb_spec "default" wid); [by destruct Hne | done]. }
  unfold seedDefault. destruct (existsb isDefault l).
  - induction l as [|w l IH]; [done|]. cbn [updateFirst].
    destruct (isDefault w) eqn:Hw; cbn [find wt_id].
    + apply isDefault_spec in Hw. by rewrite Hw, Hd.
    + by rewrite IH.
  - induction l as [|w l IH]; cbn [app find defaultEntry wt_id].
    + by rewrite Hd.
    + by rewrite IH.
Qed.

Lemma find_list_find wid (l : list WorktreeMetadata) :
  find (fun w => String.eqb (wt_id w) wid) l
  = snd <$> list_find (fun w => wt_id w = wid) l.
Proof.
  induction l as [|w l IH]; simpl; [done|].
  destruct (String.eqb_spec (wt_id w) wid) as [Hw|Hw].
  - by rewrite decide_True.
  - rewrite decide_False by done. rewrite IH.
    by destruct (list_find _ l) as [[i x]|].
Qed.

Lemma find_insert_found wid (l : list WorktreeMetadata) i m m' :
  list_find (fun w => wt_id w = wid) l = Some (i, m) ->
  wt_id m' = wid ->
  find (fun w => String.eqb (wt_id w) wid) (<[i := m']> l) = Some m'.
Proof.
  intros Hfind Hid. revert i Hfind. induction l as [|w l IH]; intros i; [done|].
  simpl. destruct (decide (wt_id w = wid)) as [Hw|Hw].
  - intros [= <- <-]. simpl. by rewrite Hid, String.eqb_refl.
  - destruct (list_find _ l) as [[j x]|] eqn:Hl; [|done]. simpl.
    intros [= <- <-]. simpl.
    destruct (String.eqb_spec (wt_id w) wid); [done|]. by apply IH.
Qed.

(** A rename can be read back. [updateWorktreeTitle] throws for an
    unknown project, leaving the registry alone, and for an id that no
    record of the project has. Otherwise it returns the first record
    with that id carrying the new title and marks the registry dirty;
    and unless the id is the reserved one, a look-up by that id
    afterwards finds a record whose title is the new title when that
    is not empty, and the id itself when it is (an empty title does
    not survive normalization). *)
Theorem updateWorktreeTitle_read_back env pm pid wid title :
  (projects pm !! pid = None ->
   updateWorktreeTitle env pm pid wid title = (Throw (ProjectNotFound pid), pm)) /\
  (forall info, projects pm !! pid = Some info ->
     match lookupById env info wid with
     | None =>
         (updateWorktreeTitle env pm pid wid title).1
         = Throw (WorktreeNotFound wid pid)
     | Some m =>
         exists pm',
           updateWorktreeTitle env pm pid wid title = (Ok (retitled m title), pm') /\
           dirty pm' = true /\
           (wid <> "default" ->
            exists w, (findWorktreeById env pm' pid wid).1 = Some w /\
                      wt_id w = wid /\ wt_title w = orElse title wid)
     end).
Proof.
  split.
  { intros Hnone. unfold updateWorktreeTitle. by rewrite Hnone. }
  intros info Hinfo. unfold lookupById, updateWorktreeTitle. rewrite Hinfo.
  rewrite find_list_find.
  destruct (list_find _ _) as [[i m]|] eqn:Hfind; simpl; [|done].
  eexists. split; [done|]. split; [done|]. intros Hne.
  pose proof Hfind as (Hi & Hid & _)%list_find_Some.
  unfold findWorktreeById. simpl. rewrite lookup_insert_eq. cbn [fst].
  unfold ensureDefaultWorktree at 1. simpl.
  rewrite find_map_id by done. rewrite find_seedDefault by done.
  rewrite (find_insert_found wid _ i m) by done. simpl.
  eexists. split; [done|]. simpl. split; [done|].
  unfold isDefault. simpl. rewrite Hid.
  by destruct (String.eqb_spec wid "default").
Qed.

(** Renaming the worktree [feat]. *)
Lemma updateWorktreeTitle_read_back_witness :
  exists pm' w,
    (updateWorktreeTitle plain_env two_worktrees "p1" "feat" "Shiny").2 = pm' /\
    (findWorktreeById plain_env pm' "p1" "feat").1 = Some w /\
    wt_title w = "Shiny".
Proof.
  pose proof (proj2 (updateWorktreeTitle_read_back plain_env two_worktrees
                       "p1" "feat" "Shiny") _ eq_refl) as H.
  set (found := lookupById _ _ _) in H. vm_compute in found. subst found.
  destruct H as (pm' & Hup & _ & Hread).
  destruct Hread as (w & Hfind & _ & Htitle); [discriminate|].
  exists pm', w. split; [by rewrite Hup|]. split; [exact Hfind | exact Htitle].
Defined.

(** *** Registering a worktree twice *)

Lemma updateFirst_snoc {A} (p : A -> bool) (f : A -> A) l y :
  p y = false -> updateFirst p f (l ++ [y]) = (updateFirst p f l ++ [y])%list.
Proof.
  intros Hy. induction l as [|x l IH]; simpl; [by rewrite Hy|].
  destruct (p x); [done|]. by rewrite IH.
Qed.

Lemma updateFirst_elem {A} (p : A -> bool) (f : A -> A) l x :
  x ∈ updateFirst p f l ->
  x ∈ l \/ exists d, d ∈ l /\ p d = true /\ x = f d.
Proof.
  induction l as [|w l IH]; simpl; [by left|].
  destruct (p w) eqn:Hw.
  - intros [->|Hx]%elem_of_cons.
    + right. exists w. split; [left | done].
    + left. by right.
  - intros [->|Hx]%elem_of_cons; [left; left|].
    destruct (IH Hx) as [H|(d & Hd & Hrest)]; [left; by right|].
    right. exists d. split; [by right | done].
Qed.

Lemma existsb_isDefault_normalized env info :
  existsb isDefault (worktrees (ensureDefaultWorktree env info)) = true.
Proof.
  destruct (existsb _ _) eqn:Hd; [done|]. apply existsb_isDefault in Hd.
  fold (defaults (ensureDefaultWorktree env info)) in Hd.
  by rewrite defaults_ensureDefaultWorktree in Hd.
Qed.

Lemma truthy_orElse a b : truthy b = true -> truthy (orElse a b) = true.
Proof. intros Hb. unfold orElse. by destruct (truthy a) eqn:Ha. Qed.

Lemma default_present env info :
  canonical env (canonicalizePath env (path info)) ->
  let info' := ensureDefaultWorktree env info in
  defaultEntry (path info') ∈ worktrees info'.
Proof.
  intros Hc info'.
  assert (defaultEntry (path info') ∈ defaults info') as Hin.
  { unfold info'. rewrite defaults_ensureDefaultWorktree. simpl.
    rewrite Hc. left. }
  by apply list_elem_of_filter in Hin as [_ Hin].
Qed.

(** Registering a new worktree path twice creates one record. When
    the paths involved are in canonical form once canonicalized (the
    project's path, the new path and the paths of the project's
    records), and the canonical form of the new path is not empty and
    matches no record of a known project, [ensureWorktreeMetadata]
    creates a record for it under a new id, and a second call with the
    same path and title returns that very record: it adds nothing (the
    ids of the project are those of the first call) and does not touch
    the dirty flag. *)
Theorem ensureWorktreeMetadata_idempotent env pm pid wp title info :
  paths_settled env info wp ->
  projects pm !! pid = Some info ->
  canonicalizePath env wp <> "" ->
  unregistered env info wp ->
  exists metadata pm1 pm2 info1 info2,
    ensureWorktreeMetadata env pm pid wp title = (Some metadata, pm1) /\
    wt_path metadata = canonicalizePath env wp /\
    ensureWorktreeMetadata env pm1 pid wp title = (Some metadata, pm2) /\
    projects pm1 !! pid = Some info1 /\
    projects pm2 !! pid = Some info2 /\
    map wt_id (worktrees info1)
    = (map wt_id (worktrees (ensureDefaultWorktree env info))
       ++ [wt_id metadata])%list /\
    map wt_id (worktrees info2) = map wt_id (worktrees info1) /\
    dirty pm2 = dirty pm1.
Proof.
  intros (Hproj & Hnewc & Hrec) Hinfo Hnp Hnew.
  set (infoN := ensureDefaultWorktree env info).
  set (np := canonicalizePath env wp) in *.
  assert (list_find
            (fun w => canonicalizePath env (wt_path w) = np) (worktrees infoN)
          = None) as Hfind.
  { apply list_find_None, Forall_forall. intros w Hw. by apply Hnew. }
  rewrite (ensureWorktreeMetadata_fresh env pm pid wp title info Hinfo Hfind).
  fold infoN. fold np.
  set (T := orElse (orElse (default "" title) (basename np)) "worktree").
  destruct (generateWorktreeId_total infoN T) as [newId Hgen]. rewrite Hgen.
  pose proof (generateWorktreeId_not_default _ _ _ Hgen) as Hnd.
  set (metadata := {| wt_id := newId; wt_path := np; wt_title := T |}).
  set (info1 := withWorktrees infoN (worktrees infoN ++ [metadata])).
  set (pm1 := markDirty (store pm pid info1)).
  assert (projects pm1 !! pid = Some info1) as Hinfo1.
  { subst pm1. simpl. apply lookup_insert_eq. }
  (* the project path and the new record are in normal form already *)
  set (pp := canonicalizePath env (path info)) in *.
  assert (canonicalizePath env (path info1) = pp) as Hpp by exact Hproj.
  assert (canonicalizePath env np = np) as Hnp' by exact Hnewc.
  assert (truthy T = true) as HT.
  { by apply truthy_orElse. }
  assert (isDefault metadata = false) as Hmd by (by apply isDefault_false).
  assert (normalizeEntry env pp metadata = metadata) as Hnorm.
  { unfold normalizeEntry. rewrite Hmd. subst metadata. simpl. f_equal.
    - unfold orElse. apply truthy_spec in Hnp. by rewrite Hnp.
    - unfold orElse. by rewrite HT. }
  set (f := fun w : WorktreeMetadata =>
              {| wt_id := wt_id w; wt_path := pp; wt_title := "default" |}).
  set (A := map (normalizeEntry env pp) (updateFirst isDefault f (worktrees infoN))).
  assert (worktrees (ensureDefaultWorktree env info1) = (A ++ [metadata])%list)
    as Hwt.
  { unfold ensureDefaultWorktree at 1. cbn [worktrees]. rewrite Hpp.
    unfold seedDefault. subst info1. cbn [worktrees withWorktrees].
    pose proof (existsb_isDefault_normalized env info) as Hex. fold infoN in Hex.
    rewrite existsb_app, Hex. simpl.
    fold f. rewrite updateFirst_snoc by done. rewrite map_app. simpl.
    by rewrite Hnorm. }
  assert (canonicalizePath env pp <> np) as Hppnp.
  { apply (Hnew (defaultEntry (path infoN))). by apply default_present. }
  assert (length A = length (worktrees infoN)) as HlenA.
  { subst A. rewrite length_map.
    rewrite <- (length_map wt_id (updateFirst _ _ _)), ids_updateFirst by done.
    by rewrite length_map. }
  assert (list_find (fun w => canonicalizePath env (wt_path w) = np)
            (A ++ [metadata])%list = Some (length A, metadata)) as Hfind2.
  { apply list_find_Some. split; [by apply list_lookup_middle|].
    split; [exact Hnp'|]. intros j y Hj Hlt.
    rewrite lookup_app_l in Hj by done.
    apply list_elem_of_lookup_2 in Hj. subst A.
    apply list_elem_of_In, in_map_iff in Hj as (x & <- & Hx).
    apply list_elem_of_In in Hx. unfold normalizeEntry. cbn [wt_path].
    assert (canonicalizePath env (canonicalizePath env pp) <> np) as Hpp2.
    { unfold canonical in Hproj. fold pp in Hproj. by rewrite Hproj. }
    apply updateFirst_elem in Hx as [Hx|(d & Hd & _ & ->)].
    - unfold orElse. destruct (truthy (wt_path x)); [|done].
      rewrite (Hrec x Hx). by apply Hnew.
    - subst f. cbn [wt_path]. by rewrite orElse_same. }
  assert (retitle metadata title = (metadata, false)) as Hre.
  { unfold retitle. destruct title as [t|]; [|done].
    destruct (truthy t) eqn:Ht; [|done]. simpl.
    assert (T = t) as ->.
    { subst T. unfold orElse. simpl. by rewrite Ht, Ht. }
    by rewrite String.eqb_refl. }
  exists metadata, pm1, (store pm1 pid
                          (withWorktrees (ensureDefaultWorktree env info1)
                             (A ++ [metadata])%list)),
    info1, (withWorktrees (ensureDefaultWorktree env info1) (A ++ [metadata])%list).
  split; [done|]. split; [done|]. split.
  { unfold ensureWorktreeMetadata. rewrite Hinfo1. fold np. rewrite Hwt, Hfind2.
    cbn [wt_path metadata]. rewrite String.eqb_refl. cbn [negb].
    rewrite Hre. cbn [orb markDirtyIf].
    rewrite list_insert_id by (by apply list_lookup_middle). done. }
  split; [done|]. split; [simpl; apply lookup_insert_eq|].
  split; [|split; [|done]].
  - subst info1. simpl. by rewrite map_app.
  - subst info1 A. simpl. rewrite !map_app, map_map. simpl.
    by rewrite (ids_updateFirst isDefault f).
Qed.

Lemma new_path_unregistered :
  unregistered posix_env
    (sample_project
       [defaultEntry "/home/u/proj";
        {| wt_id := "feat"; wt_path := "/home/u/wt"; wt_title := "Feature" |}])
    "/home/u/new/".
Proof.
  intros w Hw. set (l := worktrees _) in Hw. vm_compute in l. subst l.
  apply elem_of_cons in Hw as [->|Hw]; [by vm_compute|].
  apply elem_of_cons in Hw as [->|Hw]; [by vm_compute|].
  by apply elem_of_nil in Hw.
Qed.

Lemma sample_paths_settled :
  paths_settled posix_env
    (sample_project
       [defaultEntry "/home/u/proj";
        {| wt_id := "feat"; wt_path := "/home/u/wt"; wt_title := "Feature" |}])
    "/home/u/new/".
Proof.
  split; [by vm_compute|]. split; [by vm_compute|].
  intros w Hw. set (l := worktrees _) in Hw. vm_compute in l. subst l.
  apply elem_of_cons in Hw as [->|Hw]; [by vm_compute|].
  apply elem_of_cons in Hw as [->|Hw]; [by vm_compute|].
  by apply elem_of_nil in Hw.
Qed.

(** Registering [/home/u/new/] twice in the project with two
    worktrees, on a host where canonicalization is not idempotent
    everywhere. *)
Lemma ensureWorktreeMetadata_idempotent_witness :
  (exists metadata pm1 pm2,
     ensureWorktreeMetadata posix_env two_worktrees "p1" "/home/u/new/"
       (Some "New") = (Some metadata, pm1) /\
     wt_path metadata = "/home/u/new" /\
     ensureWorktreeMetadata posix_env pm1 "p1" "/home/u/new/" (Some "New")
     = (Some metadata, pm2)) /\
  canonicalizePath posix_env (canonicalizePath posix_env "/")
  <> canonicalizePath posix_env "/".
Proof.
  split; [|intros H; vm_compute in H; discriminate H].
  destruct (ensureWorktreeMetadata_idempotent posix_env two_worktrees "p1"
              "/home/u/new/" (Some "New") _ sample_paths_settled eq_refl
              ltac:(by vm_compute) new_path_unregistered)
    as (metadata & pm1 & pm2 & _ & _ & H1 & Hpath & H2 & _).
  exists metadata, pm1, pm2. split; [exact H1|]. split; [|exact H2].
  rewrite Hpath. by vm_compute.
Defined.

End RegistryOpsFacts.
(** ** Slugs *)

Module SlugFacts.
Import Str Os Registry SlugSpec StrFacts.
Local Open Scope string_scope.

Lemma dash_not_alnum : isLowerAlnum dash = false.
Proof. reflexivity. Qed.

Lemma isChar_dash_alnum c : isLowerAlnum c = true -> isChar dash c = false.
Proof.
  intros H. unfold isChar. destruct (Ascii.eqb_spec c dash) as [->|]; [|done].
  by rewrite dash_not_alnum in H.
Qed.

Lemma isChar_spec c x : isChar c x = true <-> x = c.
Proof. unfold isChar. by destruct (Ascii.eqb_spec x c). Qed.

(** What [dashRuns] emits: slug characters, dashes single, and after a
    run no dash in front. *)
Lemma dashRuns_shape inRun l :
  forallb isSlugChar (dashRuns inRun l) = true /\
  dashesApart (dashRuns inRun l) = true /\
  (inRun = true -> head (dashRuns inRun l) <> Some dash).
Proof.
  revert inRun. induction l as [|c l IH]; intros inRun; simpl.
  - by repeat split.
  - destruct (isLowerAlnum c) eqn:Hc.
    + destruct (IH false) as (H1 & H2 & _). repeat split.
      * simpl. unfold isSlugChar at 1. by rewrite Hc, H1.
      * simpl. destruct (dashRuns false l) as [|b r] eqn:Hr; [done|].
        rewrite (isChar_dash_alnum c Hc). simpl. exact H2.
      * intros _. simpl. intros [= ->]. by rewrite dash_not_alnum in Hc.
    + destruct inRun.
      * apply IH.
      * destruct (IH true) as (H1 & H2 & H3). repeat split; [| |done].
        -- simpl. by rewrite H1.
        -- simpl. destruct (dashRuns true l) as [|b r] eqn:Hr; [done|].
           specialize (H3 eq_refl). simpl in H3.
           assert (isChar dash b = false) as ->.
           { destruct (isChar dash b) eqn:Hb; [|done].
             apply isChar_spec in Hb. congruence. }
           simpl. exact H2.
Qed.

Lemma dashesApart_tail a l : dashesApart (a :: l) = true -> dashesApart l = true.
Proof. simpl. destruct l; [done|]. by intros [_ ?]%andb_true_iff. Qed.

Lemma dashesApart_dropWhile p l :
  dashesApart l = true -> dashesApart (dropWhile p l) = true.
Proof.
  induction l as [|a l IH]; [done|]. intros H. simpl.
  destruct (p a); [|done]. apply IH. by apply dashesApart_tail in H.
Qed.

Lemma dashesApart_take n l :
  dashesApart l = true -> dashesApart (take n l) = true.
Proof.
  revert n. induction l as [|a l IH]; intros n H; [by destruct n|].
  destruct n as [|n]; [done|].
  destruct l as [|b l]; [by destruct n|].
  destruct n as [|n]; [done|].
  change (negb (isChar dash a && isChar dash b) && dashesApart (b :: l) = true)
    in H.
  apply andb_true_iff in H as [Hab Hl].
  change (negb (isChar dash a && isChar dash b)
          && dashesApart (take (S n) (b :: l)) = true).
  rewrite Hab. apply (IH (S n) Hl).
Qed.

Lemma dashesApart_snoc l a :
  dashesApart (l ++ [a]) = true -> dashesApart l = true.
Proof.
  induction l as [|b l IH]; [done|]. simpl.
  destruct l as [|c l]; [done|]. simpl.
  intros [H1 H2]%andb_true_iff. rewrite H1. simpl. by apply IH.
Qed.

Lemma dashesApart_rev_dropWhile p l :
  dashesApart l = true -> dashesApart (dropWhileEnd p l) = true.
Proof.
  unfold dropWhileEnd. induction l as [|a l IH] using rev_ind; [done|].
  intros H. rewrite rev_app_distr. simpl.
  destruct (p a).
  - apply IH. by apply dashesApart_snoc in H.
  - simpl. by rewrite rev_involutive.
Qed.

Lemma head_dropWhile {A} (p : A -> bool) l x :
  head (dropWhile p l) = Some x -> p x = false.
Proof.
  induction l as [|a l IH]; simpl; [done|].
  destruct (p a) eqn:Ha; [done|]. simpl. by intros [= <-].
Qed.

Lemma head_dropWhileEnd {A} (p : A -> bool) (l : list A) x :
  head (dropWhileEnd p l) = Some x -> head l = Some x.
Proof.
  unfold dropWhileEnd. induction l as [|a l IH] using rev_ind; [done|].
  rewrite rev_app_distr. simpl. destruct (p a).
  - intros H. specialize (IH H). destruct l; [done|]. exact IH.
  - simpl. by rewrite rev_involutive.
Qed.

Lemma head_take {A} n (l : list A) x : head (take n l) = Some x -> head l = Some x.
Proof. destruct n, l; simpl; done. Qed.

Lemma forallb_take {A} (p : A -> bool) n l :
  forallb p l = true -> forallb p (take n l) = true.
Proof.
  rewrite !forallb_forall. intros H x Hx. apply H.
  apply list_elem_of_In. apply list_elem_of_In in Hx.
  by apply (subseteq_take n l).
Qed.

Lemma forallb_dropWhile {A} (p q : A -> bool) l :
  forallb p l = true -> forallb p (dropWhile q l) = true.
Proof.
  induction l as [|a l IH]; simpl; [done|].
  intros [Ha Hl]%andb_true_iff. destruct (q a); [by apply IH|].
  simpl. by rewrite Ha, Hl.
Qed.

Lemma forallb_rev {A} (p : A -> bool) l : forallb p (rev l) = forallb p l.
Proof.
  induction l as [|a l IH]; simpl; [done|].
  rewrite forallb_app, IH. simpl. rewrite andb_true_r. apply andb_comm.
Qed.

Lemma forallb_dropWhileEnd {A} (p q : A -> bool) l :
  forallb p l = true -> forallb p (dropWhileEnd q l) = true.
Proof.
  intros H. unfold dropWhileEnd. rewrite forallb_rev.
  apply forallb_dropWhile. by rewrite forallb_rev.
Qed.

(** The slug before the fallback is applied. *)
Lemma slug_core_shape value :
  let core :=
    take 64 (stripDashes (dashRuns false (chars (toLowerCase value)))) in
  (length core <= 64)%nat /\
  forallb isSlugChar core = true /\
  dashesApart core = true /\
  head core <> Some dash.
Proof.
  intros core. subst core. unfold stripDashes.
  destruct (dashRuns_shape false (chars (toLowerCase value))) as (H1 & H2 & _).
  repeat split.
  - rewrite length_take. lia.
  - by apply forallb_take, forallb_dropWhileEnd, forallb_dropWhile.
  - by apply dashesApart_take, dashesApart_rev_dropWhile, dashesApart_dropWhile.
  - intros H%head_take%head_dropWhileEnd%head_dropWhile. done.
Qed.

Lemma slugify_unfold value :
  slugify value
  = orElse
      (str (take 64 (stripDashes (dashRuns false (chars (toLowerCase value))))))
      "worktree".
Proof. unfold slugify, substringTo. by rewrite chars_str. Qed.

(** [slugify] always yields a slug: a non-empty string of at most 64
    characters from [a-z0-9-], in which no two dashes are adjacent and
    which does not begin with a dash. *)
Theorem slugify_shape value : slug_shaped (slugify value).
Proof.
  rewrite slugify_unfold.
  destruct (slug_core_shape value) as (Hlen & Hall & Hapart & Hhead).
  set (core := take 64 _) in *. unfold orElse.
  destruct (truthy (str core)) eqn:Ht.
  - apply truthy_spec in Ht. unfold slug_shaped.
    rewrite <- chars_length, chars_str. done.
  - repeat split; try discriminate; try reflexivity. simpl. lia.
Qed.

Lemma lowerChar_slug c : isSlugChar c = true -> lowerChar c = c.
Proof.
  destruct c as [[] [] [] [] [] [] [] []]; vm_compute; intros H;
    first [reflexivity | discriminate H].
Qed.

Lemma toLowerCase_slug s :
  forallb isSlugChar (chars s) = true -> toLowerCase s = s.
Proof.
  intros H. unfold toLowerCase. rewrite <- (str_chars s) at 2. f_equal.
  induction (chars s) as [|c l IH]; simpl in *; [done|].
  apply andb_true_iff in H as [Hc Hl]. by rewrite (lowerChar_slug c Hc), IH.
Qed.

Lemma dashRuns_slug l :
  forallb isSlugChar l = true -> dashesApart l = true ->
  dashRuns false l = l /\ (head l <> Some dash -> dashRuns true l = l).
Proof.
  induction l as [|c l IH]; [done|].
  intros [Hc Hl]%andb_true_iff Hap.
  destruct (IH Hl (dashesApart_tail c l Hap)) as [IH1 IH2].
  simpl. destruct (isLowerAlnum c) eqn:Ha.
  - rewrite IH1. done.
  - assert (c = dash) as ->.
    { unfold isSlugChar in Hc. rewrite Ha in Hc. by apply isChar_spec in Hc. }
    split; [|by intros []].
    f_equal. apply IH2. simpl in Hap. destruct l as [|b l]; [done|].
    apply andb_true_iff in Hap as [Hab _]. simpl. intros [= ->].
    by vm_compute in Hab.
Qed.

Lemma dropWhile_head {A} (p : A -> bool) l :
  (forall x, head l = Some x -> p x = false) -> dropWhile p l = l.
Proof. destruct l as [|a l]; simpl; [done|]. intros H. by rewrite H. Qed.

Lemma head_rev_last {A} (l : list A) : head (rev l) = last l.
Proof.
  destruct l as [|x l _] using rev_ind; [done|].
  by rewrite rev_app_distr, last_snoc.
Qed.

Lemma dropWhileEnd_last {A} (p : A -> bool) (l : list A) :
  (forall x, last l = Some x -> p x = false) -> dropWhileEnd p l = l.
Proof.
  intros H. unfold dropWhileEnd. rewrite dropWhile_head; [apply rev_involutive|].
  intros x Hx. apply H. by rewrite <- head_rev_last.
Qed.

Lemma dropWhileEnd_shorter {A} (p : A -> bool) (l : list A) x :
  last l = Some x -> p x = true -> (length (dropWhileEnd p l) < length l)%nat.
Proof.
  intros Hl Hp. unfold dropWhileEnd.
  destruct l as [|a l] using rev_ind; [done|].
  rewrite last_snoc in Hl. injection Hl as ->.
  rewrite rev_app_distr. simpl. rewrite Hp, length_rev, length_app. simpl.
  clear. induction (rev l) as [|b r IH] eqn:Hr in l |- *.
  - simpl. lia.
  - assert (length l = S (length r)) as ->.
    { by rewrite <- (length_rev l), Hr. }
    simpl. destruct (p b).
    + specialize (IH (rev r)). rewrite rev_involutive, length_rev in IH.
      specialize (IH eq_refl). lia.
    + simpl. lia.
Qed.

Lemma not_dash_head (l : list ascii) :
  head l <> Some dash -> forall x, head l = Some x -> isChar dash x = false.
Proof.
  intros H x Hx. destruct (isChar dash x) eqn:Hd; [|done].
  apply isChar_spec in Hd. congruence.
Qed.

(** The slug of a slug-shaped string: only dashes at the end are lost. *)
Lemma slugify_slug_shaped s :
  slug_shaped s ->
  slugify s
  = orElse (str (take 64 (dropWhileEnd (isChar dash) (chars s)))) "worktree".
Proof.
  intros (Hne & Hlen & Hall & Hap & Hhead).
  rewrite slugify_unfold, (toLowerCase_slug s Hall).
  rewrite (proj1 (dashRuns_slug (chars s) Hall Hap)). unfold stripDashes.
  by rewrite (dropWhile_head _ _ (not_dash_head _ Hhead)).
Qed.

(** The fixed points of [slugify] are the slugs that do not end in a
    dash: such a string is its own slug, and nothing else is. *)
Theorem slugify_fixed_points s :
  slugify s = s <-> slug_shaped s /\ no_trailing_dash s.
Proof.
  split.
  - intros Hfix. assert (slug_shaped s) as Hshape.
    { rewrite <- Hfix. apply slugify_shape. }
    split; [done|]. intros Hlast.
    rewrite (slugify_slug_shaped s Hshape) in Hfix.
    pose proof (dropWhileEnd_shorter (isChar dash) (chars s) dash Hlast eq_refl)
      as Hshort.
    unfold orElse in Hfix.
    destruct (truthy (str _)) eqn:Ht.
    + apply (f_equal chars) in Hfix. rewrite chars_str in Hfix.
      apply (f_equal length) in Hfix. rewrite length_take in Hfix. lia.
    + subst s. by vm_compute in Hlast.
  - intros [Hshape Hlast]. rewrite (slugify_slug_shaped s Hshape).
    destruct Hshape as (Hne & Hlen & _).
    rewrite dropWhileEnd_last.
    2:{ intros x Hx. destruct (isChar dash x) eqn:Hd; [|done].
        apply isChar_spec in Hd. subst x. by destruct Hlast. }
    rewrite take_ge by (rewrite chars_length; lia).
    rewrite str_chars. unfold orElse.
    apply truthy_spec in Hne. by rewrite Hne.
Qed.

End SlugFacts.

(** ** The default worktree and the reconciler *)

Module RoutesFacts.
Import Str Os Registry Routes RegistrySpec RoutesSpec StrFacts RegistryFacts.
Local Open Scope string_scope.
Local Open Scope Z_scope.

Lemma deleteWorktree_default env env' pm pid info force :
  projects pm !! pid = Some info ->
  deleteWorktree env env' pm pid "default" force
  = (JsonError 400 "Cannot remove default worktree",
     store pm pid (ensureDefaultWorktree env info)).
Proof.
  intros Hinfo. unfold deleteWorktree, getProject, findWorktreeById.
  rewrite Hinfo, find_head.
  change (filter (fun w => wt_id w = "default")
            (worktrees (ensureDefaultWorktree env info)))
    with (defaults (ensureDefaultWorktree env info)).
  by rewrite defaults_ensureDefaultWorktree.
Qed.

(** C5 at the failing input. The registry guards the default entry
    against removal, but not against a rename: a rename addressed to
    ["default"] is accepted and stored, so that after this registry
    operation the title of the default entry is not ["default"], while
    the removal of the same entry is refused. *)
Lemma default_title_counterexample :
  let before := registry_of (sample_project [defaultEntry "/home/u/proj"]) in
  let out := updateWorktreeTitle plain_env before "p1" "default" "main" in
  registry_ok before /\
  out.1 = Ok {| wt_id := "default"; wt_path := "/home/u/proj";
                wt_title := "main" |} /\
  storedWorktrees out.2 "p1"
  = Some [{| wt_id := "default"; wt_path := "/home/u/proj";
             wt_title := "main" |}] /\
  (removeWorktreeMetadata plain_env before "p1" "default").1
  = Throw CannotRemoveDefault.
Proof.
  split; [apply registry_of_ok; reflexivity|]. repeat split; reflexivity.
Qed.

(** C7 at the failing input: git reports the second worktree under a
    symlinked path while its metadata is stored under the real path. The
    listing matches the metadata to the live entry (the response carries
    its id and title), and the clean-up of the same run deletes it from
    the store. *)
Lemma listing_drops_symlinked_metadata :
  let out := buildWorktreeResponses symlink_env symlink_registry "p1" in
  storedWorktrees symlink_registry "p1"
  = Some [defaultEntry "/home/u/proj"; feature_metadata] /\
  map pw_path (liveEntries symlink_env symlink_listing "/home/u/proj")
  = ["/home/u/proj"; "/home/u/link-wt"] /\
  listedIds out.1 = Some ["default"; "feat"] /\
  storedWorktrees out.2 "p1" = Some [defaultEntry "/home/u/proj"].
Proof. by vm_compute. Qed.

(** *** The orphan clean-up *)

Lemma elem_of_updateFirst {A} (p : A -> bool) (f : A -> A) (l : list A) x :
  x ∈ updateFirst p f l -> x ∈ l \/ exists y, y ∈ l /\ x = f y.
Proof.
  induction l as [|y l IH]; simpl; [by left|].
  destruct (p y).
  - intros [->|Hx]%elem_of_cons.
    + right. exists y. split; [left | done].
    + left. by right.
  - intros [->|Hx]%elem_of_cons; [left; left|].
    destruct (IH Hx) as [H|(z & Hz & ->)]; [left; by right|].
    right. exists z. split; [by right | done].
Qed.

(** [ensureDefaultWorktree] invents no id but the reserved one. *)
Lemma ids_ensureDefaultWorktree env info w :
  w ∈ worktrees (ensureDefaultWorktree env info) ->
  wt_id w = "default" \/ exists w0, w0 ∈ worktrees info /\ wt_id w0 = wt_id w.
Proof.
  unfold ensureDefaultWorktree. simpl.
  intros (w1 & <- & Hw1)%list_elem_of_In%in_map_iff. simpl.
  apply list_elem_of_In in Hw1. unfold seedDefault in Hw1.
  destruct (existsb isDefault (worktrees info)).
  - apply elem_of_updateFirst in Hw1 as [H|(y & Hy & ->)]; right; eauto.
  - apply elem_of_app in Hw1 as [H|H%list_elem_of_singleton]; [right; eauto|].
    subst w1. by left.
Qed.

Lemma removeWorktreeMetadata_keeps_no_id env pm pid wid x :
  x <> "default" -> no_id pid x pm ->
  no_id pid x (removeWorktreeMetadata env pm pid wid).2.
Proof.
  intros Hx Hno. unfold removeWorktreeMetadata.
  destruct (projects pm !! pid) as [info0|] eqn:H0; [|done].
  assert (forall w, w ∈ worktrees (ensureDefaultWorktree env info0) ->
                    wt_id w <> x) as Hens.
  { intros w [Hd|(w0 & Hw0 & <-)]%ids_ensureDefaultWorktree; [congruence|].
    by apply (Hno info0). }
  destruct (String.eqb wid "default"); simpl.
  - intros info w. unfold store. simpl. rewrite lookup_insert_eq.
    intros [= <-]. apply Hens.
  - intros info w. rewrite projects_markDirtyIf. unfold store. simpl.
    rewrite lookup_insert_eq. intros [= <-]. simpl.
    intros [_ Hw]%list_elem_of_filter. by apply Hens.
Qed.

Lemma removeWorktreeMetadata_removes env pm pid wid :
  wid <> "default" -> no_id pid wid (removeWorktreeMetadata env pm pid wid).2.
Proof.
  intros Hwid. unfold removeWorktreeMetadata.
  destruct (projects pm !! pid) as [info0|] eqn:H0.
  2:{ intros info w. simpl. by rewrite H0. }
  destruct (String.eqb_spec wid "default"); [done|]. simpl.
  intros info w. rewrite projects_markDirtyIf. unfold store. simpl.
  rewrite lookup_insert_eq. intros [= <-]. simpl.
  by intros [Hw _]%list_elem_of_filter.
Qed.

Lemma cleanupOne_keeps_no_id env pid present pm m x :
  x <> "default" -> no_id pid x pm -> no_id pid x (cleanupOne env pid present pm m).
Proof.
  intros Hx Hno. unfold cleanupOne.
  destruct (String.eqb (wt_id m) "default"); [done|].
  destruct (bool_decide _); [done|].
  by apply removeWorktreeMetadata_keeps_no_id.
Qed.

Lemma cleanup_keeps_no_id env pid present l pm x :
  x <> "default" -> no_id pid x pm ->
  no_id pid x (foldl (cleanupOne env pid present) pm l).
Proof.
  intros Hx. revert pm. induction l as [|m l IH]; intros pm Hno; [done|].
  simpl. by apply IH, cleanupOne_keeps_no_id.
Qed.

Lemma cleanup_removes env pid present l pm m :
  m ∈ l -> wt_id m <> "default" -> normalizePath env (wt_path m) ∉ present ->
  no_id pid (wt_id m) (foldl (cleanupOne env pid present) pm l).
Proof.
  intros Hin Hid Habs. revert pm.
  induction l as [|m' l IH]; intros pm; [by apply elem_of_nil in Hin|].
  simpl. apply elem_of_cons in Hin as [<-|Hin]; [|by apply IH].
  apply cleanup_keeps_no_id; [done|]. unfold cleanupOne.
  destruct (String.eqb_spec (wt_id m) "default"); [done|].
  rewrite bool_decide_eq_false_2 by done.
  by apply removeWorktreeMetadata_removes.
Qed.

(** Every listing run that succeeds deletes the orphans: a record of
    the snapshot taken at the start of the run that is not the default
    entry and whose normalized path is the path of no live entry has no
    record of its id left in the store when the run returns. *)
Theorem orphans_are_deleted env pm pid responses pm' :
  buildWorktreeResponses env pm pid = (Ok responses, pm') ->
  exists project stdout,
    getProject pm pid = Some project /\
    listing env (path project) = Some stdout /\
    forall m,
      m ∈ (getWorktrees env pm pid).1 ->
      orphan env (liveEntries env stdout (path project)) m ->
      no_id pid (wt_id m) pm'.
Proof.
  unfold buildWorktreeResponses.
  destruct (getProject pm pid) as [project|] eqn:Hp; [|discriminate].
  destruct (listing env (path project)) as [stdout|] eqn:Hl; [|discriminate].
  destruct (getWorktrees env pm pid) as [metadataList pm1].
  set (after := foldl _ _ _).
  destruct (l_failed after); [discriminate|].
  intros [= _ <-]. exists project, stdout. split; [done|]. split; [done|].
  intros m Hm [Hid Habs] info w. rewrite projects_saveProjects.
  by apply (cleanup_removes env pid _ metadataList (l_pm after) m).
Qed.

(** The directory of the second worktree is gone and git no longer
    lists it: the run deletes its metadata. *)
Lemma orphans_are_deleted_witness :
  no_id "p1" "feat"
    (buildWorktreeResponses main_only_env symlink_registry "p1").2.
Proof.
  destruct (orphans_are_deleted main_only_env symlink_registry "p1"
              (responsesOf (buildWorktreeResponses main_only_env
                              symlink_registry "p1").1)
              (buildWorktreeResponses main_only_env symlink_registry "p1").2)
    as (project & stdout & Hp & Hl & Hall); [by vm_compute|].
  vm_compute in Hp. injection Hp as <-.
  vm_compute in Hl. injection Hl as <-.
  apply (Hall feature_metadata).
  - apply list_elem_of_In. vm_compute. tauto.
  - split; [discriminate|]. intros Hin. apply list_elem_of_In in Hin.
    vm_compute in Hin. intuition discriminate.
Defined.

End RoutesFacts.
(** ** Sessions over HTTP and WebSocket *)

Module CliRoutesFacts.
Import Js Str Os Buffer Cli WsAuth CliOps Registry CliRoutes WsAuthSpec
  CliSpec RegistrySpec CliOpsSpec CliRoutesSpec StrFacts WsAuthFacts.
Local Open Scope string_scope.
Local Open Scope Z_scope.

(** *** Tokens *)

Lemma splitOn_go_sep sep cur l1 l2 :
  splitOn_go sep cur (l1 ++ sep :: l2)
  = (splitOn_go sep cur l1 ++ splitOn_go sep [] l2)%list.
Proof.
  revert cur. induction l1 as [|x l1 IH]; intros cur; simpl.
  - unfold isChar. by rewrite Ascii.eqb_refl.
  - destruct (isChar sep x); simpl; by rewrite IH.
Qed.

Lemma splitOn_go_two sep cur l :
  existsb (isChar sep) l = true ->
  exists a b rest, splitOn_go sep cur l = a :: b :: rest.
Proof.
  revert cur. induction l as [|x l IH]; intros cur; simpl; [done|].
  destruct (isChar sep x); simpl.
  - intros _. destruct (splitOn_go_head sep [] l) as [rest ->]. eauto.
  - apply IH.
Qed.

(** What follows a second dot is not read. A token that contains a
    dot verifies exactly as the same token with a dot and any text
    appended: only the first two dot-separated pieces are looked at. *)
Theorem verify_ignores_trailing c tok junk now :
  contains dot tok = true ->
  verifySessionToken c (tok +:+ "." +:+ junk) now
  = verifySessionToken c tok now.
Proof.
  intros Hdot. unfold contains in Hdot.
  destruct (splitOn_go_two dot [] (chars tok) Hdot) as (p & s & rest & Hsplit).
  unfold verifySessionToken.
  rewrite (verifyBody_segments c tok now p s rest Hsplit).
  rewrite (verifyBody_segments c (tok +:+ "." +:+ junk) now p s
             (rest ++ splitOn_go dot [] (chars junk))%list); [done|].
  unfold splitOn. rewrite chars_app.
  change (chars ("." +:+ junk)) with (dot :: chars junk).
  by rewrite splitOn_go_sep, Hsplit.
Qed.

(** The token of session [A] with a tail still verifies. *)
Lemma verify_ignores_trailing_witness :
  verifySessionToken sample_codec
    (generateSessionToken sample_codec "A" 1000 +:+ "." +:+ "anything") 2000
  = Some (SessionToken "A" 3601000).
Proof.
  rewrite (verify_ignores_trailing sample_codec
             (generateSessionToken sample_codec "A" 1000) "anything" 2000);
    by vm_compute.
Defined.

(** The token issued for a session verifies until it expires. *)
Lemma verify_generated c sessionId issued now :
  codec_handles c sessionId issued ->
  verifySessionToken c (generateSessionToken c sessionId issued) now
  = if issued + TTL <? now then None
    else Some (SessionToken sessionId (issued + TTL)).
Proof.
  intros (Hp & Hpne & Hsig & Hsigne & Hparse).
  unfold generateSessionToken. fold TTL.
  set (payload := SessionToken sessionId (issued + TTL)) in *.
  set (p := base64url_of_utf8 c (JSON_stringify c payload)) in *.
  set (sig := hmac_base64url c (WS_SECRET c) p) in *.
  destruct (splitOn_join_dotfree dot p sig Hp Hsig) as [rest Hsplit].
  change (String dot EmptyString) with "." in Hsplit.
  rewrite (verify_segments c _ now p sig rest Hsplit Hpne Hsigne).
  fold sig. by rewrite String.eqb_refl, Hparse.
Qed.

(** *** The upgrade *)

(** An upgrade is granted to the bearer of a valid token only. The
    upgrade handler either destroys the connection, changing nothing
    and sending nothing, or attaches the new socket to a session; and
    it attaches only when the request path is [/ws/cli] and carries a
    token that verifies at the time of the request (signed with the
    server's secret, not expired) whose payload names, as a string,
    a session that exists. The socket is attached to that session and
    to no other. *)
Theorem upgrade_requires_valid_token c m url ws now :
  match onUpgrade c m url ws now with
  | (Destroyed, m', fx) => m' = m /\ fx = []
  | (Upgraded sid, m', fx) =>
      exists u t payload p s exp,
        url = Some u /\ pathname u = "/ws/cli" /\ token u = Some t /\
        verifySessionToken c t now = Some payload /\
        segments t p s /\ s = hmac_base64url c (WS_SECRET c) p /\
        JSON_parse c (utf8_of_base64url c p) = Some payload /\
        getProp payload "exp" = Ok exp /\ lessThan c exp now = false /\
        getProp payload "sessionId" = Ok (Some (JStr sid)) /\
        is_Some (getSession m sid) /\
        (m', fx) = attachWebSocket m sid ws
  end.
Proof.
  unfold onUpgrade. destruct url as [u|]; [|done].
  destruct (String.eqb_spec (pathname u) "/ws/cli") as [Hpath|]; [|done]. simpl.
  destruct (token u) as [t|] eqn:Ht; [|done].
  destruct (negb (truthy t)); [done|].
  destruct (verifySessionToken c t now) as [payload|] eqn:Hv; [|done].
  destruct (negb (jsTruthy payload)); [done|].
  destruct (getProp payload "sessionId") as [[[| | |sid| |]|]|] eqn:Hsid; try done.
  destruct (getSession m sid) as [session|] eqn:Hsession; [|done].
  destruct (attachWebSocket m sid ws) as [m' fx] eqn:Hattach.
  destruct (verify_accepts c t now payload Hv)
    as (p & s & rest & exp & Hsplit & _ & _ & Hsig & Hparse & Hexp & Hlt).
  exists u, t, payload, p, s, exp.
  split; [done|]. split; [done|]. split; [done|]. split; [done|].
  split; [by exists rest|]. split; [done|]. split; [done|]. split; [done|].
  split; [done|]. split; [done|]. split; [by rewrite Hsession | done].
Qed.

(** *** Creating a session over HTTP *)

Lemma createSession_Ok_id env m input now uuid info m' fx :
  createSession env m input now uuid = (Ok info, m', fx) ->
  info_id info = uuid /\ info_projectId info = in_projectId input /\
  info_worktreeId info = in_worktreeId input /\
  is_Some (getSession m' uuid).
Proof.
  unfold createSession.
  destruct (MAX_TOTAL_SESSIONS <=? _); [done|].
  destruct (MAX_SESSIONS_PER_PROJECT <=? _); [done|].
  destruct (tools m !! in_tool input) as [tc|]; [|done].
  intros Hrun.
  assert (exists d h r,
            Cli.id r = uuid /\ projectId r = in_projectId input /\
            worktreeId r = in_worktreeId input /\
            resolveCwd env (in_cwd input) = Ok d /\
            pty_spawn env (command tc)
              (args tc ++ default [] (in_commandArgs input)) d = Some h /\
            info = toInfo r /\ sessions m' = <[uuid := r]> (sessions m))
    as (d & h & r & Hid & Hpid & Hwid & _ & _ & -> & Hm').
  { destruct (available tc) as [[|]|]; [|done|];
      destruct (resolveCwd env (in_cwd input)) as [d|]; try done;
      destruct (pty_spawn env _ _ d) as [h|] eqn:Hh; try done;
      injection Hrun as <- <- <-; eexists d, h, _; by repeat split. }
  repeat split; try done.
  unfold getSession. rewrite Hm', lookup_insert_eq. by eexists.
Qed.

Lemma createSession_Throw env m input now uuid e m' fx :
  createSession env m input now uuid = (Throw e, m', fx) -> m' = m.
Proof.
  unfold createSession.
  destruct (MAX_TOTAL_SESSIONS <=? _); [by intros [= _ <- _]|].
  destruct (MAX_SESSIONS_PER_PROJECT <=? _); [by intros [= _ <- _]|].
  destruct (tools m !! in_tool input) as [tc|]; [|by intros [= _ <- _]].
  destruct (available tc) as [[|]|]; [|by intros [= _ <- _]|];
    (destruct (resolveCwd env (in_cwd input)) as [d|]; [|by intros [= _ <- _]];
     destruct (pty_spawn env _ _ d) as [h|]; [done|by intros [= _ <- _]]).
Qed.

Lemma postSession_Created env c pm m body now issued uuid session tok pm' m' fx :
  postSession env c pm m body now issued uuid
  = (Created session tok, pm', m', fx) ->
  exists worktree,
    (findWorktreeById env pm (b_projectId body) (b_worktreeId body)).1
    = Some worktree /\
    createSession env m (input_of body worktree) now uuid
    = (Ok session, m', fx) /\
    info_id session = uuid /\
    tok = generateSessionToken c uuid issued.
Proof.
  unfold postSession. fold (input_of body).
  destruct (getProject pm (b_projectId body)) as [project|]; [|done].
  destruct (findWorktreeById env pm _ _) as [[worktree|] pm1]; [|done].
  fold (input_of body worktree).
  destruct (createSession env m _ now uuid) as [[[sess|e] m1] fx1] eqn:Hrun;
    [|done]. intros [= <- <- <- <- <-].
  exists worktree. split; [done|]. split; [done|].
  destruct (createSession_Ok_id _ _ _ _ _ _ _ _ Hrun) as (Hid & _).
  split; [done|]. by rewrite Hid.
Qed.

(** What [POST /api/cli/sessions] answers. A request for an unknown
    project is answered 404 before anything else is looked at, and one
    for an unknown worktree of a known project is answered 404 too: in
    both cases the session manager is not consulted and nothing is
    spawned. Whatever error [createSession] throws for the path of the
    worktree record is answered 400 with the message of that error, as
    for a full table. These are all the failures, and each leaves the
    session table as it was. A success is what [createSession] returned
    for the path of the worktree record, with a token issued for the
    new session id. *)
Theorem postSession_outcomes env c pm m body now issued uuid :
  (getProject pm (b_projectId body) = None ->
   postSession env c pm m body now issued uuid
   = (Failed 404 "Project not found", pm, m, [])) /\
  (is_Some (getProject pm (b_projectId body)) ->
   (findWorktreeById env pm (b_projectId body) (b_worktreeId body)).1 = None ->
   exists pm',
     postSession env c pm m body now issued uuid
     = (Failed 404 "Worktree not found", pm', m, [])) /\
  (is_Some (getProject pm (b_projectId body)) ->
   forall worktree e m1 fx,
     (findWorktreeById env pm (b_projectId body) (b_worktreeId body)).1
     = Some worktree ->
     createSession env m (input_of body worktree) now uuid = (Throw e, m1, fx) ->
     exists pm',
       postSession env c pm m body now issued uuid
       = (Failed 400 (Cli.message e), pm', m, fx)) /\
  (is_Some (getProject pm (b_projectId body)) ->
   forall worktree,
     (findWorktreeById env pm (b_projectId body) (b_worktreeId body)).1
     = Some worktree ->
     MAX_TOTAL_SESSIONS <= Z.of_nat (size (sessions m)) ->
     exists pm',
       postSession env c pm m body now issued uuid
       = (Failed 400 "Maximum total sessions (50) reached", pm', m, [])) /\
  (forall status error pm' m' fx,
     postSession env c pm m body now issued uuid
     = (Failed status error, pm', m', fx) ->
     m' = m /\
     ((status = 404 /\ error = "Project not found" /\ fx = [] /\
       getProject pm (b_projectId body) = None) \/
      (status = 404 /\ error = "Worktree not found" /\ fx = [] /\
       (findWorktreeById env pm (b_projectId body) (b_worktreeId body)).1
       = None) \/
      (status = 400 /\
       exists worktree e,
         (findWorktreeById env pm (b_projectId body) (b_worktreeId body)).1
         = Some worktree /\
         createSession env m (input_of body worktree) now uuid
         = (Throw e, m, fx) /\
         error = Cli.message e))) /\
  (forall session tok pm' m' fx,
     postSession env c pm m body now issued uuid
     = (Created session tok, pm', m', fx) ->
     exists worktree,
       (findWorktreeById env pm (b_projectId body) (b_worktreeId body)).1
       = Some worktree /\
       createSession env m (input_of body worktree) now uuid
       = (Ok session, m', fx) /\
       info_id session = uuid /\
       tok = generateSessionToken c uuid issued).
Proof.
  unfold postSession. fold (input_of body).
  destruct (getProject pm (b_projectId body)) as [project|] eqn:Hproject.
  2:{ split; [done|]. split; [by intros [? [=]]|]. split; [by intros [? [=]]|].
      split; [by intros [? [=]]|].
      split; [|done]. intros status error pm' m' fx [= <- <- <- <- <-].
      split; [done|]. left. by repeat split. }
  split; [done|].
  destruct (findWorktreeById env pm _ _) as [[worktree|] pm1] eqn:Hfind; simpl.
  2:{ split; [by eexists|]. split; [done|]. split; [done|]. split; [|done].
      intros status error pm' m' fx [= <- <- <- <- <-].
      split; [done|]. right. left. by repeat split. }
  split; [done|]. fold (input_of body worktree).
  split; [|split; [|split]].
  - intros _ w e m1 fx [= <-] Hrun. rewrite Hrun.
    apply createSession_Throw in Hrun as ->. by eexists.
  - intros _ w [= <-] Hfull. unfold createSession.
    destruct (Z.leb_spec MAX_TOTAL_SESSIONS (Z.of_nat (size (sessions m))));
      [|lia]. by eexists.
  - intros status error pm' m' fx.
    destruct (createSession env m _ now uuid) as [[[session|e] m1] fx1] eqn:Hrun;
      [done|]. intros [= <- <- <- <- <-].
    pose proof (createSession_Throw _ _ _ _ _ _ _ _ Hrun) as ->.
    split; [done|]. right. right. split; [done|]. by exists worktree, e.
  - intros session tok pm' m' fx Hpost.
    assert (postSession env c pm m body now issued uuid
            = (Created session tok, pm', m', fx)) as Hfull.
    { unfold postSession. fold (input_of body). rewrite Hproject, Hfind.
      exact Hpost. }
    destruct (postSession_Created _ _ _ _ _ _ _ _ _ _ _ _ _ Hfull)
      as (w & Hw & Hrest).
    rewrite Hfind in Hw. exists w. split; [exact Hw | exact Hrest].
Qed.

(** *** From the request to the socket *)

(** The token of a new session opens its socket, for an hour. When
    [POST /api/cli/sessions] answers with a session and a token, the
    session is in the table under the fresh id, and an upgrade request
    that presents this token on [/ws/cli] is granted at any time up to
    one hour after the token was issued, provided the session still
    exists: the socket is attached to that very session. After the
    hour, or once the session is gone, the same request is refused and
    nothing changes. *)
Theorem token_opens_socket env c pm m body now issued uuid session tok pm' m1 fx :
  postSession env c pm m body now issued uuid
  = (Created session tok, pm', m1, fx) ->
  codec_handles c uuid issued ->
  info_id session = uuid /\
  is_Some (getSession m1 uuid) /\
  (forall m2 ws later,
     later <= issued + TTL -> is_Some (getSession m2 uuid) ->
     onUpgrade c m2 (Some (ws_url tok)) ws later
     = (Upgraded uuid, (attachWebSocket m2 uuid ws).1,
        (attachWebSocket m2 uuid ws).2)) /\
  (forall m2 ws later,
     issued + TTL < later ->
     onUpgrade c m2 (Some (ws_url tok)) ws later = (Destroyed, m2, [])) /\
  (forall m2 ws later,
     getSession m2 uuid = None ->
     onUpgrade c m2 (Some (ws_url tok)) ws later = (Destroyed, m2, [])).
Proof.
  intros Hpost Hcodec.
  destruct (postSession_Created _ _ _ _ _ _ _ _ _ _ _ _ _ Hpost)
    as (worktree & _ & Hrun & Hid & ->).
  destruct (createSession_Ok_id _ _ _ _ _ _ _ _ Hrun) as (_ & _ & _ & Hlive).
  split; [done|]. split; [done|].
  assert (truthy (generateSessionToken c uuid issued) = true) as Htruthy.
  { unfold generateSessionToken. apply truthy_spec.
    destruct Hcodec as (_ & Hpne & _).
    intros Hempty. apply (f_equal chars) in Hempty.
    rewrite chars_app in Hempty. apply app_eq_nil in Hempty as [Hp _].
    apply Hpne. apply chars_inj. fold TTL in Hp. by rewrite Hp. }
  split; [|split].
  - intros m2 ws later Hlater [s Hs]. unfold onUpgrade, ws_url. simpl.
    rewrite Htruthy. simpl.
    rewrite (verify_generated c uuid issued later Hcodec).
    destruct (Z.ltb_spec (issued + TTL) later); [lia|]. simpl.
    rewrite Hs. by destruct (attachWebSocket m2 uuid ws).
  - intros m2 ws later Hlater. unfold onUpgrade, ws_url. simpl.
    rewrite Htruthy. simpl.
    rewrite (verify_generated c uuid issued later Hcodec).
    by destruct (Z.ltb_spec (issued + TTL) later); [|lia].
  - intros m2 ws later Hgone. unfold onUpgrade, ws_url. simpl.
    rewrite Htruthy. simpl.
    rewrite (verify_generated c uuid issued later Hcodec).
    destruct (issued + TTL <? later); [done|]. simpl. by rewrite Hgone.
Qed.

Lemma sample_codec_handles : codec_handles sample_codec "A" 1000.
Proof. unfold codec_handles. by vm_compute. Qed.

(** A session with the id [A] is created at time 0, its token is
    issued at time 1000, and a socket presents it at time 2000. *)
Lemma token_opens_socket_witness :
  exists session tok pm' m1 fx,
    postSession sample_env sample_codec one_project fresh_manager codex_body
      0 1000 "A" = (Created session tok, pm', m1, fx) /\
    (onUpgrade sample_codec m1 (Some (ws_url tok)) 3%nat 2000).1.1
    = Upgraded "A".
Proof.
  destruct (postSession sample_env sample_codec one_project fresh_manager
              codex_body 0 1000 "A") as [[[[session tok|status error] pm'] m1] fx]
    eqn:Hpost; [|by vm_compute in Hpost].
  exists session, tok, pm', m1, fx. split; [done|].
  destruct (token_opens_socket _ _ _ _ _ _ _ _ _ _ _ _ _ Hpost
              sample_codec_handles) as (_ & Hlive & Hopen & _).
  rewrite (Hopen m1 3%nat 2000); [done | by vm_compute | exact Hlive].
Defined.

(** A request for a project that is not registered, and one for a
    tool that the probe did not find. *)
Lemma postSession_outcomes_witness :
  postSession sample_env sample_codec empty_registry fresh_manager codex_body
    0 1000 "A"
  = (Failed 404 "Project not found", empty_registry, fresh_manager, []) /\
  exists pm',
    postSession sample_env sample_codec one_project probed_manager codex_body
      0 1000 "A"
    = (Failed 400 "Codex CLI is not available on this system", pm',
       probed_manager, []).
Proof.
  split.
  - apply (proj1 (postSession_outcomes sample_env sample_codec empty_registry
                    fresh_manager codex_body 0 1000 "A")).
    reflexivity.
  - destruct (postSession_outcomes sample_env sample_codec one_project
                probed_manager codex_body 0 1000 "A")
      as (_ & _ & Hrefused & _).
    apply (Hrefused ltac:(by eexists) (defaultEntry "/home/u/proj")
             (ToolUnavailable "Codex CLI") probed_manager []);
      by vm_compute.
Defined.

End CliRoutesFacts.
(** ** Facts about the reader of [git status] *)

Module GitStatusFacts.
Import Str GitStatus GitStatusSpec StrFacts.
Local Open Scope string_scope.
Local Open Scope Z_scope.

Lemma forallb_takeWhile {A} (p : A -> bool) l :
  forallb p (takeWhile p l) = true.
Proof.
  induction l as [|x l IH]; simpl; [done|].
  destruct (p x) eqn:Hx; simpl; [by rewrite Hx|done].
Qed.

Lemma matchCount_digits w l ds :
  matchCount w l = Some ds -> forallb isDigit ds = true.
Proof.
  induction l as [|c l IH]; simpl; [done|].
  destruct (after w (c :: l)) as [rest|]; [|exact IH].
  destruct (takeWhile isDigit rest) as [|d ds'] eqn:Ht; [exact IH|].
  intros [= <-]. rewrite <- Ht. apply forallb_takeWhile.
Qed.

Lemma foldl_digits_nonneg ds : forall acc,
  0 <= acc -> forallb isDigit ds = true ->
  0 <= foldl (fun acc d => 10 * acc + (Z.of_nat (code d) - 48)) acc ds.
Proof.
  induction ds as [|d ds IH]; intros acc Hacc; simpl; [done|].
  intros [Hd Hds]%andb_prop. apply IH; [|done].
  unfold isDigit in Hd. apply andb_prop in Hd as [Hd _].
  apply Nat.leb_le in Hd. lia.
Qed.

Lemma parseInt_nonneg ds : forallb isDigit ds = true -> 0 <= parseInt ds.
Proof. by apply foldl_digits_nonneg. Qed.

Lemma orElse_truthy a b : b <> "" -> orElse a b <> "".
Proof.
  intros Hb. unfold orElse. destruct (truthy a) eqn:Ha; [|done].
  by apply truthy_spec.
Qed.

Lemma branchOf_named info current : current <> "" -> branchOf info current <> "".
Proof.
  intros Hc. unfold branchOf.
  destruct (startsWith _ "No commits yet on "); [by apply orElse_truthy|].
  destruct (startsWith _ "HEAD"); [done|].
  destruct (truthy _) eqn:Ht; [by apply truthy_spec|done].
Qed.

Lemma readLine_sound acc line : sound acc -> sound (readLine acc line).
Proof.
  intros (Hb & Ha & Hh). unfold readLine.
  destruct (startsWith line "##").
  { repeat split; simpl.
    - by apply branchOf_named.
    - match goal with
      | |- context [matchCount ?w ?l] =>
          destruct (matchCount w l) as [ds|] eqn:Hm; [|done]
      end.
      by apply parseInt_nonneg, (matchCount_digits _ _ _ Hm).
    - match goal with
      | |- context [matchCount ?w ?l] =>
          destruct (matchCount w l) as [ds|] eqn:Hm; [|done]
      end.
      by apply parseInt_nonneg, (matchCount_digits _ _ _ Hm). }
  destruct (startsWith line "??"); [by destruct (truthy _)|].
  destruct (3 <=? String.length line)%nat; [|done].
  destruct (negb (truthy _)); [done|].
  by destruct (match chars (substringTo 2 line) with _ :: _ => _ | [] => _ end).
Qed.

Lemma foldl_readLine_sound lines : forall acc,
  sound acc -> sound (foldl readLine acc lines).
Proof.
  induction lines as [|line lines IH]; intros acc H; simpl; [done|].
  by apply IH, readLine_sound.
Qed.

Lemma readLine_no_header acc line :
  headerLine line = false ->
  a_branch (readLine acc line) = a_branch acc /\
  a_ahead (readLine acc line) = a_ahead acc /\
  a_behind (readLine acc line) = a_behind acc.
Proof.
  unfold headerLine, readLine. intros ->.
  destruct (startsWith line "??"); [by destruct (truthy _)|].
  destruct (3 <=? String.length line)%nat; [|done].
  destruct (negb (truthy _)); [done|].
  by destruct (match chars (substringTo 2 line) with _ :: _ => _ | [] => _ end).
Qed.

Lemma foldl_readLine_no_header lines : forall acc,
  forallb (fun line => negb (headerLine line)) lines = true ->
  a_branch (foldl readLine acc lines) = a_branch acc /\
  a_ahead (foldl readLine acc lines) = a_ahead acc /\
  a_behind (foldl readLine acc lines) = a_behind acc.
Proof.
  induction lines as [|line lines IH]; intros acc H; simpl; [done|].
  simpl in H. apply andb_prop in H as [Hl H]. apply negb_true_iff in Hl.
  destruct (IH (readLine acc line) H) as (-> & -> & ->).
  by apply readLine_no_header.
Qed.

(** The branch of a status is never the empty string and its counts
    are never negative, whatever git printed; without a header line
    the branch is "unknown" and both counts are zero. *)
Theorem status_branch_and_counts output :
  branch (parseGitStatusOutput output) <> "" /\
  0 <= ahead (parseGitStatusOutput output) /\
  0 <= behind (parseGitStatusOutput output) /\
  (forallb (fun line => negb (headerLine line)) (cleanLines output) = true ->
   branch (parseGitStatusOutput output) = "unknown" /\
   ahead (parseGitStatusOutput output) = 0 /\
   behind (parseGitStatusOutput output) = 0).
Proof.
  unfold parseGitStatusOutput. simpl.
  destruct (foldl_readLine_sound (cleanLines output) start) as (Hb & Ha & Hh).
  { by repeat split. }
  split; [done|]. split; [done|]. split; [done|].
  intros H. by apply (foldl_readLine_no_header _ start).
Qed.

Lemma path_needs_three line :
  truthy (trim (substringFrom 3 line)) = true ->
  (3 <=? String.length line)%nat = true.
Proof.
  intros H. apply Nat.leb_le. destruct (le_lt_dec 3 (String.length line)) as [|Hlt];
    [done|].
  exfalso. unfold substringFrom in H. rewrite drop_ge in H; [done|].
  rewrite chars_length. lia.
Qed.

Lemma startsWith_two line a b :
  startsWith line (String a (String b "")) = true ->
  exists rest, line = String a (String b rest).
Proof.
  unfold startsWith. destruct line as [|a' [|b' line]]; cbn [String.prefix];
    try done.
  - by destruct (ascii_dec a a').
  - destruct (ascii_dec a a') as [<-|]; [|done].
    destruct (ascii_dec b b') as [<-|]; [|done]. eauto.
Qed.

Lemma untracked_status line :
  startsWith line "??" = true ->
  orElse (trim (substringTo 2 line)) (substringTo 2 line) = "??".
Proof. by intros [rest ->]%startsWith_two. Qed.

(** One round of the loop appends the record of the line to the list of
    its kind, if it is a file line, and leaves the lists alone if not. *)
Lemma readLine_files acc line :
  a_staged (readLine acc line)
  = (a_staged acc ++ filesOf Staged [line])%list /\
  a_modified (readLine acc line)
  = (a_modified acc ++ filesOf Modified [line])%list /\
  a_untracked (readLine acc line)
  = (a_untracked acc ++ filesOf Untracked [line])%list.
Proof.
  unfold readLine, filesOf, isKind, fileLine, headerLine.
  cbn [List.filter].
  destruct (startsWith line "##") eqn:Hh; cbn [negb andb].
  { simpl. by rewrite !app_nil_r. }
  unfold kindOf at 1 2 3.
  destruct (startsWith line "??") eqn:Hq.
  { destruct (truthy (trim (substringFrom 3 line))) eqn:Hp; simpl;
      rewrite ?app_nil_r; [|done].
    unfold fileOf, kindOf, pathOf. by rewrite Hq, (untracked_status line Hq). }
  destruct (truthy (trim (substringFrom 3 line))) eqn:Hp.
  - rewrite (path_needs_three line Hp). cbn [negb andb].
    assert (chars (substringTo 2 line) = take 2 (chars line)) as ->.
    { unfold substringTo. by rewrite chars_str. }
    assert (forall c, negb (isChar space c) && negb (isChar question c)
                      = negb (isChar space c || isChar question c)) as Hneg.
    { intros c. by destruct (isChar space c), (isChar question c). }
    destruct line as [|c line]; [done|].
    assert (kindOf (String c line)
            = if isChar space c || isChar question c then Modified
              else Staged) as Hk.
    { unfold kindOf. by rewrite Hq. }
    change (chars (String c line)) with (c :: chars line).
    cbn [take]. rewrite Hneg.
    destruct (isChar space c || isChar question c); cbn [negb map app];
      rewrite ?app_nil_r; unfold fileOf, pathOf; rewrite Hk;
      change (chars (String c line)) with (c :: chars line); cbn [take];
      done.
  - cbn [negb andb map]. rewrite !app_nil_r.
    by destruct (3 <=? String.length line)%nat.
Qed.

Lemma filesOf_app k l1 l2 :
  filesOf k (l1 ++ l2) = (filesOf k l1 ++ filesOf k l2)%list.
Proof. unfold filesOf. by rewrite List.filter_app, map_app. Qed.

Lemma foldl_readLine_files lines : forall acc,
  a_staged (foldl readLine acc lines)
  = (a_staged acc ++ filesOf Staged lines)%list /\
  a_modified (foldl readLine acc lines)
  = (a_modified acc ++ filesOf Modified lines)%list /\
  a_untracked (foldl readLine acc lines)
  = (a_untracked acc ++ filesOf Untracked lines)%list.
Proof.
  induction lines as [|line lines IH]; intros acc; simpl.
  { by rewrite !app_nil_r. }
  destruct (IH (readLine acc line)) as (-> & -> & ->).
  destruct (readLine_files acc line) as (-> & -> & ->).
  rewrite <- !app_assoc.
  by rewrite <- !(filesOf_app _ [line] lines).
Qed.

(** Every file line is of exactly one kind. *)
Lemma kinds_partition lines :
  length (List.filter fileLine lines)
  = (length (filesOf Staged lines) + length (filesOf Modified lines)
     + length (filesOf Untracked lines))%nat.
Proof.
  unfold filesOf. rewrite !length_map.
  induction lines as [|line lines IH]; [done|].
  cbn [List.filter].
  assert (forall k, isKind k line
                    = fileLine line &&
                      match k, kindOf line with
                      | Staged, Staged | Modified, Modified
                      | Untracked, Untracked => true
                      | _, _ => false
                      end) as Hk by done.
  rewrite !Hk.
  destruct (fileLine line); cbn [andb]; [|exact IH].
  destruct (kindOf line); cbn [length]; lia.
Qed.

Lemma fileOf_named k line :
  isKind k line = true ->
  f_path (fileOf line) <> "" /\ f_status (fileOf line) <> "".
Proof.
  unfold isKind, fileLine. intros [[_ Hp]%andb_prop _]%andb_prop. split.
  - by apply truthy_spec.
  - simpl. apply orElse_truthy. apply path_needs_three in Hp.
    apply Nat.leb_le in Hp. destruct line as [|a [|b line]]; simpl in *;
      [lia|lia|done].
Qed.

(** Every file line of the output is reported exactly once: the three
    lists hold, in the order of the output, the records of the staged,
    the modified and the untracked file lines, [changedFiles] is the
    number of file lines, only the staged records are flagged as
    staged, an untracked record has the status "??", and no record has
    an empty path or an empty status. Header lines, lines of fewer
    than four characters and lines with only white space after the
    third character are reported nowhere. *)
Theorem status_reports_each_file_once output :
  let parsed := parseGitStatusOutput output in
  let lines := cleanLines output in
  staged parsed = filesOf Staged lines /\
  modified parsed = filesOf Modified lines /\
  untracked parsed = filesOf Untracked lines /\
  changedFiles parsed = Z.of_nat (length (List.filter fileLine lines)) /\
  Forall (fun f => f_staged f = true) (staged parsed) /\
  Forall (fun f => f_staged f = false) (modified parsed ++ untracked parsed) /\
  Forall (fun f => f_status f = "??") (untracked parsed) /\
  Forall (fun f => f_path f <> "" /\ f_status f <> "")
    (staged parsed ++ modified parsed ++ untracked parsed).
Proof.
  cbv zeta. unfold parseGitStatusOutput. cbn [staged modified untracked changedFiles].
  destruct (foldl_readLine_files (cleanLines output) start) as (-> & -> & ->).
  cbn [a_staged a_modified a_untracked start app].
  assert (forall k P,
            (forall line, isKind k line = true -> P (fileOf line)) ->
            Forall P (filesOf k (cleanLines output))) as Hall.
  { intros k P HP. unfold filesOf. apply List.Forall_forall.
    intros f (line & <- & Hin)%in_map_iff. apply filter_In in Hin as [_ Hk].
    by apply HP. }
  split; [done|]. split; [done|]. split; [done|]. split.
  { rewrite kinds_partition. lia. }
  split.
  { apply Hall. intros line. unfold isKind. simpl.
    destruct (kindOf line); by rewrite ?andb_false_r. }
  split.
  { apply Forall_app; split; apply Hall; intros line; unfold isKind; simpl;
      destruct (kindOf line); by rewrite ?andb_false_r. }
  split.
  { apply Hall. intros line. unfold isKind, fileOf, kindOf. simpl.
    destruct (startsWith line "??") eqn:Hq.
    - intros _. by apply untracked_status.
    - rewrite andb_comm.
      destruct (chars line) as [|c r]; [done|].
      by destruct (isChar space c || isChar question c). }
  rewrite !Forall_app. repeat split; apply Hall; intros line;
    apply fileOf_named.
Qed.

Lemma status_reports_each_file_once_witness :
  staged (parseGitStatusOutput sample_status)
  = filesOf Staged (cleanLines sample_status) /\
  map f_path (filesOf Staged (cleanLines sample_status)) = ["src/a.ts"] /\
  map f_path (filesOf Modified (cleanLines sample_status)) = ["src/b.ts"] /\
  map f_path (filesOf Untracked (cleanLines sample_status)) = ["notes.txt"] /\
  changedFiles (parseGitStatusOutput sample_status) = 3 /\
  length (cleanLines sample_status) = 5%nat.
Proof.
  split.
  - apply (status_reports_each_file_once sample_status).
  - by vm_compute.
Defined.

End GitStatusFacts.
(** ** Facts about the project endpoints and the worktree listing *)

Module ProjectRoutesFacts.
Import Str Os Registry Routes ProjectRoutes RegistrySpec RegistryOpsSpec
  RoutesSpec ProjectRoutesSpec StrFacts RegistryFacts RegistryOpsFacts.
Local Open Scope string_scope.
Local Open Scope Z_scope.










Lemma flush_ok result current n :
  blocks_ok (result, current) n ->
  Forall (fun b => b_path b <> "" /\ block_ok b) (flush result current) /\
  (length (flush result current) <= n)%nat.
Proof.
  intros (Hr & Hc & Hn). simpl in *. unfold flush.
  destruct (truthy (b_path current)) eqn:Ht; simpl.
  - destruct (negb (b_prunable current)); [|split; [done|lia]].
    split; [|rewrite length_app; simpl; lia].
    apply Forall_app. split; [done|]. constructor; [|done].
    split; [by apply truthy_spec|done].
  - split; [done|lia].
Qed.

Lemma parseLine_ok env st rawLine n :
  blocks_ok st n ->
  blocks_ok (parseLine env st rawLine)
    (n + (if entryLine rawLine then 1 else 0)).
Proof.
  intros Hst. pose proof Hst as (Hr & Hc & Hn).
  assert (forall m, (n <= m)%nat -> blocks_ok st m) as Hweak.
  { intros m Hm. split; [done|]. split; [done|]. lia. }
  destruct st as [result current]. unfold parseLine, entryLine.
  destruct (truthy (trim rawLine)) eqn:Ht; cbn [negb].
  2:{ apply truthy_false in Ht. rewrite Ht. apply Hweak. simpl. lia. }
  destruct (startsWith (trim rawLine) "worktree ") eqn:Hw.
  { destruct (flush_ok result current n Hst) as [Hf Hl].
    split; [done|]. split; [done|]. simpl.
    match goal with
    | |- context [if ?b then 1%nat else 0%nat] => destruct b
    end; lia. }
  simpl in Hr, Hc, Hn.
  assert (forall b, b_path b = b_path current -> block_ok b ->
                    blocks_ok (result, b) (n + 0)) as Hsame.
  { intros b Hp Hb. split; [done|]. split; [done|]. simpl. rewrite Hp. lia. }
  destruct (negb (truthy (b_path current))); [by apply Hweak; lia|].
  destruct (startsWith _ "branch "); [by apply Hsame|].
  destruct (startsWith _ "HEAD "); [by apply Hsame|].
  destruct (String.eqb _ "detached"); [by apply Hsame|].
  destruct (startsWith _ "locked"); [by apply Hsame|].
  destruct (startsWith _ "prunable"); [by apply Hsame|].
  apply Hweak. lia.
Qed.

Lemma foldl_parseLine_ok env lines : forall st n,
  blocks_ok st n ->
  blocks_ok (foldl (parseLine env) st lines)
    (n + length (List.filter entryLine lines)).
Proof.
  induction lines as [|line lines IH]; intros st n Hst; simpl.
  { by rewrite Nat.add_0_r. }
  pose proof (IH _ _ (parseLine_ok env st line n Hst)) as H.
  destruct (entryLine line); simpl; [|by rewrite Nat.add_0_r in H].
  by replace (n + S (length (List.filter entryLine lines)))%nat
    with (n + 1 + length (List.filter entryLine lines))%nat by lia.
Qed.

(** Whatever git printed, every entry that the reader of the porcelain
    listing returns has a path and has a lock reason only if it is
    locked, there are no more entries than lines that open a block,
    and a blank listing gives no entry. *)
Theorem porcelain_entries_are_sound env output projectPath :
  Forall entry_ok (parseWorktreeOutput env output projectPath) /\
  (length (parseWorktreeOutput env output projectPath)
   <= length (List.filter entryLine (splitLines output)))%nat /\
  (trim output = "" -> parseWorktreeOutput env output projectPath = []).
Proof.
  unfold parseWorktreeOutput.
  destruct (truthy (trim output)) eqn:Ht; cbn [negb].
  2:{ split; [constructor|]. split; [simpl; lia|done]. }
  pose proof (foldl_parseLine_ok env (splitLines output) ([], emptyBlock "") 0)
    as H.
  destruct (foldl (parseLine env) ([], emptyBlock "") (splitLines output))
    as [result current].
  destruct (flush_ok result current _ (H ltac:(by repeat split))) as [Hf Hl].
  split; [|split].
  - apply Forall_fmap. eapply Forall_impl; [exact Hf|]. by intros b [? ?].
  - by rewrite length_map.
  - intros He. apply truthy_spec in Ht. done.
Qed.

Lemma porcelain_entries_are_sound_witness :
  Forall entry_ok (parseWorktreeOutput plain_env mixed_listing "/home/u/proj") /\
  map pw_path (parseWorktreeOutput plain_env mixed_listing "/home/u/proj")
  = ["/home/u/proj"; "/home/u/wt"] /\
  map lockReason (parseWorktreeOutput plain_env mixed_listing "/home/u/proj")
  = [None; Some "on a usb stick"] /\
  length (List.filter entryLine (splitLines mixed_listing)) = 3%nat.
Proof.
  split.
  - apply (porcelain_entries_are_sound plain_env mixed_listing "/home/u/proj").
  - by vm_compute.
Defined.

Lemma dropWhile_snoc_keep {A} (p : A -> bool) l a :
  p a = false -> dropWhile p (l ++ [a]) = (dropWhile p l ++ [a])%list.
Proof.
  intros Ha. induction l as [|x l IH]; simpl; [by rewrite Ha|].
  by destruct (p x).
Qed.

Lemma dropWhileEnd_cons_keep {A} (p : A -> bool) a l :
  p a = false -> dropWhileEnd p (a :: l) = a :: dropWhileEnd p l.
Proof.
  intros Ha. unfold dropWhileEnd. simpl.
  rewrite dropWhile_snoc_keep by done. by rewrite rev_app_distr.
Qed.

(** A path that begins with a slash passes the test of the schema. *)
Lemma absolute_passes_regex p :
  isAbsolute p = true -> truthy p = true /\ absolutePathRegex (trim p) = true.
Proof.
  unfold isAbsolute, startsWith. destruct p as [|c p]; [done|].
  cbn [String.prefix]. destruct (ascii_dec "/"%char c) as [<-|]; [|done].
  intros _. split; [done|].
  unfold absolutePathRegex, trim. rewrite chars_str.
  change (chars (String "/" p)) with ("/"%char :: chars p).
  change (dropWhile isSpace ("/"%char :: chars p)) with ("/"%char :: chars p).
  by rewrite dropWhileEnd_cons_keep.
Qed.

(** The schema of [POST /api/projects] is wider than what [addProject]
    takes. Every path that begins with a slash passes the schema. A
    path that passes it without beginning with a slash (one with
    white space in front, a drive letter, two backslashes) is handed
    on untrimmed and refused by [addProject]: the answer is 400 with
    the registry's message, and the registry is as it was. *)
Theorem schema_is_wider_than_addProject env pm p n now :
  (isAbsolute p = true -> ProjectCreateSchema p None = true) /\
  (ProjectCreateSchema p n = true -> isAbsolute p = false ->
   postProject env pm p n now
   = (ProjectError 400
        ("Project path must be absolute: received " +:+ quote +:+ p +:+ quote),
      pm)).
Proof.
  split.
  - intros [Ht Hr]%absolute_passes_regex. unfold ProjectCreateSchema.
    by rewrite Ht, Hr.
  - intros Hs Ha. unfold postProject, addProject. by rewrite Hs, Ha.
Qed.

Lemma schema_is_wider_than_addProject_witness :
  ProjectCreateSchema " /srv/app" None = true /\
  ProjectCreateSchema "C:/app" (Some "app") = true /\
  postProject plain_env two_worktrees " /srv/app" None 5
  = (ProjectError 400
       ("Project path must be absolute: received " +:+ quote +:+ " /srv/app"
        +:+ quote), two_worktrees) /\
  ProjectCreateSchema "/srv/app" None = true.
Proof.
  split; [reflexivity|]. split; [reflexivity|]. split.
  - apply (proj2 (schema_is_wider_than_addProject plain_env two_worktrees
                    " /srv/app" None 5)); reflexivity.
  - apply (proj1 (schema_is_wider_than_addProject plain_env two_worktrees
                    "/srv/app" None 5)). reflexivity.
Defined.



End ProjectRoutesFacts.
